(** * Babel HMAC packet authentication (babeld/babel_auth.c)

    A shallow embedding of the authentication core of the Babel speaker:
    derivation of effective security associations, the TS/PC replay check,
    packet padding, the HMAC TLV scan, the inbound checker, the send
    counters and the outbound builder, followed by the properties
    established about them. *)

From Stdlib Require Import ZArith NArith List Bool Lia Sorted.
From Stdlib Require String.
From coqutil Require Import Byte.
Import ListNotations.

Local Open Scope Z_scope.

(** ** Machine integers and bytes *)

(** Fixed-width unsigned integers are carried as [Z] with the wrap-around
    of the C types written out. *)
Definition UINT16_MAX : Z := 65535.
Definition u16 (z : Z) : Z := z mod 65536.
Definition u32 (z : Z) : Z := z mod 4294967296.
Definition ULONG_MODULUS : Z := 18446744073709551616.

(** [x++] on an [unsigned long] statistics counter. *)
Definition ulong_incr (x : Z) : Z := (x + 1) mod ULONG_MODULUS.

(** A [size_t] obtained from a (possibly negative) [int] expression. *)
Definition size_t_of_int (z : Z) : N := Z.to_N (z mod ULONG_MODULUS).

(** Network byte order images of 16 and 32 bit values, as written by
    [stream_putw] and [stream_putl]. *)
Definition bytes_of_u16 (w : Z) : list byte :=
  [byte.of_Z (Z.shiftr w 8); byte.of_Z w].

Definition bytes_of_u32 (l : Z) : list byte :=
  [byte.of_Z (Z.shiftr l 24); byte.of_Z (Z.shiftr l 16);
   byte.of_Z (Z.shiftr l 8); byte.of_Z l].

(** Big-endian value of a run of bytes, as read by [stream_getw] (two
    bytes) and [stream_getl] (four bytes). *)
Definition be_value (bs : list byte) : Z :=
  fold_left (fun acc b => acc * 256 + byte.unsigned b) bs 0.

Definition zero_bytes (n : nat) : list byte := repeat Byte.x00 n.

(** [memcpy (dst + off, src, length src)] on a buffer carried as a list. *)
Definition mem_write (dst : list byte) (off : nat) (src : list byte) : list byte :=
  firstn off dst ++ src ++ skipn (off + length src) dst.

(** ** TLV types fixed by the packet format *)

Definition MESSAGE_PAD1 : byte := Byte.x00.
Definition MESSAGE_TSPC : byte := Byte.x0b.
Definition IPV6_MAX_BYTELEN : nat := 16.

Definition MSG_OK : Z := 0.
Definition MSG_NG : Z := 1.

(** ** Data model *)

(** A key of a keychain: numeric index and secret string. *)
Record key := { key_index : Z; key_string : list byte }.

Record keychain := { kc_name : String.string; kc_key : list key }.

(** Configured security association of an interface. *)
Record babel_csa_item := { keychain_name : String.string; csa_hash_algo : Z }.

(** Effective security association (struct babel_esa_item).  The sort
    orders are [unsigned] counters of list positions and are carried as
    [nat]. *)
Record babel_esa_item := {
  sort_order_major : nat;
  sort_order_minor : nat;
  hash_algo : Z;
  key_id : Z;
  key_len : nat;
  key_secret : list byte
}.

(** Statistics counters (struct babel_auth_stats). *)
Record babel_auth_stats := {
  plain_recv : Z;
  plain_sent : Z;
  auth_sent : Z;
  auth_sent_ng_nokeys : Z;
  auth_recv_ok : Z;
  auth_recv_ng_nokeys : Z;
  auth_recv_ng_no_tspc : Z;
  auth_recv_ng_tspc : Z;
  auth_recv_ng_hmac : Z;
  internal_err : Z
}.

(** Authentic neighbors memory record (struct babel_anm_item).  The
    interface pointer is carried as the interface's identity. *)
Record babel_anm_item := {
  address : list byte;
  anm_ifp : nat;
  last_recv : Z;
  last_pc : Z;
  last_ts : Z
}.

Inductive ts_base_t := BABEL_TS_BASE_ZERO | BABEL_TS_BASE_UNIX.

(** Local routing process variables. *)
Record auth_state := {
  ts_base : ts_base_t;
  anm_timeout : Z;
  anmlist : list babel_anm_item;
  stats : babel_auth_stats
}.

(** An address connected to an interface. *)
Record connected := {
  conn_is_inet6 : bool;
  conn_prefixlen : Z;
  conn_prefix6 : list byte
}.

(** The authentication part of struct babel_interface:
    [auth_timestamp] is 32 bits wide, [auth_packetcounter] 16 bits. *)
Record babel_interface := {
  csalist : list babel_csa_item;
  authrxreq : bool;
  auth_stats : babel_auth_stats;
  auth_timestamp : Z;
  auth_packetcounter : Z
}.

Record interface := {
  if_id : nat;
  if_connected : list connected;
  info : babel_interface
}.

(** ** External collaborators

    Constants, tables and functions the authentication code uses but
    does not define: protocol numbers of the message header, the work
    caps, the digest primitive, the keychain store and the link-local
    test on addresses. *)
Class AuthEnv := {
  RTPROT_BABEL : byte;
  MESSAGE_HMAC : byte;
  BABEL_MAXDIGESTSIN : nat;
  BABEL_MAXDIGESTSOUT : nat;
  BABEL_MAXAUTHSPACE : nat;
  hash_digest_length : Z -> nat;
  hash_make_hmac : Z -> list byte -> list byte -> option (list byte);
  keychain_lookup : String.string -> option keychain;
  keys_valid_for_send : keychain -> Z -> list key;
  keys_valid_for_accept : keychain -> Z -> list key;
  linklocal : list byte -> bool
}.

(** ** Record updates *)

Definition incr_plain_recv (s : babel_auth_stats) : babel_auth_stats :=
  {| plain_recv := ulong_incr (plain_recv s); plain_sent := plain_sent s;
     auth_sent := auth_sent s; auth_sent_ng_nokeys := auth_sent_ng_nokeys s;
     auth_recv_ok := auth_recv_ok s; auth_recv_ng_nokeys := auth_recv_ng_nokeys s;
     auth_recv_ng_no_tspc := auth_recv_ng_no_tspc s;
     auth_recv_ng_tspc := auth_recv_ng_tspc s;
     auth_recv_ng_hmac := auth_recv_ng_hmac s; internal_err := internal_err s |}.

Definition incr_plain_sent (s : babel_auth_stats) : babel_auth_stats :=
  {| plain_recv := plain_recv s; plain_sent := ulong_incr (plain_sent s);
     auth_sent := auth_sent s; auth_sent_ng_nokeys := auth_sent_ng_nokeys s;
     auth_recv_ok := auth_recv_ok s; auth_recv_ng_nokeys := auth_recv_ng_nokeys s;
     auth_recv_ng_no_tspc := auth_recv_ng_no_tspc s;
     auth_recv_ng_tspc := auth_recv_ng_tspc s;
     auth_recv_ng_hmac := auth_recv_ng_hmac s; internal_err := internal_err s |}.

Definition incr_auth_sent (s : babel_auth_stats) : babel_auth_stats :=
  {| plain_recv := plain_recv s; plain_sent := plain_sent s;
     auth_sent := ulong_incr (auth_sent s);
     auth_sent_ng_nokeys := auth_sent_ng_nokeys s;
     auth_recv_ok := auth_recv_ok s; auth_recv_ng_nokeys := auth_recv_ng_nokeys s;
     auth_recv_ng_no_tspc := auth_recv_ng_no_tspc s;
     auth_recv_ng_tspc := auth_recv_ng_tspc s;
     auth_recv_ng_hmac := auth_recv_ng_hmac s; internal_err := internal_err s |}.

Definition incr_auth_sent_ng_nokeys (s : babel_auth_stats) : babel_auth_stats :=
  {| plain_recv := plain_recv s; plain_sent := plain_sent s;
     auth_sent := auth_sent s;
     auth_sent_ng_nokeys := ulong_incr (auth_sent_ng_nokeys s);
     auth_recv_ok := auth_recv_ok s; auth_recv_ng_nokeys := auth_recv_ng_nokeys s;
     auth_recv_ng_no_tspc := auth_recv_ng_no_tspc s;
     auth_recv_ng_tspc := auth_recv_ng_tspc s;
     auth_recv_ng_hmac := auth_recv_ng_hmac s; internal_err := internal_err s |}.

Definition incr_auth_recv_ok (s : babel_auth_stats) : babel_auth_stats :=
  {| plain_recv := plain_recv s; plain_sent := plain_sent s;
     auth_sent := auth_sent s; auth_sent_ng_nokeys := auth_sent_ng_nokeys s;
     auth_recv_ok := ulong_incr (auth_recv_ok s);
     auth_recv_ng_nokeys := auth_recv_ng_nokeys s;
     auth_recv_ng_no_tspc := auth_recv_ng_no_tspc s;
     auth_recv_ng_tspc := auth_recv_ng_tspc s;
     auth_recv_ng_hmac := auth_recv_ng_hmac s; internal_err := internal_err s |}.

Definition incr_auth_recv_ng_nokeys (s : babel_auth_stats) : babel_auth_stats :=
  {| plain_recv := plain_recv s; plain_sent := plain_sent s;
     auth_sent := auth_sent s; auth_sent_ng_nokeys := auth_sent_ng_nokeys s;
     auth_recv_ok := auth_recv_ok s;
     auth_recv_ng_nokeys := ulong_incr (auth_recv_ng_nokeys s);
     auth_recv_ng_no_tspc := auth_recv_ng_no_tspc s;
     auth_recv_ng_tspc := auth_recv_ng_tspc s;
     auth_recv_ng_hmac := auth_recv_ng_hmac s; internal_err := internal_err s |}.

Definition incr_auth_recv_ng_no_tspc (s : babel_auth_stats) : babel_auth_stats :=
  {| plain_recv := plain_recv s; plain_sent := plain_sent s;
     auth_sent := auth_sent s; auth_sent_ng_nokeys := auth_sent_ng_nokeys s;
     auth_recv_ok := auth_recv_ok s; auth_recv_ng_nokeys := auth_recv_ng_nokeys s;
     auth_recv_ng_no_tspc := ulong_incr (auth_recv_ng_no_tspc s);
     auth_recv_ng_tspc := auth_recv_ng_tspc s;
     auth_recv_ng_hmac := auth_recv_ng_hmac s; internal_err := internal_err s |}.

Definition incr_auth_recv_ng_tspc (s : babel_auth_stats) : babel_auth_stats :=
  {| plain_recv := plain_recv s; plain_sent := plain_sent s;
     auth_sent := auth_sent s; auth_sent_ng_nokeys := auth_sent_ng_nokeys s;
     auth_recv_ok := auth_recv_ok s; auth_recv_ng_nokeys := auth_recv_ng_nokeys s;
     auth_recv_ng_no_tspc := auth_recv_ng_no_tspc s;
     auth_recv_ng_tspc := ulong_incr (auth_recv_ng_tspc s);
     auth_recv_ng_hmac := auth_recv_ng_hmac s; internal_err := internal_err s |}.

Definition incr_auth_recv_ng_hmac (s : babel_auth_stats) : babel_auth_stats :=
  {| plain_recv := plain_recv s; plain_sent := plain_sent s;
     auth_sent := auth_sent s; auth_sent_ng_nokeys := auth_sent_ng_nokeys s;
     auth_recv_ok := auth_recv_ok s; auth_recv_ng_nokeys := auth_recv_ng_nokeys s;
     auth_recv_ng_no_tspc := auth_recv_ng_no_tspc s;
     auth_recv_ng_tspc := auth_recv_ng_tspc s;
     auth_recv_ng_hmac := ulong_incr (auth_recv_ng_hmac s);
     internal_err := internal_err s |}.

Definition incr_internal_err (s : babel_auth_stats) : babel_auth_stats :=
  {| plain_recv := plain_recv s; plain_sent := plain_sent s;
     auth_sent := auth_sent s; auth_sent_ng_nokeys := auth_sent_ng_nokeys s;
     auth_recv_ok := auth_recv_ok s; auth_recv_ng_nokeys := auth_recv_ng_nokeys s;
     auth_recv_ng_no_tspc := auth_recv_ng_no_tspc s;
     auth_recv_ng_tspc := auth_recv_ng_tspc s;
     auth_recv_ng_hmac := auth_recv_ng_hmac s;
     internal_err := ulong_incr (internal_err s) |}.

(** The two pools of counters every outcome is recorded in: the global
    [stats] and the interface's [auth_stats]. *)
Record stat_pools := { global_stats : babel_auth_stats; if_stats : babel_auth_stats }.

(** [stats.f++; if_stats->f++;] *)
Definition bump (f : babel_auth_stats -> babel_auth_stats) (p : stat_pools) : stat_pools :=
  {| global_stats := f (global_stats p); if_stats := f (if_stats p) |}.

Definition set_stats (st : auth_state) (s : babel_auth_stats) : auth_state :=
  {| ts_base := ts_base st; anm_timeout := anm_timeout st;
     anmlist := anmlist st; stats := s |}.

Definition set_anmlist (st : auth_state) (l : list babel_anm_item) : auth_state :=
  {| ts_base := ts_base st; anm_timeout := anm_timeout st;
     anmlist := l; stats := stats st |}.

Definition set_auth_stats (b : babel_interface) (s : babel_auth_stats) : babel_interface :=
  {| csalist := csalist b; authrxreq := authrxreq b; auth_stats := s;
     auth_timestamp := auth_timestamp b;
     auth_packetcounter := auth_packetcounter b |}.

Definition set_auth_tspc (b : babel_interface) (ts pc : Z) : babel_interface :=
  {| csalist := csalist b; authrxreq := authrxreq b; auth_stats := auth_stats b;
     auth_timestamp := ts; auth_packetcounter := pc |}.

Definition set_info (ifp : interface) (b : babel_interface) : interface :=
  {| if_id := if_id ifp; if_connected := if_connected ifp; info := b |}.

Definition pools_of (st : auth_state) (ifp : interface) : stat_pools :=
  {| global_stats := stats st; if_stats := auth_stats (info ifp) |}.

Definition store_pools (st : auth_state) (ifp : interface) (p : stat_pools)
  : auth_state * interface :=
  (set_stats st (global_stats p),
   set_info ifp (set_auth_stats (info ifp) (if_stats p))).

(** ** Byte string comparison *)

Fixpoint bytes_eqb (a b : list byte) : bool :=
  match a, b with
  | [], [] => true
  | x :: a', y :: b' => Byte.eqb x y && bytes_eqb a' b'
  | _, _ => false
  end.

(** [memcmp (a, b, n) == 0] *)
Definition memcmp_eq (a b : list byte) (n : nat) : bool :=
  bytes_eqb (firstn n a) (firstn n b).

(** ** Authentic neighbors memory *)

(** IPV6_ADDR_SAME: comparison of the 16 address bytes. *)
Definition IPV6_ADDR_SAME (a b : list byte) : bool :=
  memcmp_eq a b IPV6_MAX_BYTELEN.

Definition anm_matches (addr : list byte) (ifp : nat) (anm : babel_anm_item) : bool :=
  IPV6_ADDR_SAME (address anm) addr && Nat.eqb (anm_ifp anm) ifp.

(** Return the ANM record addressed with the given (source address,
    interface) pair, or [None] if it is missing. *)
Definition babel_anm_lookup (l : list babel_anm_item) (addr : list byte) (ifp : nat)
  : option babel_anm_item :=
  find (anm_matches addr ifp) l.

(** The list after [babel_anm_get]: a zeroed record for the pair is added
    at the tail when the lookup fails. *)
Definition babel_anm_get (l : list babel_anm_item) (addr : list byte) (ifp : nat)
  : list babel_anm_item :=
  match babel_anm_lookup l addr ifp with
  | Some _ => l
  | None =>
      l ++ [{| address := firstn IPV6_MAX_BYTELEN addr; anm_ifp := ifp;
               last_recv := 0; last_pc := 0; last_ts := 0 |}]
  end.

(** Assignment through the pointer returned by [babel_anm_get]: the first
    record matching the pair is rewritten in place. *)
Fixpoint anm_assign (l : list babel_anm_item) (addr : list byte) (ifp : nat)
    (pc ts recv : Z) : list babel_anm_item :=
  match l with
  | [] => []
  | anm :: rest =>
      if anm_matches addr ifp anm then
        {| address := address anm; anm_ifp := anm_ifp anm;
           last_recv := recv; last_pc := pc; last_ts := ts |} :: rest
      else anm :: anm_assign rest addr ifp pc ts recv
  end.

(** ** Effective security associations *)

(** Deep copy function to allocate an ESA record; the algorithm and the
    key identifier pass through 16-bit parameters. *)
Definition babel_esa_item_alloc (algo kid : Z) (klen : nat) (secret : list byte)
  : babel_esa_item :=
  {| sort_order_major := 0; sort_order_minor := 0;
     hash_algo := u16 algo; key_id := u16 kid;
     key_len := klen; key_secret := firstn klen secret |}.

Definition set_sort_order (esa : babel_esa_item) (major minor : nat) : babel_esa_item :=
  {| sort_order_major := major; sort_order_minor := minor;
     hash_algo := hash_algo esa; key_id := key_id esa;
     key_len := key_len esa; key_secret := key_secret esa |}.

(** List hook function to compare two ESA records. *)
Definition babel_esa_item_cmp (val1 val2 : babel_esa_item) : Z :=
  if (sort_order_major val1 <? sort_order_major val2)%nat then -1
  else if (sort_order_major val2 <? sort_order_major val1)%nat then 1
  else if (sort_order_minor val1 <? sort_order_minor val2)%nat then -1
  else if (sort_order_minor val2 <? sort_order_minor val1)%nat then 1
  else 0.

(** Return [true] if the list contains an ESA record with the same
    attributes. *)
Definition babel_esa_item_exists (esalist : list babel_esa_item)
    (new_hash_algo new_key_id : Z) (new_key_len : nat) (new_key_secret : list byte)
  : bool :=
  existsb (fun esa =>
             (hash_algo esa =? new_hash_algo) && (key_id esa =? new_key_id) &&
             Nat.eqb (key_len esa) new_key_len &&
             memcmp_eq (key_secret esa) new_key_secret new_key_len)
          esalist.

(** Modelled from the spec: [listnode_add_sort] of the linked list library
    is not part of the file; the new element is inserted in sorted order,
    that is, before the first element the list's comparison hook places
    after it, or at the tail. *)
Fixpoint listnode_add_sort {A : Type} (cmp : A -> A -> Z) (l : list A) (val : A)
  : list A :=
  match l with
  | [] => [val]
  | n :: rest =>
      if cmp val n <? 0 then val :: n :: rest
      else n :: listnode_add_sort cmp rest val
  end.

(** The loop of [babel_esalist_derive] over the filtered keys of one CSA.
    It returns the ESA list together with the final [key_counter]. *)
Fixpoint esalist_derive_keys (algo : Z) (csa_counter : nat)
    (filtered_keys : list key) (all_esas : list babel_esa_item) (key_counter : nat)
  : list babel_esa_item * nat :=
  match filtered_keys with
  | [] => (all_esas, key_counter)
  | k :: rest =>
      let kid := key_index k mod (UINT16_MAX + 1) in
      let klen := length (key_string k) in
      if babel_esa_item_exists all_esas algo kid klen (key_string k) then
        esalist_derive_keys algo csa_counter rest all_esas key_counter
      else
        let esa := babel_esa_item_alloc algo kid klen (key_string k) in
        let esa := set_sort_order esa key_counter csa_counter in
        esalist_derive_keys algo csa_counter rest
          (listnode_add_sort babel_esa_item_cmp all_esas esa) (S key_counter)
  end.

Section Derive.
Context {env : AuthEnv}.

(** The loop of [babel_esalist_derive] over the CSAs. *)
Fixpoint esalist_derive_csas (csas : list babel_csa_item) (now : Z)
    (keychain_filter_func : keychain -> Z -> list key)
    (all_esas : list babel_esa_item) (csa_counter : nat) : list babel_esa_item :=
  match csas with
  | [] => all_esas
  | csa :: rest =>
      match keychain_lookup (keychain_name csa) with
      | None =>
          esalist_derive_csas rest now keychain_filter_func all_esas csa_counter
      | Some kc =>
          let filtered_keys := keychain_filter_func kc now in
          let '(all_esas', _) :=
            esalist_derive_keys (csa_hash_algo csa) csa_counter filtered_keys
                                all_esas 0%nat in
          esalist_derive_csas rest now keychain_filter_func all_esas'
                              (S csa_counter)
      end
  end.

(** Build and return a list of ESAs from a given list of CSAs, a time
    reference and a filter function. *)
Definition babel_esalist_derive (csas : list babel_csa_item) (now : Z)
    (keychain_filter_func : keychain -> Z -> list key) : list babel_esa_item :=
  esalist_derive_csas csas now keychain_filter_func [] 0%nat.
End Derive.

(** ** Packet buffers *)

(** Modelled from the spec: the stream library is not part of the file.
    A packet is a byte buffer of fixed size with a parse cursor [getp] and
    an append cursor [endp]; the bytes before [endp] are its contents.  A
    request outside the bounds of the buffer is a failed assertion of the
    library: the operation yields [None] and the caller stops. *)
Record stream := { s_data : list byte; s_getp : nat; s_endp : nat }.

Declare Scope opt_scope.
Notation "'let*' p := c 'in' k" :=
  (match c with Some p => k | None => None end)
  (at level 10, p pattern, c at level 100, k at level 200) : opt_scope.
Local Open Scope opt_scope.

Definition stream_new (size : nat) : stream :=
  {| s_data := zero_bytes size; s_getp := 0; s_endp := 0 |}.

Definition stream_dup (s : stream) : stream := s.

Definition stream_reset (s : stream) : stream :=
  {| s_data := s_data s; s_getp := 0; s_endp := 0 |}.

Definition stream_get_data (s : stream) : list byte := s_data s.
Definition stream_get_getp (s : stream) : nat := s_getp s.
Definition stream_get_endp (s : stream) : nat := s_endp s.

(** The bytes put so far. *)
Definition stream_contents (s : stream) : list byte := firstn (s_endp s) (s_data s).

Definition STREAM_READABLE (s : stream) : nat := s_endp s - s_getp s.
Definition STREAM_WRITEABLE (s : stream) : nat := length (s_data s) - s_endp s.

Definition stream_set_getp (s : stream) (pos : nat) : option stream :=
  if (pos <=? s_endp s)%nat
  then Some {| s_data := s_data s; s_getp := pos; s_endp := s_endp s |}
  else None.

Definition stream_forward_getp (s : stream) (size : nat) : option stream :=
  stream_set_getp s (s_getp s + size).

Definition stream_forward_endp (s : stream) (size : nat) : option stream :=
  if (s_endp s + size <=? length (s_data s))%nat
  then Some {| s_data := s_data s; s_getp := s_getp s; s_endp := s_endp s + size |}
  else None.

(** The [size] bytes at offset [from]. *)
Definition stream_peek (s : stream) (from size : nat) : option (list byte) :=
  if (from + size <=? s_endp s)%nat
  then Some (firstn size (skipn from (s_data s)))
  else None.

Definition stream_get (s : stream) (size : nat) : option (list byte * stream) :=
  let* bs := stream_peek s (s_getp s) size in
  Some (bs, {| s_data := s_data s; s_getp := s_getp s + size; s_endp := s_endp s |}).

Definition stream_getc (s : stream) : option (byte * stream) :=
  let* (bs, s') := stream_get s 1 in
  Some (hd Byte.x00 bs, s').

Definition stream_getw (s : stream) : option (Z * stream) :=
  let* (bs, s') := stream_get s 2 in Some (be_value bs, s').

Definition stream_getl (s : stream) : option (Z * stream) :=
  let* (bs, s') := stream_get s 4 in Some (be_value bs, s').

Definition stream_getw_from (s : stream) (from : nat) : option Z :=
  let* bs := stream_peek s from 2 in Some (be_value bs).

Definition stream_getl_from (s : stream) (from : nat) : option Z :=
  let* bs := stream_peek s from 4 in Some (be_value bs).

(** [stream_put (s, src, length src)] *)
Definition stream_put (s : stream) (src : list byte) : option stream :=
  if (length src <=? STREAM_WRITEABLE s)%nat
  then Some {| s_data := mem_write (s_data s) (s_endp s) src;
               s_getp := s_getp s; s_endp := s_endp s + length src |}
  else None.

(** [stream_put (s, NULL, size)]: [size] zero bytes. *)
Definition stream_put_zero (s : stream) (size : N) : option stream :=
  if (size <=? N.of_nat (STREAM_WRITEABLE s))%N
  then stream_put s (zero_bytes (N.to_nat size))
  else None.

Definition stream_putc (s : stream) (c : byte) : option stream :=
  stream_put s [c].

Definition stream_putw (s : stream) (w : Z) : option stream :=
  stream_put s (bytes_of_u16 w).

Definition stream_putl (s : stream) (l : Z) : option stream :=
  stream_put s (bytes_of_u32 l).

Definition stream_putw_at (s : stream) (putp : nat) (w : Z) : option stream :=
  if (putp + 2 <=? s_endp s)%nat
  then Some {| s_data := mem_write (s_data s) putp (bytes_of_u16 w);
               s_getp := s_getp s; s_endp := s_endp s |}
  else None.

(** ** Inbound checks *)

Section Inbound.
Context {env : AuthEnv}.

(** The TLV walk of [babel_auth_check_tspc].  Every turn of the loop
    consumes at least one byte, so [fuel] above the readable length
    never runs out. *)
Fixpoint check_tspc_loop (fuel : nat) (pools : stat_pools) (packet : stream)
    (stor_pc stor_ts : Z) : option (Z * stat_pools) :=
  match fuel with
  | O => None
  | S fuel' =>
      if (STREAM_READABLE packet =? 0)%nat then
        Some (-1, bump incr_auth_recv_ng_no_tspc pools)
      else
        let* (tlv_type, packet) := stream_getc packet in
        if Byte.eqb tlv_type MESSAGE_PAD1 then
          check_tspc_loop fuel' pools packet stor_pc stor_ts
        else
          let* (tlv_length, packet) := stream_getc packet in
          if negb (Byte.eqb tlv_type MESSAGE_TSPC) then
            let* packet := stream_forward_getp packet (Byte.to_nat tlv_length) in
            check_tspc_loop fuel' pools packet stor_pc stor_ts
          else
            (* TS/PC TLV *)
            let* (tlv_pc, packet) := stream_getw packet in
            let* (tlv_ts, packet) := stream_getl packet in
            if (tlv_ts >? stor_ts) || ((tlv_ts =? stor_ts) && (tlv_pc >? stor_pc))
            then Some (Z.of_nat (stream_get_getp packet) - 6, pools)
            else Some (-1, bump incr_auth_recv_ng_tspc pools)
            (* only the 1st TLV matters *)
  end.

(** Return the "stream getp" coordinate of PC followed by TS, if the
    first TS/PC TLV of the packet exists and passes the constraint check
    against the stored TS/PC values; return -1 otherwise and update the
    two pools of counters. *)
Definition babel_auth_check_tspc (pools : stat_pools) (packet : stream)
    (stor_pc stor_ts : Z) : option (Z * stat_pools) :=
  let* packet := stream_set_getp packet 4 in
  check_tspc_loop (S (STREAM_READABLE packet)) pools packet stor_pc stor_ts.

(** The TLV walk of [babel_auth_pad_packet]. *)
Fixpoint pad_packet_loop (fuel : nat) (packet padded : stream) (addr6 : list byte)
  : option (stream * stream) :=
  match fuel with
  | O => None
  | S fuel' =>
      if (STREAM_READABLE packet =? 0)%nat then Some (packet, padded)
      else
        let* (tlv_type, packet) := stream_getc packet in
        let* padded := stream_forward_endp padded 1 in
        if Byte.eqb tlv_type MESSAGE_PAD1 then
          pad_packet_loop fuel' packet padded addr6
        else
          let* (tlv_length, packet) := stream_getc packet in
          let* padded := stream_forward_endp padded 1 in
          let* padded :=
            if negb (Byte.eqb tlv_type MESSAGE_HMAC) then
              stream_forward_endp padded (Byte.to_nat tlv_length)
            else
              let* padded := stream_forward_endp padded 2 in
              let* padded := stream_put padded (firstn IPV6_MAX_BYTELEN addr6) in
              stream_put_zero padded
                (size_t_of_int (byte.unsigned tlv_length
                                - Z.of_nat IPV6_MAX_BYTELEN - 2)) in
          let* packet := stream_forward_getp packet (Byte.to_nat tlv_length) in
          pad_packet_loop fuel' packet padded addr6
  end.

(** Make a copy of the input packet, pad its HMAC TLVs and return the
    padded copy. *)
Definition babel_auth_pad_packet (packet : stream) (addr6 : list byte)
  : option stream :=
  let padded := stream_reset (stream_dup packet) in
  (* packet header is left unchanged *)
  let* padded := stream_forward_endp padded 4 in
  let* packet := stream_set_getp packet 4 in
  let* (packet, padded) :=
    pad_packet_loop (S (STREAM_READABLE packet)) packet padded addr6 in
  if (stream_get_endp packet =? stream_get_endp padded)%nat
  then Some padded else None.

(** Outcome of the HMAC scan for one ESA.  [tr_ret] is the returned
    value, or [None] when the scan stopped on a failed bounds assertion;
    [tr_done] is the caller's counter of digests computed for the packet;
    [tr_calls] counts the invocations of [hash_make_hmac]. *)
Record try_result := {
  tr_ret : option Z;
  tr_pools : stat_pools;
  tr_done : nat;
  tr_calls : nat
}.

(** The TLV walk of [babel_auth_try_hmac_tlvs]; [local_digest] is [None]
    until the local digest has been computed. *)
Fixpoint try_hmac_loop (fuel : nat) (pools : stat_pools) (packet padded : stream)
    (esa : babel_esa_item) (done calls : nat) (local_digest : option (list byte))
  : try_result :=
  let stop := {| tr_ret := None; tr_pools := pools;
                 tr_done := done; tr_calls := calls |} in
  match fuel with
  | O => stop
  | S fuel' =>
    if (STREAM_READABLE packet =? 0)%nat then
      {| tr_ret := Some MSG_NG; tr_pools := pools;
         tr_done := done; tr_calls := calls |}
    else
    match stream_getc packet with
    | None => stop
    | Some (tlv_type, packet) =>
    if Byte.eqb tlv_type MESSAGE_PAD1 then
      try_hmac_loop fuel' pools packet padded esa done calls local_digest
    else
    match stream_getc packet with
    | None => stop
    | Some (tlv_length, packet) =>
    if negb (Byte.eqb tlv_type MESSAGE_HMAC)
       || negb (byte.unsigned tlv_length
                =? Z.of_nat (hash_digest_length (hash_algo esa)) + 2)
    then
      match stream_forward_getp packet (Byte.to_nat tlv_length) with
      | None => stop
      | Some packet =>
          try_hmac_loop fuel' pools packet padded esa done calls local_digest
      end
    else
    match stream_getw packet with
    | None => stop
    | Some (tlv_key_id, packet) =>
    if negb (tlv_key_id =? key_id esa) then
      match stream_forward_getp packet (Byte.to_nat tlv_length - 2) with
      | None => stop
      | Some packet =>
          try_hmac_loop fuel' pools packet padded esa done calls local_digest
      end
    else
    (* fits scan criterias *)
    let compare (digest : list byte) (done calls : nat) :=
      (* OK to compare Digest field *)
      if memcmp_eq (skipn (stream_get_getp packet) (stream_get_data packet))
                   digest (Byte.to_nat tlv_length - 2)
      then {| tr_ret := Some MSG_OK; tr_pools := pools;
              tr_done := done; tr_calls := calls |}
      else
        match stream_forward_getp packet (Byte.to_nat tlv_length - 2) with
        | None => {| tr_ret := None; tr_pools := pools;
                     tr_done := done; tr_calls := calls |}
        | Some packet =>
            try_hmac_loop fuel' pools packet padded esa done calls (Some digest)
        end in
    match local_digest with
    | Some digest => compare digest done calls
    | None =>
        (* Computation of local digest is lazy and happens only once for
           a given ESA. *)
        match hash_make_hmac (hash_algo esa) (stream_contents padded)
                             (firstn (key_len esa) (key_secret esa)) with
        | None =>
            {| tr_ret := Some MSG_NG; tr_pools := bump incr_internal_err pools;
               tr_done := done; tr_calls := S calls |}
        | Some digest => compare digest (S done) (S calls)
        end
    end
    end
    end
    end
  end.

(** Scan the packet for HMAC TLVs having KeyID and Length fields fitting
    the provided ESA.  Return [MSG_OK] if such TLVs exist and at least
    one has its Digest field matching a locally-computed HMAC digest of
    the padded version of the packet, [MSG_NG] otherwise. *)
Definition babel_auth_try_hmac_tlvs (pools : stat_pools) (packet padded : stream)
    (esa : babel_esa_item) (done calls : nat) : try_result :=
  if (done =? BABEL_MAXDIGESTSIN)%nat then
    {| tr_ret := Some MSG_NG; tr_pools := pools;
       tr_done := done; tr_calls := calls |}
  else
    match stream_set_getp packet 4 with
    | None => {| tr_ret := None; tr_pools := pools;
                 tr_done := done; tr_calls := calls |}
    | Some packet =>
        try_hmac_loop (S (STREAM_READABLE packet)) pools packet padded esa
                      done calls None
    end.

(** The loop of [babel_auth_check_packet] over the ESA list: try the
    packet's HMAC TLVs against each ESA until one returns [MSG_OK].
    [result] is the value of the variable before the loop. *)
Fixpoint check_esa_loop (esalist : list babel_esa_item) (pools : stat_pools)
    (packet padded : stream) (done calls : nat) (result : Z) : try_result :=
  match esalist with
  | [] => {| tr_ret := Some result; tr_pools := pools;
             tr_done := done; tr_calls := calls |}
  | esa :: rest =>
      let r := babel_auth_try_hmac_tlvs pools packet padded esa done calls in
      match tr_ret r with
      | None => r
      | Some res =>
          if res =? MSG_OK then r
          else check_esa_loop rest (tr_pools r) packet padded
                              (tr_done r) (tr_calls r) res
      end
  end.
End Inbound.

Section CheckPacket.
Context {env : AuthEnv}.

(** A run of the inbound checker: [ck_ret] is the returned value, or
    [None] when the run stopped on a failed bounds assertion; [ck_done]
    is the final value of [digests_done] and [ck_calls] the number of
    invocations of [hash_make_hmac]. *)
Record check_run := {
  ck_ret : option Z;
  ck_state : auth_state;
  ck_ifp : interface;
  ck_done : nat;
  ck_calls : nat
}.

Definition check_end (ret : option Z) (st : auth_state) (ifp : interface)
    (pools : stat_pools) (done calls : nat) : check_run :=
  {| ck_ret := ret;
     ck_state := fst (store_pools st ifp pools);
     ck_ifp := snd (store_pools st ifp pools);
     ck_done := done; ck_calls := calls |}.

(** Check the given packet to be authentic: to bear at least one TS/PC
    TLV, to have the first TS/PC TLV passed the ANM check, to bear at
    least one HMAC TLV and to have at least one HMAC TLV passed the HMAC
    check.  [input] is the received packet data ([packetlen] is its
    length), [from] the address of the sender and [now] the value of
    [quagga_time]. *)
Definition babel_auth_check_packet_run (st : auth_state) (ifp : interface)
    (from input : list byte) (now : Z) : check_run :=
  let babel_ifp := info ifp in
  let pools := pools_of st ifp in
  (* no CSAs => do nothing *)
  if (length (csalist babel_ifp) =? 0)%nat then
    check_end (Some MSG_OK) st ifp (bump incr_plain_recv pools) 0 0
  else
  (* original packet *)
  match stream_put (stream_new (length input)) input with
  | None => check_end None st ifp pools 0 0
  | Some packet =>
  (* verify TS/PC before proceeding to expensive checks *)
  let '(neigh_pc, neigh_ts) :=
    match babel_anm_lookup (anmlist st) from (if_id ifp) with
    | Some anm => (last_pc anm, last_ts anm)
    | None => (0, 0)
    end in
  match babel_auth_check_tspc pools packet neigh_pc neigh_ts with
  | None => check_end None st ifp pools 0 0
  | Some (tspc_getp, pools) =>
  if tspc_getp =? -1 then
    check_end (Some (if authrxreq babel_ifp then MSG_NG else MSG_OK))
              st ifp pools 0 0
  else
  (* Pin' := Pin; pad Pin' *)
  match babel_auth_pad_packet packet from with
  | None => check_end None st ifp pools 0 0
  | Some padded =>
  (* build ESA list *)
  let esalist := babel_esalist_derive (csalist babel_ifp) now keys_valid_for_accept in
  let pools :=
    if (length esalist =? 0)%nat then bump incr_auth_recv_ng_nokeys pools
    else pools in
  (* try Pin HMAC TLVs against ESA list and Pin' *)
  let r := check_esa_loop esalist pools packet padded 0 0 MSG_NG in
  match tr_ret r with
  | None => check_end None st ifp (tr_pools r) (tr_done r) (tr_calls r)
  | Some result =>
    if negb (result =? MSG_OK) then
      check_end (Some (if authrxreq babel_ifp then result else MSG_OK))
                st ifp (bump incr_auth_recv_ng_hmac (tr_pools r))
                (tr_done r) (tr_calls r)
    else
      match stream_getw_from packet (Z.to_nat tspc_getp),
            stream_getl_from packet (Z.to_nat tspc_getp + 2) with
      | Some pc, Some ts =>
          (* may create new *)
          let anms := babel_anm_get (anmlist st) from (if_id ifp) in
          let anms := anm_assign anms from (if_id ifp) pc ts now in
          check_end (Some (if authrxreq babel_ifp then result else MSG_OK))
                    (set_anmlist st anms) ifp
                    (bump incr_auth_recv_ok (tr_pools r))
                    (tr_done r) (tr_calls r)
      | _, _ => check_end None st ifp (tr_pools r) (tr_done r) (tr_calls r)
      end
  end
  end
  end
  end.

Definition babel_auth_check_packet (st : auth_state) (ifp : interface)
    (from input : list byte) (now : Z) : option (Z * auth_state * interface) :=
  let r := babel_auth_check_packet_run st ifp from input now in
  let* ret := ck_ret r in
  Some (ret, ck_state r, ck_ifp r).
End CheckPacket.

(** ** Outbound *)

(** Bump the TS/PC variables of the interface before authenticating the
    next packet.  Under the UNIX base a [now] that is not above the
    timestamp falls through to the ZERO case. *)
Definition babel_auth_bump_tspc (base : ts_base_t) (babel_ifp : babel_interface)
    (now : Z) : babel_interface :=
  let keep_counting :=
    let pc := u16 (auth_packetcounter babel_ifp + 1) in
    if pc =? 0
    then set_auth_tspc babel_ifp (u32 (auth_timestamp babel_ifp + 1)) pc
    else set_auth_tspc babel_ifp (auth_timestamp babel_ifp) pc in
  match base with
  | BABEL_TS_BASE_UNIX =>
      if now >? auth_timestamp babel_ifp
      then set_auth_tspc babel_ifp (u32 now) 0
      else keep_counting
  | BABEL_TS_BASE_ZERO => keep_counting
  end.

Section Outbound.
Context {env : AuthEnv}.

(** Return one of the link-local IPv6 addresses belonging to the given
    interface, or fail when there is none. *)
Definition babel_auth_got_source_address (ifp : interface) : option (list byte) :=
  option_map (fun c => firstn IPV6_MAX_BYTELEN (conn_prefix6 c))
    (find (fun c => conn_is_inet6 c && (conn_prefixlen c =? 64)
                    && linklocal (conn_prefix6 c))
          (if_connected ifp)).

(** HMAC: append up to MaxDigestsOut placeholder TLVs.  [digest_offset]
    is the array of the offsets of the digests. *)
Fixpoint make_placeholders (esalist : list babel_esa_item) (packet : stream)
    (sourceaddr : list byte) (hmacs_done : nat) (digest_offset : nat -> nat)
  : option (stream * (nat -> nat)) :=
  match esalist with
  | [] => Some (packet, digest_offset)
  | esa :: rest =>
      let dlen := hash_digest_length (hash_algo esa) in
      let* packet := stream_putc packet MESSAGE_HMAC in (* type *)
      let* packet := stream_putc packet (byte.of_Z (2 + Z.of_nat dlen)) in (* length *)
      let* packet := stream_putw packet (key_id esa) in (* KeyID *)
      let digest_offset :=
        fun i => if (i =? hmacs_done)%nat then stream_get_endp packet
                 else digest_offset i in
      let* packet := stream_put packet (firstn IPV6_MAX_BYTELEN sourceaddr) in
      let* packet :=
        stream_put_zero packet
          (size_t_of_int (Z.of_nat dlen - Z.of_nat IPV6_MAX_BYTELEN)) in
      if (S hmacs_done =? BABEL_MAXDIGESTSOUT)%nat then Some (packet, digest_offset)
      else make_placeholders rest packet sourceaddr (S hmacs_done) digest_offset
  end.

(** Fill in pending digests: the digest of the padded copy under each
    ESA is written over the ESA's placeholder.  [None] is a hash
    function error. *)
Fixpoint make_digests (esalist : list babel_esa_item) (packet padded : stream)
    (digest_offset : nat -> nat) (hmacs_done : nat) : option stream :=
  match esalist with
  | [] => Some packet
  | esa :: rest =>
      match hash_make_hmac (hash_algo esa) (stream_contents padded)
                           (firstn (key_len esa) (key_secret esa)) with
      | None => None
      | Some digest =>
          let packet :=
            {| s_data := mem_write (s_data packet) (digest_offset hmacs_done) digest;
               s_getp := s_getp packet; s_endp := s_endp packet |} in
          if (S hmacs_done =? BABEL_MAXDIGESTSOUT)%nat then Some packet
          else make_digests rest packet padded digest_offset (S hmacs_done)
      end
  end.

(** Result of the outbound builder: the returned body length, the
    process and interface state and the caller's body buffer. *)
Record make_result := {
  mk_ret : Z;
  mk_state : auth_state;
  mk_ifp : interface;
  mk_body : list byte
}.

Definition make_end (ret : Z) (st : auth_state) (ifp : interface)
    (pools : stat_pools) (body : list byte) : make_result :=
  {| mk_ret := ret;
     mk_state := fst (store_pools st ifp pools);
     mk_ifp := snd (store_pools st ifp pools);
     mk_body := body |}.

(** Compute and append authentication TLVs to the given packet body and
    return the new body length.  [body] is the caller's buffer, the
    first [body_len] bytes of which are the body; [now] is the value of
    [quagga_time]. *)
Definition babel_auth_make_packet (st : auth_state) (ifp : interface)
    (body : list byte) (body_len : nat) (now : Z) : option make_result :=
  let babel_ifp := info ifp in
  let pools := pools_of st ifp in
  (* no CSAs or no IPv6 addresses => do nothing *)
  if (length (csalist babel_ifp) =? 0)%nat then
    Some (make_end (Z.of_nat body_len) st ifp (bump incr_plain_sent pools) body)
  else
  match babel_auth_got_source_address ifp with
  | None =>
      Some (make_end (Z.of_nat body_len) st ifp (bump incr_internal_err pools) body)
  | Some sourceaddr =>
  (* build ESA list *)
  let esalist := babel_esalist_derive (csalist babel_ifp) now keys_valid_for_send in
  let pools :=
    if (length esalist =? 0)%nat then bump incr_auth_sent_ng_nokeys pools
    else pools in
  (* packet header, original body, authentication TLVs *)
  let packet := stream_new (4 + body_len + BABEL_MAXAUTHSPACE) in
  let* packet := stream_putc packet RTPROT_BABEL in
  let* packet := stream_putc packet Byte.x02 in
  let* packet := stream_putw packet 0 in (* body length placeholder *)
  let* packet := stream_put packet (firstn body_len body) in
  (* append TS/PC TLV *)
  let babel_ifp := babel_auth_bump_tspc (ts_base st) babel_ifp now in
  let ifp := set_info ifp babel_ifp in
  let* packet := stream_putc packet MESSAGE_TSPC in
  let* packet := stream_putc packet Byte.x06 in
  let* packet := stream_putw packet (auth_packetcounter babel_ifp) in
  let* packet := stream_putl packet (auth_timestamp babel_ifp) in
  (* HMAC: append up to MaxDigestsOut placeholder TLVs *)
  let* (packet, digest_offset) :=
    make_placeholders esalist packet sourceaddr 0 (fun _ => 0%nat) in
  (* time to fill in new body length *)
  let new_body_len := (stream_get_endp packet - 4)%nat in
  let* packet := stream_putw_at packet 2 (Z.of_nat new_body_len) in
  (* Pin' := Pin *)
  let padded := stream_dup packet in
  (* fill in pending digests *)
  match make_digests esalist packet padded digest_offset 0 with
  | None =>
      Some (make_end (Z.of_nat body_len) st ifp (bump incr_internal_err pools) body)
  | Some packet =>
      (* append new TLVs to the original body *)
      let appended :=
        firstn (new_body_len - body_len)
               (skipn (4 + body_len) (stream_get_data packet)) in
      Some (make_end (Z.of_nat new_body_len) st ifp (bump incr_auth_sent pools)
                     (mem_write body body_len appended))
  end
  end.
End Outbound.

(** ** TLV view of packets

    The body of a packet as the sequence of TLVs it encodes: PAD1 is the
    single byte 0, every other TLV is type, length and value. *)
Inductive tlv := Pad1 | Tlv (type : byte) (value : list byte).

Definition encode_tlv (t : tlv) : list byte :=
  match t with
  | Pad1 => [MESSAGE_PAD1]
  | Tlv ty v => ty :: byte.of_Z (Z.of_nat (length v)) :: v
  end.

Definition encode_tlvs (l : list tlv) : list byte := flat_map encode_tlv l.

(** A TLV that is the image of its encoding: the type of a valued TLV is
    not PAD1 and the value fits the one-byte length. *)
Definition tlv_wf (t : tlv) : bool :=
  match t with
  | Pad1 => true
  | Tlv ty v => negb (Byte.eqb ty MESSAGE_PAD1) && (length v <? 256)%nat
  end.

Definition tlv_has_type (ty : byte) (t : tlv) : bool :=
  match t with
  | Pad1 => false
  | Tlv ty' _ => Byte.eqb ty' ty
  end.

(** Lexicographic order on (timestamp, packet counter) pairs. *)
Definition tspc_lt (ts1 pc1 ts2 pc2 : Z) : Prop :=
  ts1 < ts2 \/ (ts1 = ts2 /\ pc1 < pc2).

Definition tspc_ltb (ts1 pc1 ts2 pc2 : Z) : bool :=
  (ts1 <? ts2) || ((ts1 =? ts2) && (pc1 <? pc2)).

(** ** Order of the ESA list *)

(** The order [babel_esa_item_cmp] decides: lexicographic on the major
    and the minor sort order. *)
Definition esa_lt (a b : babel_esa_item) : Prop :=
  (sort_order_major a < sort_order_major b)%nat \/
  (sort_order_major a = sort_order_major b /\
   (sort_order_minor a < sort_order_minor b)%nat).

Definition esa_le (a b : babel_esa_item) : Prop := ~ esa_lt b a.

Abbreviation esa_add_sort := (listnode_add_sort babel_esa_item_cmp).

(** The ESAs of the CSA numbered [c], in list order. *)
Definition esas_of_csa (c : nat) (l : list babel_esa_item) : list babel_esa_item :=
  filter (fun e => Nat.eqb (sort_order_minor e) c) l.

(** The majors of the ESAs of every CSA count up from 0 without a gap. *)
Definition majors_consecutive (l : list babel_esa_item) : Prop :=
  forall c, map sort_order_major (esas_of_csa c l)
            = seq 0 (length (esas_of_csa c l)).

(** ** A concrete configuration

    A small instance of the external collaborators, used to run the
    definitions on concrete packets: three hash algorithms (the third one
    always failing), three keychains and a checksum in the place of the
    digest primitive. *)
Module Example.
Import String.StringSyntax.
Local Open Scope string_scope.
Definition alpha : String.string := "alpha".
Definition beta : String.string := "beta".
Definition empty : String.string := "empty".
Local Close Scope string_scope.
Definition digest_length (algo : Z) : nat :=
  if algo =? 0 then 16%nat else if algo =? 1 then 20%nat else 32%nat.

Definition checksum (msg key : list byte) : Z :=
  fold_left (fun acc b => (acc * 31 + byte.unsigned b) mod 65521)
            (key ++ msg)%list 7.

Definition hmac (algo : Z) (msg key : list byte) : option (list byte) :=
  if algo =? 2 then None
  else Some (map (fun i => byte.of_Z (checksum msg key + 17 * Z.of_nat i))
                 (seq 0 (digest_length algo))).

Definition secret1 : list byte := [Byte.x73; Byte.x31].
Definition secret2 : list byte := [Byte.x73; Byte.x32].
Definition key1 : key := {| key_index := 1; key_string := secret1 |}.
Definition key2 : key := {| key_index := 2; key_string := secret2 |}.

Definition keychains (name : String.string) : option keychain :=
  if String.eqb name alpha then Some {| kc_name := name; kc_key := [key1] |}
  else if String.eqb name beta
       then Some {| kc_name := name; kc_key := [key1; key2] |}
  else if String.eqb name empty then Some {| kc_name := name; kc_key := [] |}
  else None.

Definition is_linklocal (a : list byte) : bool :=
  match a with
  | b0 :: b1 :: _ => Byte.eqb b0 Byte.xfe && Byte.eqb b1 Byte.x80
  | _ => false
  end.

#[export] Instance env : AuthEnv := {|
  RTPROT_BABEL := Byte.x2a;
  MESSAGE_HMAC := Byte.x0c;
  BABEL_MAXDIGESTSIN := 4;
  BABEL_MAXDIGESTSOUT := 8;
  BABEL_MAXAUTHSPACE := 552;
  hash_digest_length := digest_length;
  hash_make_hmac := hmac;
  keychain_lookup := keychains;
  keys_valid_for_send := fun kc _ => kc_key kc;
  keys_valid_for_accept := fun kc _ => kc_key kc;
  linklocal := is_linklocal
|}.

Definition csa_alpha : babel_csa_item :=
  {| keychain_name := alpha; csa_hash_algo := 0 |}.
Definition csa_beta : babel_csa_item :=
  {| keychain_name := beta; csa_hash_algo := 0 |}.
Definition csa_empty : babel_csa_item :=
  {| keychain_name := empty; csa_hash_algo := 0 |}.
Definition csa_failing : babel_csa_item :=
  {| keychain_name := alpha; csa_hash_algo := 2 |}.
Definition no_stats : babel_auth_stats :=
  {| plain_recv := 0; plain_sent := 0; auth_sent := 0;
     auth_sent_ng_nokeys := 0; auth_recv_ok := 0; auth_recv_ng_nokeys := 0;
     auth_recv_ng_no_tspc := 0; auth_recv_ng_tspc := 0;
     auth_recv_ng_hmac := 0; internal_err := 0 |}.

Definition babel_if (csas : list babel_csa_item) (rxreq : bool) (ts pc : Z)
  : babel_interface :=
  {| csalist := csas; authrxreq := rxreq; auth_stats := no_stats;
     auth_timestamp := ts; auth_packetcounter := pc |}.

(** fe80::1 *)
Definition addr1 : list byte :=
  [Byte.xfe; Byte.x80] ++ zero_bytes 13 ++ [Byte.x01].

Definition iface (id : nat) (b : babel_interface) : interface :=
  {| if_id := id;
     if_connected := [{| conn_is_inet6 := true; conn_prefixlen := 64;
                         conn_prefix6 := addr1 |}];
     info := b |}.

Definition state (base : ts_base_t) (anms : list babel_anm_item) : auth_state :=
  {| ts_base := base; anm_timeout := 300; anmlist := anms; stats := no_stats |}.
(** A packet header and a Hello TLV. *)
Definition header : list byte := [Byte.x2a; Byte.x02; Byte.x00; Byte.x00].
Definition hello : tlv :=
  Tlv Byte.x04 [Byte.x00; Byte.x00; Byte.x00; Byte.x01; Byte.x01; Byte.x90].

(** The record of the neighbor [addr1] on interface [id]. *)
Definition neighbor (id : nat) (ts pc : Z) : babel_anm_item :=
  {| address := addr1; anm_ifp := id; last_recv := 0;
     last_pc := pc; last_ts := ts |}.
(** A TS/PC TLV and an HMAC TLV. *)
Definition tspc_tlv (pc ts : Z) : tlv :=
  Tlv MESSAGE_TSPC (bytes_of_u16 pc ++ bytes_of_u32 ts).
Definition hmac_tlv (kid : Z) (digest : list byte) : tlv :=
  Tlv Byte.x0c (bytes_of_u16 kid ++ digest).
(** A caller's buffer holding a Hello TLV, with room for the
    authentication TLVs. *)
Definition buffer : list byte := encode_tlv hello ++ zero_bytes 552.
(** The ESA derived from [csa_alpha]. *)
Definition esa_alpha : babel_esa_item :=
  {| sort_order_major := 0; sort_order_minor := 0; hash_algo := 0;
     key_id := 1; key_len := 2; key_secret := secret1 |}.
(** An authentic packet of [addr1] under [esa_alpha]: the header for a
    body of 36 bytes, the Hello TLV, the TS/PC TLV of (0, 1) and the HMAC
    TLV with the digest of the padded packet. *)
Definition signed_header : list byte := [Byte.x2a; Byte.x02; Byte.x00; Byte.x24].
Definition signed_padded : list byte :=
  signed_header ++ encode_tlvs [hello; tspc_tlv 1 0; hmac_tlv 1 addr1].
Definition signed_digest : list byte :=
  match hmac 0 signed_padded secret1 with
  | Some d => d
  | None => []
  end.
(** A CSA whose keychain does not exist. *)
Definition csa_missing : babel_csa_item :=
  {| keychain_name := String.append empty alpha; csa_hash_algo := 0 |}.
(** The same packet with one more HMAC TLV, of an unknown key, in front
    of the HMAC TLV of [esa_alpha]. *)
Definition signed_padded_two : list byte :=
  signed_header
  ++ encode_tlvs [hello; tspc_tlv 1 0; hmac_tlv 9 addr1; hmac_tlv 1 addr1].
Definition signed_digest_two : list byte :=
  match hmac 0 signed_padded_two secret1 with
  | Some d => d
  | None => []
  end.
End Example.

(** ** Runs of the send counters *)

(** The interface states after each of a sequence of counter bumps, one
    per value of [now]. *)
Fixpoint bump_run (base : ts_base_t) (b : babel_interface) (nows : list Z)
  : list babel_interface :=
  match nows with
  | [] => []
  | now :: rest =>
      let b' := babel_auth_bump_tspc base b now in
      b' :: bump_run base b' rest
  end.

(** The pair of counters is at its last value: the next increment wraps
    both the 16-bit packet counter and the 32-bit timestamp. *)
Definition tspc_exhausted (b : babel_interface) : bool :=
  (auth_timestamp b =? 4294967295) && (auth_packetcounter b =? 65535).

(** No bump of the run starts from the last value of the pair and every
    [now] fits the 32-bit timestamp. *)
Fixpoint run_has_room (base : ts_base_t) (b : babel_interface) (nows : list Z)
  : bool :=
  match nows with
  | [] => true
  | now :: rest =>
      negb (tspc_exhausted b) && (now <? 4294967296)
      && run_has_room base (babel_auth_bump_tspc base b now) rest
  end.

Definition tspc_in_range (b : babel_interface) : Prop :=
  0 <= auth_timestamp b < 4294967296 /\ 0 <= auth_packetcounter b < 65536.

(** The send counters of [b2] are above those of [b1]. *)
Definition send_tspc_lt (b1 b2 : babel_interface) : Prop :=
  tspc_lt (auth_timestamp b1) (auth_packetcounter b1)
          (auth_timestamp b2) (auth_packetcounter b2).

(** ** Received packets *)

(** The stream holding the bytes [bs] of a packet, parse cursor at [g]. *)
Definition packet_at (bs : list byte) (g : nat) : stream :=
  {| s_data := bs; s_getp := g; s_endp := length bs |}.

(** The bytes [rest] are what is left to read of [bs] from offset [g]. *)
Definition reads_at (bs : list byte) (g : nat) (rest : list byte) : Prop :=
  (g <= length bs)%nat /\ skipn g bs = rest.

(** A well-formed TLV that is not a TS/PC TLV. *)
Definition tlv_not_tspc (t : tlv) : bool :=
  tlv_wf t && negb (tlv_has_type MESSAGE_TSPC t).

(** The bytes of a packet the first TS/PC TLV of which carries the packet
    counter bytes [pcb] and the timestamp bytes [tsb]: a 4-byte header,
    TLVs that are not TS/PC TLVs, the type and length bytes of the TS/PC
    TLV, its first six value bytes, and whatever follows. *)
Definition tspc_packet (hdr : list byte) (before : list tlv) (len : byte)
    (pcb tsb tail : list byte) : list byte :=
  hdr ++ encode_tlvs before ++ MESSAGE_TSPC :: len :: pcb ++ tsb ++ tail.

(** The test of [babel_auth_check_tspc] on a TLV's pair against the
    stored pair. *)
Definition tspc_accepts (tlv_ts tlv_pc stor_ts stor_pc : Z) : bool :=
  (tlv_ts >? stor_ts) || ((tlv_ts =? stor_ts) && (tlv_pc >? stor_pc)).

(** The pair stored for the sender in the authentic neighbors memory, or
    (0, 0) when there is no record: (last_ts, last_pc). *)
Definition anm_stored (st : auth_state) (from : list byte) (ifp : interface)
  : Z * Z :=
  match babel_anm_lookup (anmlist st) from (if_id ifp) with
  | Some anm => (last_ts anm, last_pc anm)
  | None => (0, 0)
  end.

(** The fields of an ANM record are within their C types. *)
Definition anm_item_in_range (anm : babel_anm_item) : bool :=
  (0 <=? last_ts anm) && (last_ts anm <? 4294967296)
  && (0 <=? last_pc anm) && (last_pc anm <? 65536).

(** What one scan, or a run of scans, adds to the counter of digests
    computed and to the number of invocations of the digest primitive:
    at most [n] of each, no digest without an invocation, and as many
    digests as invocations when the primitive does not fail. *)
Definition digest_work_within {env : AuthEnv} (n done calls : nat)
    (r : try_result) : Prop :=
  (done <= tr_done r <= done + n)%nat
  /\ (calls <= tr_calls r <= calls + n)%nat
  /\ (tr_done r - done <= tr_calls r - calls)%nat
  /\ ((forall algo msg k, hash_make_hmac algo msg k <> None) ->
      (tr_calls r - calls = tr_done r - done)%nat).

(** ** Padding, TLV by TLV *)

Section PadTlv.
Context {env : AuthEnv}.

(** The padded image of a TLV: the digest of an HMAC TLV, that is its
    value after the two bytes of the key identifier, is replaced by the
    16 bytes of the address followed by zero bytes; any other TLV is
    left as it is. *)
Definition pad_tlv (addr6 : list byte) (t : tlv) : tlv :=
  match t with
  | Pad1 => Pad1
  | Tlv ty v =>
      if Byte.eqb ty MESSAGE_HMAC
      then Tlv ty (firstn 2 v ++ firstn IPV6_MAX_BYTELEN addr6
                   ++ zero_bytes (length v - 2 - IPV6_MAX_BYTELEN))
      else t
  end.

(** A well-formed TLV; the value of an HMAC TLV holds a key identifier
    and a digest of at least 16 bytes. *)
Definition tlv_paddable (t : tlv) : bool :=
  tlv_wf t &&
  match t with
  | Pad1 => true
  | Tlv ty v =>
      if Byte.eqb ty MESSAGE_HMAC then (2 + IPV6_MAX_BYTELEN <=? length v)%nat
      else true
  end.
End PadTlv.

(** The padded copy under construction: [data] is the buffer, the bytes
    before [e] have been passed. *)
Definition padded_at (data : list byte) (e : nat) : stream :=
  {| s_data := data; s_getp := 0; s_endp := e |}.

(** ** Packets under construction *)

(** The scratch stream of the outbound builder: [content] has been put,
    [free] bytes of the buffer are left. *)
Definition building (content : list byte) (free : nat) : stream :=
  {| s_data := content ++ zero_bytes free; s_getp := 0;
     s_endp := length content |}.

Section OutboundTlvs.
Context {env : AuthEnv}.

(** The ESAs the outbound loops get to: the first BABEL_MAXDIGESTSOUT ones
    when [hmacs_done] starts from 0. *)
Definition esas_sent (hmacs_done : nat) (esalist : list babel_esa_item)
  : list babel_esa_item :=
  firstn (BABEL_MAXDIGESTSOUT - hmacs_done) esalist.

(** The HMAC TLV of an ESA with the given digest field. *)
Definition hmac_tlv_of (esa : babel_esa_item) (digest : list byte) : tlv :=
  Tlv MESSAGE_HMAC (bytes_of_u16 (key_id esa) ++ digest).

(** The placeholder of a digest: the address and zero bytes. *)
Definition digest_placeholder (addr6 : list byte) (esa : babel_esa_item)
  : list byte :=
  firstn IPV6_MAX_BYTELEN addr6
  ++ zero_bytes (hash_digest_length (hash_algo esa) - IPV6_MAX_BYTELEN).

(** The digest of the message under the key of an ESA (no bytes when the
    primitive fails). *)
Definition esa_digest (msg : list byte) (esa : babel_esa_item) : list byte :=
  match hash_make_hmac (hash_algo esa) msg
                       (firstn (key_len esa) (key_secret esa)) with
  | Some d => d
  | None => []
  end.

(** The digest of an ESA fits an HMAC TLV: at least the 16 bytes of the
    address, at most 253 bytes. *)
Definition esa_digest_fits (esa : babel_esa_item) : bool :=
  (IPV6_MAX_BYTELEN <=? hash_digest_length (hash_algo esa))%nat
  && (hash_digest_length (hash_algo esa) <=? 253)%nat.

(** The space the HMAC TLVs of a list of ESAs take. *)
Definition hmac_tlvs_space (esas : list babel_esa_item) : nat :=
  list_sum (map (fun esa => 4 + hash_digest_length (hash_algo esa))%nat esas).
End OutboundTlvs.

(** The array of digest offsets matches the HMAC TLVs of [esas] laid out
    from offset [base], the first of them at index [hd]. *)
Fixpoint digest_offsets_at {env : AuthEnv} (off : nat -> nat) (hd base : nat)
    (esas : list babel_esa_item) : Prop :=
  match esas with
  | [] => True
  | esa :: rest =>
      off hd = (base + 4)%nat
      /\ digest_offsets_at off (S hd)
           (base + 4 + hash_digest_length (hash_algo esa)) rest
  end.

(** The digest primitive yields a digest of the algorithm's length for
    the message under the key of the ESA. *)
Definition esa_digest_ok {env : AuthEnv} (msg : list byte) (esa : babel_esa_item)
  : Prop :=
  exists d,
    hash_make_hmac (hash_algo esa) msg (firstn (key_len esa) (key_secret esa))
    = Some d
    /\ length d = hash_digest_length (hash_algo esa).

(** ** The packet of the outbound builder *)

Section Wire.
Context {env : AuthEnv}.

(** The 4-byte header the builder puts in front of the body: magic,
    version 2 and the body length in network order. *)
Definition packet_header (body_len : Z) : list byte :=
  [RTPROT_BABEL; Byte.x02] ++ bytes_of_u16 body_len.

(** The TS/PC TLV of the send counters of an interface. *)
Definition tspc_tlv_of (b : babel_interface) : tlv :=
  Tlv MESSAGE_TSPC (bytes_of_u16 (auth_packetcounter b)
                    ++ bytes_of_u32 (auth_timestamp b)).

(** The image the sender hashes: header, body, TS/PC TLV and the HMAC
    TLVs of [esas] with the placeholders in the place of the digests. *)
Definition padded_image (body : list byte) (b : babel_interface)
    (addr6 : list byte) (esas : list babel_esa_item) : list byte :=
  packet_header (Z.of_nat (length body + 8 + hmac_tlvs_space esas))
  ++ body ++ encode_tlv (tspc_tlv_of b)
  ++ encode_tlvs (map (fun esa => hmac_tlv_of esa (digest_placeholder addr6 esa))
                      esas).

(** The TLVs the builder appends to the body: the TS/PC TLV and the HMAC
    TLVs of [esas] with their digests of [msg]. *)
Definition auth_tlvs (b : babel_interface) (msg : list byte)
    (esas : list babel_esa_item) : list tlv :=
  tspc_tlv_of b :: map (fun esa => hmac_tlv_of esa (esa_digest msg esa)) esas.

(** The packet on the wire: the header for the returned body length and
    the body the builder has left in the caller's buffer. *)
Definition wire_packet (r : make_result) : list byte :=
  packet_header (mk_ret r) ++ firstn (Z.to_nat (mk_ret r)) (mk_body r).
End Wire.

(** The counter [f] stands in the pools of [r] as it does in [pools]. *)
Definition pools_kept (f : babel_auth_stats -> Z) (pools : stat_pools)
    (r : try_result) : Prop :=
  f (global_stats (tr_pools r)) = f (global_stats pools)
  /\ f (if_stats (tr_pools r)) = f (if_stats pools).

(** The run [r] of the checker from the state [st] on an interface with
    CSAs was successful: it returned OK in required mode, or it counted
    the packet under auth_recv_ok. *)
Definition check_succeeded {env : AuthEnv} (st : auth_state) (ifp : interface)
    (r : check_run) : Prop :=
  (authrxreq (info ifp) = true /\ ck_ret r = Some MSG_OK)
  \/ auth_recv_ok (stats (ck_state r)) = ulong_incr (auth_recv_ok (stats st)).

(** ** Sender and receiver *)

(** A TLV of a body handed over for authentication: well formed, and
    neither a TS/PC nor an HMAC TLV. *)
Definition tlv_plain {env : AuthEnv} (t : tlv) : bool :=
  tlv_wf t && negb (tlv_has_type MESSAGE_TSPC t)
  && negb (tlv_has_type MESSAGE_HMAC t).

(** Two ESAs stand for the same key: the same algorithm, the same key
    identifier and the same key bytes. *)
Definition esa_same_key (a b : babel_esa_item) : Prop :=
  hash_algo a = hash_algo b /\ key_id a = key_id b
  /\ firstn (key_len a) (key_secret a) = firstn (key_len b) (key_secret b).

(** ** Contents of the ESA list *)

(** The attributes [babel_esa_item_exists] compares. *)
Definition esa_attributes (e : babel_esa_item) : Z * Z * list byte :=
  (hash_algo e, key_id e, key_secret e).

(** The ESA [e] holds the key [k] under the algorithm [algo], as
    [babel_esa_item_alloc] copies them. *)
Definition esa_of_key (algo : Z) (k : key) (e : babel_esa_item) : Prop :=
  hash_algo e = u16 algo /\ key_id e = key_index k mod (UINT16_MAX + 1)
  /\ key_len e = length (key_string k) /\ key_secret e = key_string k.

(** The fields of an ESA are as [babel_esa_item_alloc] leaves them: the
    algorithm fits 16 bits and the secret has [key_len] bytes. *)
Definition esa_regular (e : babel_esa_item) : Prop :=
  0 <= hash_algo e < 65536 /\ key_len e = length (key_secret e).

(** The list [l1] is [l2] with some elements left out, the order
    kept. *)
Inductive subseq {A : Type} : list A -> list A -> Prop :=
| subseq_nil : subseq [] []
| subseq_skip (x : A) (l1 l2 : list A) : subseq l1 l2 -> subseq l1 (x :: l2)
| subseq_keep (x : A) (l1 l2 : list A) :
    subseq l1 l2 -> subseq (x :: l1) (x :: l2).

(** The CSAs of the list whose keychain exists, in the order of the
    list: the CSAs [csa_counter] counts. *)
Definition csas_with_keychain {env : AuthEnv} (csas : list babel_csa_item)
  : list babel_csa_item :=
  filter (fun csa => match keychain_lookup (keychain_name csa) with
                     | Some _ => true
                     | None => false
                     end) csas.

(** ** Outcomes of the inbound checker *)

(** The pools [pools'] are the pools [pools] up to the counters
    internal_err and auth_recv_ng_nokeys: every reading of the counters
    that does not see those two gives the same value. *)
Definition pools_upto_errors (pools pools' : stat_pools) : Prop :=
  forall f : babel_auth_stats -> Z,
    (forall s, f (incr_internal_err s) = f s) ->
    (forall s, f (incr_auth_recv_ng_nokeys s) = f s) ->
    f (global_stats pools') = f (global_stats pools)
    /\ f (if_stats pools') = f (if_stats pools).

(** The five counters a received packet ends in: plain, authentic,
    without TS/PC TLV, with a bad TS/PC pair, with no good HMAC. *)
Definition recv_outcomes (s : babel_auth_stats) : list Z :=
  [plain_recv s; auth_recv_ok s; auth_recv_ng_no_tspc s; auth_recv_ng_tspc s;
   auth_recv_ng_hmac s].

(** The list [l] with [x++] on its [n]th counter. *)
Definition incr_nth (n : nat) (l : list Z) : list Z :=
  firstn n l ++ ulong_incr (nth n l 0) :: skipn (S n) l.

(** ** The memory as a map *)

(** What [babel_anm_lookup] compares of a record: the 16 bytes of the
    address and the interface. *)
Definition anm_key (anm : babel_anm_item) : list byte * nat :=
  (firstn IPV6_MAX_BYTELEN (address anm), anm_ifp anm).

(** No two records of the memory are for the same (address, interface). *)
Definition anm_unique (l : list babel_anm_item) : Prop :=
  NoDup (map anm_key l).

(** ** Housekeeping of the memory *)

(** The loop of [babel_auth_do_housekeeping] over the memory: a record
    is deleted when [last_recv + anm_timeout < now].  The times are
    [time_t] values, taken as wide enough for the sum not to wrap. *)
Fixpoint housekeeping_loop (timeout now : Z) (l : list babel_anm_item)
  : list babel_anm_item :=
  match l with
  | [] => []
  | anm :: rest =>
      if last_recv anm + timeout <? now
      then housekeeping_loop timeout now rest
      else anm :: housekeeping_loop timeout now rest
  end.

(** This periodic timer flushes expired records from the authentic
    neighbors memory; [now] is the value of [quagga_time]. *)
Definition babel_auth_do_housekeeping (st : auth_state) (now : Z) : auth_state :=
  set_anmlist st (housekeeping_loop (anm_timeout st) now (anmlist st)).

(** [clear babel authentication memory]: [list_delete_all_node]. *)
Definition clear_babel_authentication_memory (st : auth_state) : auth_state :=
  set_anmlist st [].

(** ** HMAC TLVs against ESAs *)

Section Fits.
Context {env : AuthEnv}.

(** The TLV is an HMAC TLV with the length and the key identifier of the
    ESA: the TLVs at which the scan of [babel_auth_try_hmac_tlvs] does
    not move on. *)
Definition tlv_fits (esa : babel_esa_item) (t : tlv) : bool :=
  match t with
  | Pad1 => false
  | Tlv ty v =>
      Byte.eqb ty MESSAGE_HMAC
      && (length v =? hash_digest_length (hash_algo esa) + 2)%nat
      && (be_value (firstn 2 v) =? key_id esa)
  end.

(** The TLV fits the ESA and its digest field holds the digest the
    primitive computes for [msg] under the key of the ESA. *)
Definition tlv_authentic (esa : babel_esa_item) (msg : list byte) (t : tlv)
  : Prop :=
  exists v d,
    t = Tlv MESSAGE_HMAC v /\ tlv_fits esa t = true
    /\ hash_make_hmac (hash_algo esa) msg
                      (firstn (key_len esa) (key_secret esa)) = Some d
    /\ skipn 2 v = firstn (hash_digest_length (hash_algo esa)) d.
End Fits.

(** ** Packets up to their digests *)

(** Two TLVs that differ at most in the digest field of an HMAC TLV:
    the same TLV, or two HMAC TLVs of one length with one key
    identifier. *)
Definition tlv_same_but_digest {env : AuthEnv} (t1 t2 : tlv) : Prop :=
  match t1, t2 with
  | Pad1, Pad1 => True
  | Tlv ty1 v1, Tlv ty2 v2 =>
      ty1 = ty2
      /\ if Byte.eqb ty1 MESSAGE_HMAC
         then firstn 2 v1 = firstn 2 v2 /\ length v1 = length v2
         else v1 = v2
  | _, _ => False
  end.

(** The append cursor of a stream is within its buffer. *)
Definition stream_ok (s : stream) : Prop := (s_endp s <= length (s_data s))%nat.

(** ** Parameters and commands *)

Definition ts_base_eqb (a b : ts_base_t) : bool :=
  match a, b with
  | BABEL_TS_BASE_ZERO, BABEL_TS_BASE_ZERO
  | BABEL_TS_BASE_UNIX, BABEL_TS_BASE_UNIX => true
  | _, _ => false
  end.

Definition BABEL_DEFAULT_TS_BASE : ts_base_t := BABEL_TS_BASE_UNIX.
Definition BABEL_DEFAULT_ANM_TIMEOUT : Z := 300.

(** [memset (&stats, 0, sizeof (stats))] *)
Definition zero_stats : babel_auth_stats :=
  {| plain_recv := 0; plain_sent := 0; auth_sent := 0;
     auth_sent_ng_nokeys := 0; auth_recv_ok := 0; auth_recv_ng_nokeys := 0;
     auth_recv_ng_no_tspc := 0; auth_recv_ng_tspc := 0;
     auth_recv_ng_hmac := 0; internal_err := 0 |}.

Definition set_ts_base (st : auth_state) (b : ts_base_t) : auth_state :=
  {| ts_base := b; anm_timeout := anm_timeout st;
     anmlist := anmlist st; stats := stats st |}.

Definition set_anm_timeout (st : auth_state) (t : Z) : auth_state :=
  {| ts_base := ts_base st; anm_timeout := t;
     anmlist := anmlist st; stats := stats st |}.

(** The process variables as [babel_auth_init] leaves them. *)
Definition babel_auth_init : auth_state :=
  {| ts_base := BABEL_DEFAULT_TS_BASE; anm_timeout := BABEL_DEFAULT_ANM_TIMEOUT;
     anmlist := []; stats := zero_stats |}.

(** [no anm-timeout] and [no ts-base]. *)
Definition no_anm_timeout_val (st : auth_state) : auth_state :=
  set_anm_timeout st BABEL_DEFAULT_ANM_TIMEOUT.

Definition no_ts_base (st : auth_state) : auth_state :=
  set_ts_base st BABEL_DEFAULT_TS_BASE.

(** A call of [vty_out]: the text of the format before its conversion
    and the argument converted, a number for [%u] or a string for [%s]. *)
Inductive vty_line :=
| vty_out_u (text : String.string) (arg : Z)
| vty_out_s (text : String.string) (arg : String.string).

Section Commands.
Import String.StringSyntax.
Local Open Scope string_scope.

(** The table [ts_base_cli_str], read through LOOKUP. *)
Definition ts_base_cli_str (b : ts_base_t) : String.string :=
  match b with
  | BABEL_TS_BASE_ZERO => "zero"
  | BABEL_TS_BASE_UNIX => "unixtime"
  end.

(** [ts-base (zero|unixtime)]; [arg] is [argv[0]]. *)
Definition ts_base_val (st : auth_state) (arg : String.string) : auth_state :=
  if String.eqb arg "zero" then set_ts_base st BABEL_TS_BASE_ZERO
  else if String.eqb arg "unixtime" then set_ts_base st BABEL_TS_BASE_UNIX
  else st.

(** Write the parameters that are not at their defaults; the result is
    what was written and the number of lines. *)
Definition babel_auth_config_write (st : auth_state) : list vty_line * Z :=
  let '(out, lines) := (@nil vty_line, 0) in
  let '(out, lines) :=
    if negb (anm_timeout st =? BABEL_DEFAULT_ANM_TIMEOUT)
    then (List.app out [vty_out_u " anm-timeout " (anm_timeout st)], lines + 1)
    else (out, lines) in
  let '(out, lines) :=
    if negb (ts_base_eqb (ts_base st) BABEL_DEFAULT_TS_BASE)
    then (List.app out [vty_out_s " ts-base " (ts_base_cli_str (ts_base st))],
          lines + 1)
    else (out, lines) in
  (out, lines).
End Commands.

(** ** A sender and a receiver *)

Section Link.
Context {env : AuthEnv}.

(** The builder can authenticate the body at [now]: the interface has
    the 16-byte link-local address [addr6], the body is a sequence of
    plain TLVs, the send counters are within their types, and the
    digests of the ESAs sent fit the TLVs and the authentication space
    and are computed by the primitive. *)
Definition can_send (st : auth_state) (ifp : interface) (buffer : list byte)
    (body_len : nat) (now : Z) (addr6 : list byte) : Prop :=
  let b' := babel_auth_bump_tspc (ts_base st) (info ifp) now in
  let sent :=
    esas_sent 0 (babel_esalist_derive (csalist (info ifp)) now
                                      keys_valid_for_send) in
  babel_auth_got_source_address ifp = Some addr6
  /\ length addr6 = IPV6_MAX_BYTELEN
  /\ (body_len <= length buffer)%nat
  /\ (exists body_tlvs,
        firstn body_len buffer = encode_tlvs body_tlvs
        /\ forallb tlv_plain body_tlvs = true)
  /\ tspc_in_range (info ifp)
  /\ forallb esa_digest_fits sent = true
  /\ (8 + hmac_tlvs_space sent <= BABEL_MAXAUTHSPACE)%nat
  /\ Forall (esa_digest_ok (padded_image (firstn body_len buffer) b' addr6 sent))
            sent.

(** One of the ESAs a sender with the CSAs [csas_s] sends at [now_s]
    stands for the key of one of the first BABEL_MAXDIGESTSIN ESAs a
    receiver with the CSAs [csas_r] tries at [now_r]. *)
Definition keys_shared (csas_s : list babel_csa_item) (now_s : Z)
    (csas_r : list babel_csa_item) (now_r : Z) : Prop :=
  exists l1 l2 esa_r esa_s,
    babel_esalist_derive csas_r now_r keys_valid_for_accept = l1 ++ esa_r :: l2
    /\ (length l1 < BABEL_MAXDIGESTSIN)%nat
    /\ In esa_s (esas_sent 0 (babel_esalist_derive csas_s now_s
                                                   keys_valid_for_send))
    /\ esa_same_key esa_s esa_r.

(** The bytes [packet] are a header and well-formed TLVs with a first
    TS/PC TLV carrying ([ts], [pc]), the padded image of which is [msg],
    and with the HMAC TLV of every ESA of [sent] holding the digest of
    [msg]. *)
Definition authentic_wire (packet addr6 : list byte) (ts pc : Z)
    (msg : list byte) (sent : list babel_esa_item) : Prop :=
  exists hdr before after,
    let tlvs :=
      before ++ Tlv MESSAGE_TSPC (bytes_of_u16 pc ++ bytes_of_u32 ts) :: after in
    packet = hdr ++ encode_tlvs tlvs
    /\ length hdr = 4%nat
    /\ forallb tlv_not_tspc before = true
    /\ forallb tlv_paddable tlvs = true
    /\ hdr ++ encode_tlvs (map (pad_tlv addr6) tlvs) = msg
    /\ forall esa, In esa sent -> In (hmac_tlv_of esa (esa_digest msg esa)) tlvs.
End Link.

(** * Properties *)

(** ** Sorted insertion and the derivation of ESAs *)


Lemma babel_esa_item_cmp_lt (a b : babel_esa_item) :
  babel_esa_item_cmp a b < 0 <-> esa_lt a b.
Proof.
  unfold babel_esa_item_cmp, esa_lt.
  repeat match goal with
         | |- context [(?x <? ?y)%nat] => destruct (Nat.ltb_spec x y)
         end; lia.
Qed.

Lemma esa_lt_trans (a b c : babel_esa_item) :
  esa_lt a b -> esa_lt b c -> esa_lt a c.
Proof. unfold esa_lt; lia. Qed.

Lemma esa_le_lt_trans (a b c : babel_esa_item) :
  esa_lt a b -> esa_le b c -> esa_lt a c.
Proof. unfold esa_le, esa_lt; lia. Qed.



Lemma listnode_add_sort_length {A : Type} (cmp : A -> A -> Z) (l : list A) (v : A) :
  length (listnode_add_sort cmp l v) = S (length l).
Proof.
  induction l as [|n rest IH]; simpl; [reflexivity|].
  destruct (cmp v n <? 0); simpl; congruence.
Qed.

Lemma listnode_add_sort_In {A : Type} (cmp : A -> A -> Z) (l : list A) (v x : A) :
  In x (listnode_add_sort cmp l v) <-> x = v \/ In x l.
Proof.
  induction l as [|n rest IH]; simpl.
  - intuition auto.
  - destruct (cmp v n <? 0); simpl; rewrite ?IH; intuition auto.
Qed.

Lemma listnode_add_sort_filter_out {A : Type} (cmp : A -> A -> Z) (p : A -> bool)
    (l : list A) (v : A) :
  p v = false -> filter p (listnode_add_sort cmp l v) = filter p l.
Proof.
  intros Hv; induction l as [|n rest IH]; simpl.
  - now rewrite Hv.
  - destruct (cmp v n <? 0); simpl.
    + now rewrite Hv.
    + now rewrite IH.
Qed.

Lemma esa_add_sort_sorted (l : list babel_esa_item) (v : babel_esa_item) :
  StronglySorted esa_le l -> StronglySorted esa_le (esa_add_sort l v).
Proof.
  induction 1 as [|n rest Hs IH Hall]; simpl.
  - repeat constructor.
  - destruct (Z.ltb_spec (babel_esa_item_cmp v n) 0) as [Hlt|Hge].
    + apply babel_esa_item_cmp_lt in Hlt.
      constructor; [now constructor|].
      constructor.
      * unfold esa_le, esa_lt in *; lia.
      * rewrite Forall_forall in *; intros x Hx.
        specialize (Hall x Hx). unfold esa_le, esa_lt in *; lia.
    + constructor; [assumption|].
      rewrite Forall_forall in *; intros x Hx.
      apply listnode_add_sort_In in Hx as [->|Hx]; [|now apply Hall].
      unfold esa_le; rewrite <- babel_esa_item_cmp_lt; lia.
Qed.

(** In a sorted list, a new element above every element selected by [p]
    lands right after them. *)
Lemma esa_add_sort_filter_in (p : babel_esa_item -> bool)
    (l : list babel_esa_item) (v : babel_esa_item) :
  StronglySorted esa_le l -> p v = true ->
  (forall e, In e l -> p e = true -> esa_lt e v) ->
  filter p (esa_add_sort l v) = filter p l ++ [v].
Proof.
  intros Hs Hv; induction Hs as [|n rest Hs IH Hall]; intros Hbelow; simpl.
  - now rewrite Hv.
  - destruct (Z.ltb_spec (babel_esa_item_cmp v n) 0) as [Hlt|Hge].
    + apply babel_esa_item_cmp_lt in Hlt.
      assert (Hnone : filter p (n :: rest) = []).
      { assert (Hf : forall e, In e (n :: rest) -> p e = false).
        { intros e He. destruct (p e) eqn:Hpe; [|reflexivity].
          exfalso. specialize (Hbelow e He Hpe).
          destruct He as [<-|He].
          - unfold esa_lt in *; lia.
          - rewrite Forall_forall in Hall. specialize (Hall e He).
            unfold esa_le, esa_lt in *; lia. }
        clear - Hf. induction (n :: rest) as [|x xs IHx]; simpl; [reflexivity|].
        rewrite (Hf x (or_introl eq_refl)). apply IHx.
        intros e He; apply Hf; now right. }
      simpl filter at 1. rewrite Hv.
      change (v :: filter p (n :: rest) = filter p (n :: rest) ++ [v]).
      now rewrite Hnone.
    + simpl. rewrite IH by (intros e He; apply Hbelow; now right).
      now destruct (p n).
Qed.


Lemma esas_of_csa_add_other (c c' major : nat) (esa : babel_esa_item)
    (l : list babel_esa_item) :
  c' <> c ->
  esas_of_csa c' (esa_add_sort l (set_sort_order esa major c)) = esas_of_csa c' l.
Proof.
  intros Hne. unfold esas_of_csa.
  apply listnode_add_sort_filter_out. simpl.
  apply Nat.eqb_neq; congruence.
Qed.

Lemma esas_of_csa_add_same (c : nat) (esa : babel_esa_item)
    (l : list babel_esa_item) :
  StronglySorted esa_le l -> majors_consecutive l ->
  let v := set_sort_order esa (length (esas_of_csa c l)) c in
  esas_of_csa c (esa_add_sort l v) = esas_of_csa c l ++ [v].
Proof.
  intros Hs Hc v. unfold esas_of_csa at 1.
  apply esa_add_sort_filter_in; [assumption|simpl; apply Nat.eqb_refl|].
  intros e He Hpe. apply Nat.eqb_eq in Hpe.
  assert (Hin : In e (esas_of_csa c l)).
  { unfold esas_of_csa. apply filter_In. split; [assumption|now apply Nat.eqb_eq]. }
  apply (in_map sort_order_major) in Hin. rewrite Hc in Hin.
  apply in_seq in Hin. unfold esa_lt, v; simpl. lia.
Qed.

Lemma esalist_derive_keys_inv (algo : Z) (c : nat) (keys : list key) :
  forall (l : list babel_esa_item) (kc : nat),
  StronglySorted esa_le l -> majors_consecutive l ->
  length (esas_of_csa c l) = kc ->
  let r := esalist_derive_keys algo c keys l kc in
  StronglySorted esa_le (fst r) /\ majors_consecutive (fst r) /\
  length (esas_of_csa c (fst r)) = snd r /\
  (forall c', c' <> c -> esas_of_csa c' (fst r) = esas_of_csa c' l).
Proof.
  induction keys as [|k rest IH]; intros l kc Hs Hc Hkc; simpl.
  - auto.
  - destruct (babel_esa_item_exists l algo _ _ _).
    + now apply IH.
    + set (esa := babel_esa_item_alloc algo _ _ _).
      set (v := set_sort_order esa kc c).
      assert (Hsame : esas_of_csa c (esa_add_sort l v) = esas_of_csa c l ++ [v]).
      { subst v kc. now apply esas_of_csa_add_same. }
      assert (Hother : forall c', c' <> c ->
                esas_of_csa c' (esa_add_sort l v) = esas_of_csa c' l).
      { intros c' Hne. now apply esas_of_csa_add_other. }
      specialize (IH (esa_add_sort l v) (S kc)).
      destruct IH as (H1 & H2 & H3 & H4).
      * now apply esa_add_sort_sorted.
      * intros c'. destruct (Nat.eq_dec c' c) as [->|Hne].
        -- rewrite Hsame, map_app, length_app, Hc, Hkc. simpl.
           rewrite Nat.add_1_r, seq_S. reflexivity.
        -- rewrite Hother by assumption. apply Hc.
      * rewrite Hsame, length_app. simpl. lia.
      * repeat split; try assumption.
        intros c' Hne. rewrite H4 by assumption. now apply Hother.
Qed.

(** The final [key_counter] is the initial one plus the number of ESAs
    the loop has inserted. *)
Lemma esalist_derive_keys_counter (algo : Z) (c : nat) (keys : list key) :
  forall (l : list babel_esa_item) (kc : nat),
  let r := esalist_derive_keys algo c keys l kc in
  (snd r = kc + (length (fst r) - length l) /\ length l <= length (fst r))%nat.
Proof.
  induction keys as [|k rest IH]; intros l kc; simpl.
  - lia.
  - destruct (babel_esa_item_exists l algo _ _ _).
    + apply IH.
    + match goal with
      | |- context [esalist_derive_keys _ _ _ ?l' ?kc'] =>
          specialize (IH l' kc')
      end.
      rewrite listnode_add_sort_length in IH. simpl in IH. lia.
Qed.

Section DeriveProps.
Context {env : AuthEnv}.

Lemma esalist_derive_csas_inv (now : Z) (f : keychain -> Z -> list key)
    (csas : list babel_csa_item) :
  forall (l : list babel_esa_item) (cc : nat),
  StronglySorted esa_le l -> majors_consecutive l ->
  (forall c, (cc <= c)%nat -> esas_of_csa c l = []) ->
  StronglySorted esa_le (esalist_derive_csas csas now f l cc) /\
  majors_consecutive (esalist_derive_csas csas now f l cc).
Proof.
  induction csas as [|csa rest IH]; intros l cc Hs Hc Hfresh; simpl.
  - auto.
  - destruct (keychain_lookup (keychain_name csa)) as [kc|].
    + pose proof (esalist_derive_keys_inv (csa_hash_algo csa) cc (f kc now)
                    l 0%nat Hs Hc) as Hinv.
      rewrite Hfresh in Hinv by lia. specialize (Hinv eq_refl).
      destruct (esalist_derive_keys _ _ _ _ _) as [l' kc'].
      simpl in Hinv. destruct Hinv as (H1 & H2 & _ & H4).
      apply IH; try assumption.
      intros c Hle. rewrite H4 by lia. apply Hfresh. lia.
    + now apply IH.
Qed.
End DeriveProps.

(** ** ESA duplicate accounting *)

(** C7, as amended: [key_counter] is advanced only for the keys that are
    inserted, never for a key dropped as a full duplicate.  The final
    counter of the loop over a CSA's filtered keys is the initial one plus
    the number of ESAs inserted, and in the derived list the major sort
    orders of the ESAs of every CSA are 0, 1, 2, ... without a gap. *)
Theorem esalist_derive_majors_no_gaps {env : AuthEnv}
    (csas : list babel_csa_item) (now : Z) (f : keychain -> Z -> list key)
    (c : nat) (algo : Z) (keys : list key) (l : list babel_esa_item) (kc : nat) :
  map sort_order_major (esas_of_csa c (babel_esalist_derive csas now f))
  = seq 0 (length (esas_of_csa c (babel_esalist_derive csas now f)))
  /\ snd (esalist_derive_keys algo c keys l kc)
     = (kc + (length (fst (esalist_derive_keys algo c keys l kc)) - length l))%nat.
Proof.
  split.
  - unfold babel_esalist_derive.
    apply (esalist_derive_csas_inv now f csas [] 0%nat).
    + constructor.
    + intros c'. reflexivity.
    + intros c' _. reflexivity.
  - apply esalist_derive_keys_counter.
Qed.

(** C7, as stated, fails: with the CSAs (alpha, beta) the first key of
    beta is a full duplicate of the key of alpha.  The loop over beta's
    two keys ends with [key_counter] 1, not 2, and the ESA of beta's
    second key gets major sort order 0, not 1. *)
Lemma esalist_derive_duplicate_not_counted :
  let derive := @babel_esalist_derive Example.env in
  let valid := @keys_valid_for_send Example.env in
  map (fun e => (sort_order_major e, sort_order_minor e, key_id e))
      (derive [Example.csa_alpha; Example.csa_beta] 0 valid)
  = [(0%nat, 0%nat, 1); (0%nat, 1%nat, 2)]
  /\ snd (esalist_derive_keys 0 1 [Example.key1; Example.key2]
                              (derive [Example.csa_alpha] 0 valid) 0)
     = 1%nat
  /\ snd (esalist_derive_keys 0 1 [Example.key1; Example.key2]
                              (derive [Example.csa_alpha] 0 valid) 0)
     <> length [Example.key1; Example.key2].
Proof. vm_compute. repeat split; discriminate. Qed.

(** ** Send counters *)

Lemma babel_auth_bump_tspc_in_range (base : ts_base_t) (b : babel_interface)
    (now : Z) :
  tspc_in_range b -> tspc_in_range (babel_auth_bump_tspc base b now).
Proof.
  unfold tspc_in_range, babel_auth_bump_tspc, u16, u32. intros [Hts Hpc].
  pose proof (Z.mod_pos_bound (auth_packetcounter b + 1) 65536 eq_refl).
  pose proof (Z.mod_pos_bound (auth_timestamp b + 1) 4294967296 eq_refl).
  pose proof (Z.mod_pos_bound now 4294967296 eq_refl).
  destruct base; [|destruct (now >? auth_timestamp b)];
    try destruct (Z.eqb_spec ((auth_packetcounter b + 1) mod 65536) 0);
    simpl; lia.
Qed.

Lemma u16_succ (pc : Z) :
  0 <= pc < 65536 -> u16 (pc + 1) = if pc =? 65535 then 0 else pc + 1.
Proof.
  intros H. unfold u16. destruct (Z.eqb_spec pc 65535) as [->|Hne].
  - reflexivity.
  - apply Z.mod_small; lia.
Qed.

(** One bump from a pair that is not the last one moves the pair up. *)
Lemma babel_auth_bump_tspc_lt (base : ts_base_t) (b : babel_interface) (now : Z) :
  tspc_in_range b -> now < 4294967296 -> tspc_exhausted b = false ->
  send_tspc_lt b (babel_auth_bump_tspc base b now).
Proof.
  unfold tspc_in_range, tspc_exhausted, send_tspc_lt, tspc_lt.
  intros [Hts Hpc] Hnow Hroom.
  apply andb_false_iff in Hroom.
  assert (Hne : auth_timestamp b <> 4294967295 \/ auth_packetcounter b <> 65535)
    by (destruct Hroom as [H|H]; apply Z.eqb_neq in H; auto).
  clear Hroom.
  unfold babel_auth_bump_tspc. rewrite (u16_succ _ Hpc).
  assert (Hkeep :
    let pc := if auth_packetcounter b =? 65535 then 0
              else auth_packetcounter b + 1 in
    let b' := if pc =? 0
              then set_auth_tspc b (u32 (auth_timestamp b + 1)) pc
              else set_auth_tspc b (auth_timestamp b) pc in
    auth_timestamp b < auth_timestamp b' \/
    auth_timestamp b = auth_timestamp b' /\
    auth_packetcounter b < auth_packetcounter b').
  { destruct (Z.eqb_spec (auth_packetcounter b) 65535) as [Heq|Hneq]; simpl.
    - left. unfold u32. rewrite Z.mod_small; lia.
    - destruct (Z.eqb_spec (auth_packetcounter b + 1) 0); simpl; lia. }
  destruct base; [exact Hkeep|].
  destruct (Z.gtb_spec now (auth_timestamp b)); [|exact Hkeep].
  simpl. left. unfold u32. rewrite Z.mod_small; lia.
Qed.

Lemma send_tspc_lt_trans (a b c : babel_interface) :
  send_tspc_lt a b -> send_tspc_lt b c -> send_tspc_lt a c.
Proof. unfold send_tspc_lt, tspc_lt; lia. Qed.

Lemma bump_run_sorted (base : ts_base_t) (nows : list Z) :
  forall b, tspc_in_range b -> run_has_room base b nows = true ->
  StronglySorted send_tspc_lt (b :: bump_run base b nows).
Proof.
  induction nows as [|now rest IH]; intros b Hr Hroom; simpl.
  - repeat constructor.
  - simpl in Hroom. apply andb_true_iff in Hroom as [Hroom Hrest].
    apply andb_true_iff in Hroom as [Hex Hnow].
    apply negb_true_iff in Hex. apply Z.ltb_lt in Hnow.
    pose proof (babel_auth_bump_tspc_lt base b now Hr Hnow Hex) as Hlt.
    specialize (IH _ (babel_auth_bump_tspc_in_range base b now Hr) Hrest).
    constructor; [exact IH|].
    constructor; [exact Hlt|].
    apply StronglySorted_inv in IH as [_ Hall].
    rewrite Forall_forall in *. intros x Hx.
    eapply send_tspc_lt_trans; [exact Hlt|now apply Hall].
Qed.

(** C6, as amended: across any sequence of counter bumps in which every
    [now] fits the 32-bit timestamp and no bump starts from the last value
    (2^32-1, 65535) of the pair, (auth_timestamp, auth_packetcounter) is
    strictly lexicographically increasing.  Under the UNIX base a [now]
    that is not above the timestamp falls through to the ZERO rule:
    the packet counter is incremented, with carry into the timestamp when
    it wraps to 0, and the pair does not stay as it was. *)
Theorem send_counters_strictly_increase (base : ts_base_t) (b : babel_interface)
    (nows : list Z) :
  tspc_in_range b -> run_has_room base b nows = true ->
  StronglySorted send_tspc_lt (b :: bump_run base b nows)
  /\ (forall now, now <= auth_timestamp b ->
       let b' := babel_auth_bump_tspc BABEL_TS_BASE_UNIX b now in
       b' = babel_auth_bump_tspc BABEL_TS_BASE_ZERO b now
       /\ auth_packetcounter b' = u16 (auth_packetcounter b + 1)
       /\ auth_timestamp b'
          = (if auth_packetcounter b' =? 0 then u32 (auth_timestamp b + 1)
             else auth_timestamp b)
       /\ (auth_timestamp b', auth_packetcounter b')
          <> (auth_timestamp b, auth_packetcounter b)).
Proof.
  intros Hr Hroom. split; [now apply bump_run_sorted|].
  intros now Hnow b'. subst b'. unfold babel_auth_bump_tspc.
  destruct (Z.gtb_spec now (auth_timestamp b)) as [Hgt|_]; [lia|].
  destruct Hr as [Hts Hpc]. rewrite (u16_succ _ Hpc).
  destruct (Z.eqb_spec (auth_packetcounter b) 65535) as [Heq|Hne]; simpl.
  - do 3 (split; [reflexivity|]). intros Habs. inversion Habs. lia.
  - destruct (Z.eqb_spec (auth_packetcounter b + 1) 0); simpl.
    + lia.
    + split; [reflexivity|]. split; [reflexivity|]. split.
      * destruct (Z.eqb_spec (auth_packetcounter b + 1) 0); [lia|reflexivity].
      * intros Habs. inversion Habs. lia.
Qed.

Lemma send_counters_strictly_increase_witness :
  let b := Example.babel_if [] true 100 0 in
  let nows := [100; 100; 101] in
  tspc_in_range b /\ run_has_room BABEL_TS_BASE_UNIX b nows = true
  /\ StronglySorted send_tspc_lt (b :: bump_run BABEL_TS_BASE_UNIX b nows).
Proof.
  assert (Hr : tspc_in_range (Example.babel_if [] true 100 0))
    by (unfold tspc_in_range; simpl; lia).
  split; [exact Hr|]. split; [reflexivity|].
  exact (proj1 (send_counters_strictly_increase BABEL_TS_BASE_UNIX
                  (Example.babel_if [] true 100 0) [100; 100; 101]
                  Hr eq_refl)).
Defined.

(** C6, as stated, fails at the end of the counter space: a bump from
    (2^32-1, 65535) wraps both counters and yields (0, 0).  Under the
    UNIX base the state is reached from (0, 0) by 65536 sends within the
    second 2^32-1, and the next send in that second wraps. *)
Lemma send_counters_wrap_to_zero :
  let b := Example.babel_if [] true 4294967295 65535 in
  let b' := babel_auth_bump_tspc BABEL_TS_BASE_ZERO b 0 in
  (auth_timestamp b', auth_packetcounter b') = (0, 0)
  /\ ~ send_tspc_lt b b'
  /\ map (fun x => (auth_timestamp x, auth_packetcounter x))
         (skipn 65535 (bump_run BABEL_TS_BASE_UNIX (Example.babel_if [] true 0 0)
                                (repeat 4294967295 65537)))
     = [(4294967295, 65535); (0, 0)].
Proof.
  intros b b'. split; [reflexivity|]. split.
  - intros [H|[H _]]; vm_compute in H; discriminate.
  - vm_compute. reflexivity.
Qed.

(** ** Bytes and cursors *)

Lemma byte_to_nat_unsigned (b : byte) : Z.of_nat (Byte.to_nat b) = byte.unsigned b.
Proof.
  unfold byte.unsigned. rewrite Byte.to_nat_via_N. apply N_nat_Z.
Qed.

Lemma byte_to_nat_of_Z (n : nat) :
  (n < 256)%nat -> Byte.to_nat (byte.of_Z (Z.of_nat n)) = n.
Proof.
  intros Hn. apply Nat2Z.inj. rewrite byte_to_nat_unsigned, byte.unsigned_of_Z.
  unfold byte.wrap. apply Z.mod_small. lia.
Qed.

Lemma byte_eqb_refl (b : byte) : Byte.eqb b b = true.
Proof. now apply Byte.byte_dec_lb. Qed.

Lemma byte_eqb_eq (a b : byte) : Byte.eqb a b = true <-> a = b.
Proof. split; [apply Byte.byte_dec_bl|apply Byte.byte_dec_lb]. Qed.

Lemma byte_eqb_neq (a b : byte) : Byte.eqb a b = false <-> a <> b.
Proof.
  split.
  - apply Byte.eqb_false.
  - intros Hne. destruct (Byte.eqb a b) eqn:E; [|reflexivity].
    now apply byte_eqb_eq in E.
Qed.

Lemma bytes_eqb_eq (a b : list byte) : bytes_eqb a b = true <-> a = b.
Proof.
  revert b; induction a as [|x a IH]; intros [|y b]; simpl;
    try (split; [discriminate|congruence]); [tauto|].
  rewrite andb_true_iff, byte_eqb_eq, IH. split.
  - intros [-> ->]; reflexivity.
  - intros H; injection H; auto.
Qed.

Lemma reads_at_start (pre rest : list byte) :
  reads_at (pre ++ rest) (length pre) rest.
Proof.
  split.
  - rewrite length_app. lia.
  - rewrite skipn_app, Nat.sub_diag, skipn_all. reflexivity.
Qed.

Lemma reads_at_app (bs x post : list byte) (g : nat) :
  reads_at bs g (x ++ post) -> reads_at bs (g + length x) post.
Proof.
  intros [Hle Hsk]. split.
  - apply (f_equal (@length byte)) in Hsk.
    rewrite length_skipn, length_app in Hsk. lia.
  - rewrite Nat.add_comm, <- skipn_skipn, Hsk.
    rewrite skipn_app, Nat.sub_diag, skipn_all. reflexivity.
Qed.

Lemma reads_at_length (bs rest : list byte) (g : nat) :
  reads_at bs g rest -> (g + length rest = length bs)%nat.
Proof.
  intros [Hle Hsk]. apply (f_equal (@length byte)) in Hsk.
  rewrite length_skipn in Hsk. lia.
Qed.

Lemma STREAM_READABLE_at (bs rest : list byte) (g : nat) :
  reads_at bs g rest -> STREAM_READABLE (packet_at bs g) = length rest.
Proof.
  intros H. apply reads_at_length in H. unfold STREAM_READABLE; simpl. lia.
Qed.

Lemma stream_peek_at (bs x post : list byte) (g p : nat) :
  reads_at bs g (x ++ post) ->
  stream_peek (packet_at bs p) g (length x) = Some x.
Proof.
  intros H. pose proof (reads_at_length _ _ _ H) as Hlen.
  rewrite length_app in Hlen. destruct H as [_ Hsk].
  unfold stream_peek; simpl.
  destruct (Nat.leb_spec (g + length x) (length bs)); [|lia].
  rewrite Hsk, firstn_app, Nat.sub_diag, firstn_all. simpl.
  now rewrite app_nil_r.
Qed.

Lemma stream_get_at (bs x post : list byte) (g : nat) :
  reads_at bs g (x ++ post) ->
  stream_get (packet_at bs g) (length x) = Some (x, packet_at bs (g + length x)).
Proof.
  intros H. unfold stream_get.
  change (s_getp (packet_at bs g)) with g.
  now rewrite (stream_peek_at bs x post g g H).
Qed.

Lemma stream_getc_at (bs post : list byte) (b : byte) (g : nat) :
  reads_at bs g (b :: post) ->
  stream_getc (packet_at bs g) = Some (b, packet_at bs (g + 1)).
Proof.
  intros H. unfold stream_getc.
  pose proof (stream_get_at bs [b] post g H) as E. simpl length in E.
  now rewrite E.
Qed.

Lemma stream_getw_at (bs post : list byte) (b0 b1 : byte) (g : nat) :
  reads_at bs g (b0 :: b1 :: post) ->
  stream_getw (packet_at bs g) = Some (be_value [b0; b1], packet_at bs (g + 2)).
Proof.
  intros H. unfold stream_getw.
  pose proof (stream_get_at bs [b0; b1] post g H) as E. simpl length in E.
  now rewrite E.
Qed.

Lemma stream_getl_at (bs post : list byte) (b0 b1 b2 b3 : byte) (g : nat) :
  reads_at bs g (b0 :: b1 :: b2 :: b3 :: post) ->
  stream_getl (packet_at bs g)
  = Some (be_value [b0; b1; b2; b3], packet_at bs (g + 4)).
Proof.
  intros H. unfold stream_getl.
  pose proof (stream_get_at bs [b0; b1; b2; b3] post g H) as E.
  simpl length in E. now rewrite E.
Qed.

Lemma stream_forward_getp_at (bs x post : list byte) (g : nat) :
  reads_at bs g (x ++ post) ->
  stream_forward_getp (packet_at bs g) (length x)
  = Some (packet_at bs (g + length x)).
Proof.
  intros H. pose proof (reads_at_length _ _ _ H) as Hlen.
  rewrite length_app in Hlen.
  unfold stream_forward_getp, stream_set_getp; simpl.
  destruct (Nat.leb_spec (g + length x) (length bs)); [reflexivity|lia].
Qed.

Lemma stream_set_getp_at (bs : list byte) (g p : nat) :
  (p <= length bs)%nat ->
  stream_set_getp (packet_at bs g) p = Some (packet_at bs p).
Proof.
  intros H. unfold stream_set_getp; simpl.
  destruct (Nat.leb_spec p (length bs)); [reflexivity|lia].
Qed.

Lemma stream_put_new (input : list byte) :
  stream_put (stream_new (length input)) input = Some (packet_at input 0).
Proof.
  unfold stream_put, stream_new, STREAM_WRITEABLE, zero_bytes, mem_write; simpl.
  rewrite repeat_length, Nat.sub_0_r, Nat.leb_refl.
  rewrite skipn_all2 by (rewrite repeat_length; lia).
  now rewrite app_nil_r.
Qed.

(** ** The TS/PC walk *)

Lemma encode_tlv_length_pos (t : tlv) : (0 < length (encode_tlv t))%nat.
Proof. destruct t; simpl; lia. Qed.

Lemma tspc_accepts_lt (tlv_ts tlv_pc stor_ts stor_pc : Z) :
  tspc_accepts tlv_ts tlv_pc stor_ts stor_pc = true
  <-> tspc_lt stor_ts stor_pc tlv_ts tlv_pc.
Proof.
  unfold tspc_accepts, tspc_lt.
  rewrite orb_true_iff, andb_true_iff, Z.eqb_eq.
  rewrite !Z.gtb_ltb, !Z.ltb_lt. intuition lia.
Qed.

Section TspcWalk.
Variables (pools : stat_pools) (stor_pc stor_ts : Z) (bs : list byte).

(** TLVs other than TS/PC are stepped over, each for one unit of fuel. *)
Lemma check_tspc_loop_skip (tlvs : list tlv) (rest : list byte) :
  forallb tlv_not_tspc tlvs = true ->
  forall (g fuel : nat),
  reads_at bs g (encode_tlvs tlvs ++ rest) ->
  (length (encode_tlvs tlvs ++ rest) < fuel)%nat ->
  exists fuel',
    (length rest < fuel')%nat /\
    check_tspc_loop fuel pools (packet_at bs g) stor_pc stor_ts
    = check_tspc_loop fuel' pools
        (packet_at bs (g + length (encode_tlvs tlvs))) stor_pc stor_ts.
Proof.
  induction tlvs as [|t tlvs IH]; intros Hok g fuel Hr Hfuel; simpl in *.
  - exists fuel. rewrite Nat.add_0_r. auto.
  - apply andb_true_iff in Hok as [Ht Hok].
    rewrite <- app_assoc in Hr, Hfuel.
    rewrite length_app in Hfuel |- *.
    pose proof (encode_tlv_length_pos t) as Hpos.
    destruct fuel as [|fuel]; [lia|].
    pose proof (reads_at_app _ _ _ _ Hr) as Hr'.
    specialize (IH Hok (g + length (encode_tlv t))%nat fuel Hr').
    destruct IH as (fuel' & Hf' & IH); [lia|].
    exists fuel'. split; [assumption|].
    rewrite Nat.add_assoc, <- IH. clear IH.
    cbn [check_tspc_loop].
    rewrite (STREAM_READABLE_at _ _ _ Hr), length_app.
    destruct (Nat.eqb_spec (length (encode_tlv t)
                            + length (encode_tlvs tlvs ++ rest)) 0); [lia|].
    destruct t as [|ty v]; simpl in Hr |- *.
    + rewrite (stream_getc_at _ _ _ _ Hr). reflexivity.
    + unfold tlv_not_tspc in Ht; simpl in Ht.
      apply andb_true_iff in Ht as [Hwf Hty].
      apply andb_true_iff in Hwf as [Hpad Hlen].
      apply negb_true_iff in Hpad. apply Nat.ltb_lt in Hlen.
      rewrite (stream_getc_at _ _ _ _ Hr), Hpad.
      pose proof (reads_at_app bs [ty] _ g Hr) as Hr1. simpl in Hr1.
      rewrite (stream_getc_at _ _ _ _ Hr1), Hty.
      pose proof (reads_at_app bs [_] _ _ Hr1) as Hr2. simpl in Hr2.
      rewrite (byte_to_nat_of_Z _ Hlen).
      rewrite (stream_forward_getp_at _ _ _ _ Hr2).
      do 2 f_equal. lia.
Qed.

Lemma check_tspc_loop_none (g fuel : nat) :
  reads_at bs g [] -> (0 < fuel)%nat ->
  check_tspc_loop fuel pools (packet_at bs g) stor_pc stor_ts
  = Some (-1, bump incr_auth_recv_ng_no_tspc pools).
Proof.
  intros Hr Hfuel. destruct fuel as [|fuel]; [lia|]. simpl.
  now rewrite (STREAM_READABLE_at _ _ _ Hr).
Qed.

Lemma check_tspc_loop_found (g fuel : nat) (len p0 p1 t0 t1 t2 t3 : byte)
    (tail : list byte) :
  reads_at bs g (MESSAGE_TSPC :: len :: [p0; p1] ++ [t0; t1; t2; t3] ++ tail) ->
  (0 < fuel)%nat ->
  check_tspc_loop fuel pools (packet_at bs g) stor_pc stor_ts
  = Some (if tspc_accepts (be_value [t0; t1; t2; t3]) (be_value [p0; p1])
                          stor_ts stor_pc
          then (Z.of_nat (g + 2), pools)
          else (-1, bump incr_auth_recv_ng_tspc pools)).
Proof.
  intros Hr Hfuel. destruct fuel as [|fuel]; [lia|].
  cbn [check_tspc_loop].
  rewrite (STREAM_READABLE_at _ _ _ Hr). cbn [length Nat.eqb].
  rewrite (stream_getc_at _ _ _ _ Hr).
  change (Byte.eqb MESSAGE_TSPC MESSAGE_PAD1) with false. cbv iota.
  pose proof (reads_at_app bs [_] _ g Hr) as Hr1. simpl in Hr1.
  rewrite (stream_getc_at _ _ _ _ Hr1), byte_eqb_refl. cbn [negb].
  pose proof (reads_at_app bs [_] _ _ Hr1) as Hr2. simpl in Hr2.
  rewrite (stream_getw_at _ _ _ _ _ Hr2).
  pose proof (reads_at_app bs [_; _] _ _ Hr2) as Hr3. simpl in Hr3.
  rewrite (stream_getl_at _ _ _ _ _ _ _ Hr3).
  unfold tspc_accepts, stream_get_getp; simpl s_getp.
  destruct (_ || _); do 3 f_equal. lia.
Qed.
End TspcWalk.

Lemma babel_auth_check_tspc_first (pools : stat_pools) (stor_pc stor_ts : Z)
    (hdr : list byte) (before : list tlv) (len p0 p1 t0 t1 t2 t3 : byte)
    (tail : list byte) (g : nat) :
  length hdr = 4%nat -> forallb tlv_not_tspc before = true ->
  babel_auth_check_tspc pools
    (packet_at (tspc_packet hdr before len [p0; p1] [t0; t1; t2; t3] tail) g)
    stor_pc stor_ts
  = Some (if tspc_accepts (be_value [t0; t1; t2; t3]) (be_value [p0; p1])
                          stor_ts stor_pc
          then (Z.of_nat (4 + length (encode_tlvs before) + 2), pools)
          else (-1, bump incr_auth_recv_ng_tspc pools)).
Proof.
  intros Hhdr Hbefore. unfold babel_auth_check_tspc, tspc_packet.
  set (rest := MESSAGE_TSPC :: len :: [p0; p1] ++ [t0; t1; t2; t3] ++ tail).
  set (bs := hdr ++ encode_tlvs before ++ rest).
  assert (Hr : reads_at bs 4 (encode_tlvs before ++ rest))
    by (rewrite <- Hhdr; apply reads_at_start).
  rewrite stream_set_getp_at by (destruct Hr; assumption).
  rewrite (STREAM_READABLE_at _ _ _ Hr).
  destruct (check_tspc_loop_skip pools stor_pc stor_ts bs before rest Hbefore
              4 (S (length (encode_tlvs before ++ rest))) Hr (Nat.lt_succ_diag_r _))
    as (fuel' & Hfuel' & ->).
  apply reads_at_app in Hr.
  rewrite (check_tspc_loop_found pools stor_pc stor_ts bs _ fuel'
             len p0 p1 t0 t1 t2 t3 tail Hr) by lia.
  destruct (tspc_accepts _ _ _ _); reflexivity.
Qed.

Lemma babel_auth_check_tspc_absent (pools : stat_pools) (stor_pc stor_ts : Z)
    (hdr : list byte) (tlvs : list tlv) (g : nat) :
  length hdr = 4%nat -> forallb tlv_not_tspc tlvs = true ->
  babel_auth_check_tspc pools (packet_at (hdr ++ encode_tlvs tlvs) g)
                        stor_pc stor_ts
  = Some (-1, bump incr_auth_recv_ng_no_tspc pools).
Proof.
  intros Hhdr Htlvs. unfold babel_auth_check_tspc.
  set (bs := hdr ++ encode_tlvs tlvs).
  assert (Hr : reads_at bs 4 (encode_tlvs tlvs ++ [])).
  { rewrite app_nil_r, <- Hhdr. apply reads_at_start. }
  rewrite stream_set_getp_at by (destruct Hr; assumption).
  rewrite (STREAM_READABLE_at _ _ _ Hr).
  destruct (check_tspc_loop_skip pools stor_pc stor_ts bs tlvs [] Htlvs
              4 (S (length (encode_tlvs tlvs ++ []))) Hr (Nat.lt_succ_diag_r _))
    as (fuel' & Hfuel' & ->).
  apply reads_at_app in Hr.
  now apply check_tspc_loop_none.
Qed.

(** ** The TS/PC acceptance rule *)

Section TspcRule.
Context {env : AuthEnv}.
Variables (st : auth_state) (ifp : interface) (from : list byte) (now : Z).
Variables (hdr : list byte) (before : list tlv) (len p0 p1 t0 t1 t2 t3 : byte).
Variable tail : list byte.
Hypothesis Hcsa : csalist (info ifp) <> [].
Hypothesis Hhdr : length hdr = 4%nat.
Hypothesis Hbefore : forallb tlv_not_tspc before = true.

Let input := tspc_packet hdr before len [p0; p1] [t0; t1; t2; t3] tail.
Let tlv_pc := be_value [p0; p1].
Let tlv_ts := be_value [t0; t1; t2; t3].

(** A packet the first TS/PC TLV of which fails the test is turned
    down before any other check. *)
Lemma check_packet_run_tspc_reject :
  tspc_accepts tlv_ts tlv_pc (fst (anm_stored st from ifp))
               (snd (anm_stored st from ifp)) = false ->
  babel_auth_check_packet_run st ifp from input now
  = check_end (Some (if authrxreq (info ifp) then MSG_NG else MSG_OK)) st ifp
              (bump incr_auth_recv_ng_tspc (pools_of st ifp)) 0 0.
Proof.
  intros Hrej. unfold babel_auth_check_packet_run.
  destruct (csalist (info ifp)) as [|csa csas] eqn:Ecsa; [congruence|].
  cbn [length Nat.eqb]. rewrite stream_put_new.
  unfold anm_stored in Hrej.
  destruct (babel_anm_lookup (anmlist st) from (if_id ifp)) as [anm|];
    cbn [fst snd] in Hrej;
    unfold input; rewrite (babel_auth_check_tspc_first _ _ _ _ _ _ _ _ _ _ _ _ _ _
                             Hhdr Hbefore);
    fold tlv_pc tlv_ts; rewrite Hrej; reflexivity.
Qed.
End TspcRule.

Lemma anm_stored_in_range (st : auth_state) (from : list byte) (ifp : interface) :
  forallb anm_item_in_range (anmlist st) = true ->
  0 <= fst (anm_stored st from ifp) < 4294967296
  /\ 0 <= snd (anm_stored st from ifp) < 65536.
Proof.
  intros Hall. unfold anm_stored, babel_anm_lookup.
  destruct (find _ (anmlist st)) as [anm|] eqn:E; simpl; [|lia].
  apply find_some in E as [Hin _].
  rewrite forallb_forall in Hall. specialize (Hall _ Hin).
  unfold anm_item_in_range in Hall.
  repeat (apply andb_true_iff in Hall as [Hall ?]).
  lia.
Qed.

(** C10: on an interface with CSAs, a packet whose first TS/PC TLV carries
    (timestamp, packet counter) = (0, 0) never passes the TS/PC check,
    whatever the sender and whether or not the memory holds a record for
    it: the check returns -1, the checker counts the packet under
    auth_recv_ng_tspc, computes no digest, leaves the memory as it was and
    returns NG when authrxreq is set. *)
Theorem tspc_zero_never_accepted {env : AuthEnv} (st : auth_state)
    (ifp : interface) (from : list byte) (now : Z) (hdr : list byte)
    (before : list tlv) (len : byte) (tail : list byte) :
  csalist (info ifp) <> [] -> length hdr = 4%nat ->
  forallb tlv_not_tspc before = true ->
  forallb anm_item_in_range (anmlist st) = true ->
  let zero := Byte.x00 in
  let input := tspc_packet hdr before len [zero; zero] [zero; zero; zero; zero]
                           tail in
  let r := babel_auth_check_packet_run st ifp from input now in
  babel_auth_check_tspc (pools_of st ifp) (packet_at input 0)
                        (snd (anm_stored st from ifp)) (fst (anm_stored st from ifp))
  = Some (-1, bump incr_auth_recv_ng_tspc (pools_of st ifp))
  /\ ck_ret r = Some (if authrxreq (info ifp) then MSG_NG else MSG_OK)
  /\ auth_recv_ng_tspc (stats (ck_state r))
     = ulong_incr (auth_recv_ng_tspc (stats st))
  /\ auth_recv_ok (stats (ck_state r)) = auth_recv_ok (stats st)
  /\ anmlist (ck_state r) = anmlist st
  /\ ck_calls r = 0%nat.
Proof.
  intros Hcsa Hhdr Hbefore Hanm zero input r.
  pose proof (anm_stored_in_range st from ifp Hanm) as [Hts Hpc].
  assert (E : tspc_accepts (be_value [zero; zero; zero; zero])
                (be_value [zero; zero]) (fst (anm_stored st from ifp))
                (snd (anm_stored st from ifp)) = false).
  { destruct (tspc_accepts _ _ _ _) eqn:E; [|reflexivity].
    apply tspc_accepts_lt in E. unfold tspc_lt in E.
    change (be_value [zero; zero; zero; zero]) with 0 in E.
    change (be_value [zero; zero]) with 0 in E. lia. }
  split.
  - unfold input.
    rewrite (babel_auth_check_tspc_first _ _ _ _ _ _ _ _ _ _ _ _ _ _ Hhdr Hbefore).
    now rewrite E.
  - subst r. unfold input.
    rewrite (check_packet_run_tspc_reject st ifp from now hdr before len
               zero zero zero zero zero zero tail Hcsa Hhdr Hbefore E).
    repeat split.
Qed.

Lemma tspc_zero_never_accepted_witness :
  let st := Example.state BABEL_TS_BASE_UNIX [] in
  let ifp := Example.iface 1 (Example.babel_if [Example.csa_alpha] true 0 0) in
  let input := tspc_packet Example.header [Example.hello] Byte.x06
                 [Byte.x00; Byte.x00] [Byte.x00; Byte.x00; Byte.x00; Byte.x00] [] in
  babel_anm_lookup (anmlist st) Example.addr1 (if_id ifp) = None
  /\ ck_ret (@babel_auth_check_packet_run Example.env st ifp Example.addr1 input 7)
     = Some MSG_NG.
Proof.
  split; [reflexivity|].
  refine (proj1 (proj2
    (@tspc_zero_never_accepted Example.env
       (Example.state BABEL_TS_BASE_UNIX [])
       (Example.iface 1 (Example.babel_if [Example.csa_alpha] true 0 0))
       Example.addr1 7 Example.header [Example.hello] Byte.x06 []
       _ eq_refl eq_refl eq_refl))).
  discriminate.
Defined.

(** ** Bounded digest work *)

Section DigestWork.
Context {env : AuthEnv}.

Lemma digest_work_within_refl (pools : stat_pools) (ret : option Z)
    (n done calls : nat) :
  digest_work_within n done calls
    {| tr_ret := ret; tr_pools := pools; tr_done := done; tr_calls := calls |}.
Proof. unfold digest_work_within; simpl. repeat split; lia. Qed.

(** After the local digest has been computed the scan computes no
    other; before, it computes at most one. *)
Lemma try_hmac_loop_work (packet0 padded : stream) (esa : babel_esa_item)
    (fuel : nat) :
  forall (pools : stat_pools) (packet : stream) (done calls : nat)
         (local_digest : option (list byte)),
  digest_work_within (match local_digest with Some _ => 0 | None => 1 end)
    done calls
    (try_hmac_loop fuel pools packet padded esa done calls local_digest).
Proof.
  induction fuel as [|fuel IH]; intros pools packet done calls local_digest.
  - simpl. apply digest_work_within_refl.
  - cbn [try_hmac_loop].
    repeat match goal with
           | |- digest_work_within _ _ _ (try_hmac_loop _ _ _ _ _ _ _ _) =>
               apply IH
           | |- digest_work_within _ _ _ {| tr_ret := _ |} =>
               apply digest_work_within_refl
           | |- digest_work_within _ _ _ (if ?c then _ else _) =>
               destruct c eqn:?
           | |- digest_work_within _ _ _ (match ?c with _ => _ end) =>
               destruct c eqn:?
           | |- digest_work_within _ _ _ (let (_, _) := ?c in _) =>
               destruct c eqn:?
           end.
    all: try match goal with
             | |- digest_work_within _ _ _
                    (try_hmac_loop _ ?p ?s _ _ ?d ?c ?ld) =>
                 pose proof (IH p s d c ld) as Hw
             end.
    all: unfold digest_work_within in *; cbn [tr_done tr_calls] in *.
    all: repeat match goal with
                | H : _ /\ _ |- _ => destruct H
                end.
    all: repeat split; try lia.
    all: try intros Htot;
      try match goal with
          | H : hash_make_hmac _ _ _ = None |- _ =>
              exfalso; exact (Htot _ _ _ H)
          end;
      try match goal with
          | H : _ -> _ = _ |- _ => specialize (H Htot)
          end;
      lia.
Qed.


(** One scan computes at most one digest and keeps the counter of
    digests within the cap. *)
Lemma babel_auth_try_hmac_tlvs_work (pools : stat_pools)
    (packet padded : stream) (esa : babel_esa_item) (done calls : nat) :
  let r := babel_auth_try_hmac_tlvs pools packet padded esa done calls in
  digest_work_within 1 done calls r
  /\ ((done <= BABEL_MAXDIGESTSIN)%nat -> (tr_done r <= BABEL_MAXDIGESTSIN)%nat).
Proof.
  unfold babel_auth_try_hmac_tlvs.
  destruct (Nat.eqb_spec done BABEL_MAXDIGESTSIN) as [Heq|Hne].
  - split; [apply digest_work_within_refl|simpl; lia].
  - destruct (stream_set_getp packet 4) as [packet'|].
    + pose proof (try_hmac_loop_work packet padded esa
                    (S (STREAM_READABLE packet')) pools packet' done calls None)
        as Hw.
      split; [exact Hw|].
      destruct Hw as (H1 & _). intros Hle. lia.
    + split; [apply digest_work_within_refl|simpl; lia].
Qed.

End DigestWork.




(** ** Padding *)

Lemma mem_write_app (a x b src : list byte) :
  length x = length src ->
  mem_write (a ++ x ++ b) (length a) src = a ++ src ++ b.
Proof.
  intros Hlen. unfold mem_write.
  rewrite firstn_app, Nat.sub_diag, firstn_all. simpl. rewrite app_nil_r.
  do 2 f_equal. rewrite <- Hlen, <- length_app.
  rewrite (app_assoc a x b), skipn_app, Nat.sub_diag, skipn_all. reflexivity.
Qed.

Lemma stream_forward_endp_padded (data : list byte) (e n : nat) :
  (e + n <= length data)%nat ->
  stream_forward_endp (padded_at data e) n = Some (padded_at data (e + n)).
Proof.
  intros H. unfold stream_forward_endp; simpl.
  destruct (Nat.leb_spec (e + n) (length data)); [reflexivity|lia].
Qed.

Lemma stream_put_padded (a x b src : list byte) (g : nat) :
  length x = length src ->
  stream_put {| s_data := a ++ x ++ b; s_getp := g; s_endp := length a |} src
  = Some {| s_data := a ++ src ++ b; s_getp := g;
            s_endp := length a + length src |}.
Proof.
  intros Hlen. unfold stream_put, STREAM_WRITEABLE; simpl.
  rewrite !length_app.
  destruct (Nat.leb_spec (length src)
              (length a + (length x + length b) - length a)); [|lia].
  now rewrite mem_write_app.
Qed.

Lemma zero_bytes_length (n : nat) : length (zero_bytes n) = n.
Proof. apply repeat_length. Qed.

Lemma stream_put_zero_padded (a x b : list byte) (g : nat) (size : Z) :
  size = Z.of_nat (length x) -> size < ULONG_MODULUS ->
  stream_put_zero {| s_data := a ++ x ++ b; s_getp := g; s_endp := length a |}
                  (size_t_of_int size)
  = Some {| s_data := a ++ zero_bytes (length x) ++ b; s_getp := g;
            s_endp := length a + length x |}.
Proof.
  intros -> Hsmall. unfold stream_put_zero, size_t_of_int.
  rewrite Z.mod_small by lia.
  rewrite <- nat_N_Z, N2Z.id, Nat2N.id.
  unfold STREAM_WRITEABLE; simpl. rewrite !length_app.
  destruct (N.leb_spec (N.of_nat (length x))
              (N.of_nat (length a + (length x + length b) - length a))); [|lia].
  rewrite (stream_put_padded a x b (zero_bytes (length x)) g)
    by (now rewrite zero_bytes_length).
  now rewrite zero_bytes_length.
Qed.

(** Right-nest the concatenations of the goal. *)
Ltac app_norm :=
  repeat first [rewrite <- app_assoc | rewrite <- app_comm_cons];
  cbn [app].

Lemma hmac_value_split (v : list byte) :
  (2 + IPV6_MAX_BYTELEN <= length v)%nat ->
  exists k d dr,
    v = k ++ d ++ dr /\ firstn 2 v = k /\ length k = 2%nat
    /\ length d = IPV6_MAX_BYTELEN
    /\ length dr = (length v - 2 - IPV6_MAX_BYTELEN)%nat.
Proof.
  unfold IPV6_MAX_BYTELEN. intros Hlen.
  exists (firstn 2 v), (firstn 16 (skipn 2 v)), (skipn 16 (skipn 2 v)).
  rewrite !firstn_skipn. repeat split.
  - rewrite length_firstn. lia.
  - rewrite length_firstn, length_skipn. lia.
  - rewrite !length_skipn. lia.
Qed.

Section PadWalk.
Context {env : AuthEnv}.
Variables (bs addr6 : list byte).
Hypothesis Haddr : length addr6 = IPV6_MAX_BYTELEN.

Lemma pad_tlv_length (t : tlv) :
  tlv_paddable t = true ->
  length (encode_tlv (pad_tlv addr6 t)) = length (encode_tlv t).
Proof.
  destruct t as [|ty v]; [reflexivity|].
  unfold tlv_paddable, pad_tlv. intros H. apply andb_true_iff in H as [_ H].
  destruct (Byte.eqb ty MESSAGE_HMAC); [|reflexivity].
  apply Nat.leb_le in H. cbn [encode_tlv length]. do 2 f_equal.
  rewrite !length_app, length_firstn, firstn_all2 by lia.
  rewrite zero_bytes_length. unfold IPV6_MAX_BYTELEN in *. lia.
Qed.

Lemma pad_tlv_wf (t : tlv) :
  tlv_paddable t = true -> tlv_paddable (pad_tlv addr6 t) = true.
Proof.
  destruct t as [|ty v]; [reflexivity|].
  unfold tlv_paddable, pad_tlv, tlv_wf. intros H.
  destruct (Byte.eqb ty MESSAGE_HMAC) eqn:E; [|now rewrite E].
  rewrite E. apply andb_true_iff in H as [H1 H2].
  apply andb_true_iff in H1 as [H0 H1].
  apply Nat.leb_le in H2. apply Nat.ltb_lt in H1.
  assert (Hl : length (firstn 2 v ++ firstn IPV6_MAX_BYTELEN addr6
                       ++ zero_bytes (length v - 2 - IPV6_MAX_BYTELEN))
               = length v).
  { rewrite !length_app, length_firstn, firstn_all2 by lia.
    rewrite zero_bytes_length. unfold IPV6_MAX_BYTELEN in *. lia. }
  rewrite Hl, H0. cbn [andb].
  apply andb_true_iff. split; [now apply Nat.ltb_lt|now apply Nat.leb_le].
Qed.

(** One turn of the padding loop passes one TLV of the packet and
    leaves its padded image in the copy. *)
Lemma pad_packet_loop_step (t : tlv) (rest done : list byte) (g fuel : nat) :
  tlv_paddable t = true ->
  reads_at bs g (encode_tlv t ++ rest) -> length done = g ->
  pad_packet_loop (S fuel) (packet_at bs g)
                  (padded_at (done ++ encode_tlv t ++ rest) g) addr6
  = pad_packet_loop fuel (packet_at bs (g + length (encode_tlv t)))
      (padded_at ((done ++ encode_tlv (pad_tlv addr6 t)) ++ rest)
                 (g + length (encode_tlv t))) addr6.
Proof.
  intros Hok Hr Hdone.
  cbn [pad_packet_loop].
  rewrite (STREAM_READABLE_at _ _ _ Hr), length_app.
  pose proof (encode_tlv_length_pos t) as Hpos.
  destruct (Nat.eqb_spec (length (encode_tlv t) + length rest) 0); [lia|].
  destruct t as [|ty v]; cbn [encode_tlv pad_tlv app length] in Hr |- *.
  - rewrite (stream_getc_at _ _ _ _ Hr).
    rewrite stream_forward_endp_padded
      by (rewrite length_app; simpl; lia).
    cbn [Byte.eqb]. change (Byte.eqb MESSAGE_PAD1 MESSAGE_PAD1) with true.
    cbv iota. now rewrite <- app_assoc.
  - unfold tlv_paddable, tlv_wf in Hok.
    apply andb_true_iff in Hok as [Hwf Hhm].
    apply andb_true_iff in Hwf as [Hpad Hlen].
    apply negb_true_iff in Hpad. apply Nat.ltb_lt in Hlen.
    rewrite (stream_getc_at _ _ _ _ Hr), Hpad.
    rewrite stream_forward_endp_padded
      by (rewrite length_app; simpl; lia).
    pose proof (reads_at_app bs [ty] _ g Hr) as Hr1. cbn [length] in Hr1.
    rewrite (stream_getc_at _ _ _ _ Hr1).
    rewrite stream_forward_endp_padded
      by (rewrite length_app; simpl; lia).
    pose proof (reads_at_app bs [_] _ _ Hr1) as Hr2. cbn [length] in Hr2.
    rewrite (byte_to_nat_of_Z _ Hlen).
    rewrite (stream_forward_getp_at _ _ _ _ Hr2).
    replace (g + 1 + 1 + length v)%nat with (g + S (S (length v)))%nat by lia.
    destruct (Byte.eqb ty MESSAGE_HMAC) eqn:Ehm; cbn [negb].
    + apply Nat.leb_le in Hhm.
      destruct (hmac_value_split v Hhm) as (k & d & dr & Hv & Hk & Lk & Ld & Ldr).
      rewrite Hk, <- Ldr.
      rewrite stream_forward_endp_padded
        by (rewrite length_app; simpl; rewrite length_app; lia).
      set (len := byte.of_Z (Z.of_nat (length v))).
      assert (Hdata : done ++ ty :: len :: v ++ rest
                      = (done ++ ty :: len :: k) ++ d ++ (dr ++ rest)).
      { rewrite Hv. app_norm. reflexivity. }
      assert (Hend : (g + 1 + 1 + 2 = length (done ++ ty :: len :: k))%nat).
      { rewrite length_app. simpl. lia. }
      unfold padded_at. rewrite Hdata, Hend.
      rewrite (stream_put_padded _ d _ (firstn IPV6_MAX_BYTELEN addr6))
        by (rewrite firstn_all2 by lia; congruence).
      assert (Hsz : byte.unsigned len - Z.of_nat IPV6_MAX_BYTELEN - 2
                    = Z.of_nat (length dr)).
      { unfold len. rewrite byte.unsigned_of_Z. unfold byte.wrap.
        rewrite Z.mod_small by lia. unfold IPV6_MAX_BYTELEN in *. lia. }
      rewrite Hsz.
      replace ((done ++ ty :: len :: k) ++ firstn IPV6_MAX_BYTELEN addr6
               ++ dr ++ rest)
        with (((done ++ ty :: len :: k) ++ firstn IPV6_MAX_BYTELEN addr6)
              ++ dr ++ rest) by (now rewrite <- !app_assoc).
      replace (length (done ++ ty :: len :: k)
               + length (firstn IPV6_MAX_BYTELEN addr6))%nat
        with (length ((done ++ ty :: len :: k)
                      ++ firstn IPV6_MAX_BYTELEN addr6))
        by (now rewrite length_app).
      rewrite (stream_put_zero_padded _ dr rest 0 (Z.of_nat (length dr)) eq_refl)
        by (unfold ULONG_MODULUS; lia).
      f_equal. unfold padded_at. f_equal.
      * cbn [encode_tlv].
        replace (length (k ++ firstn IPV6_MAX_BYTELEN addr6
                         ++ zero_bytes (length dr)))
          with (length v).
        -- fold len. app_norm. reflexivity.
        -- rewrite !length_app, zero_bytes_length, firstn_all2 by lia.
           unfold IPV6_MAX_BYTELEN in *. lia.
      * rewrite !length_app, firstn_all2 by lia. cbn [length].
        unfold IPV6_MAX_BYTELEN in *. lia.
    + rewrite stream_forward_endp_padded
        by (rewrite length_app; simpl; rewrite length_app; lia).
      f_equal. unfold padded_at. f_equal.
      * app_norm. reflexivity.
      * lia.
Qed.

Lemma pad_packet_loop_tlvs (tlvs : list tlv) :
  forallb tlv_paddable tlvs = true ->
  forall (done : list byte) (g fuel : nat),
  reads_at bs g (encode_tlvs tlvs) -> length done = g ->
  (length (encode_tlvs tlvs) < fuel)%nat ->
  pad_packet_loop fuel (packet_at bs g)
                  (padded_at (done ++ encode_tlvs tlvs) g) addr6
  = Some (packet_at bs (g + length (encode_tlvs tlvs)),
          padded_at (done ++ encode_tlvs (map (pad_tlv addr6) tlvs))
                    (g + length (encode_tlvs tlvs))).
Proof.
  induction tlvs as [|t tlvs IH]; intros Hok done g fuel Hr Hdone Hfuel.
  - destruct fuel as [|fuel]; [simpl in Hfuel; lia|].
    cbn [pad_packet_loop]. rewrite (STREAM_READABLE_at _ _ _ Hr).
    cbn [encode_tlvs flat_map length Nat.eqb map]. now rewrite Nat.add_0_r.
  - cbn [forallb] in Hok. apply andb_true_iff in Hok as [Ht Hok].
    cbn [encode_tlvs flat_map map] in *. fold (encode_tlvs tlvs) in *.
    fold (encode_tlvs (map (pad_tlv addr6) tlvs)).
    rewrite length_app in Hfuel |- *.
    pose proof (encode_tlv_length_pos t) as Hpos.
    destruct fuel as [|fuel]; [lia|].
    rewrite (pad_packet_loop_step t (encode_tlvs tlvs) done g fuel Ht Hr Hdone).
    rewrite (IH Hok (done ++ encode_tlv (pad_tlv addr6 t))
                (g + length (encode_tlv t))%nat fuel).
    + rewrite <- app_assoc, Nat.add_assoc. reflexivity.
    + now apply reads_at_app in Hr.
    + rewrite length_app, (pad_tlv_length t Ht). lia.
    + lia.
Qed.

End PadWalk.

Section PadPacket.
Context {env : AuthEnv}.
Variable addr6 : list byte.
Hypothesis Haddr : length addr6 = IPV6_MAX_BYTELEN.

(** The padded copy of a packet of well-formed TLVs holds the padded
    image of each TLV behind the unchanged header. *)
Lemma babel_auth_pad_packet_tlvs (hdr : list byte) (tlvs : list tlv) (g : nat) :
  length hdr = 4%nat -> forallb tlv_paddable tlvs = true ->
  babel_auth_pad_packet (packet_at (hdr ++ encode_tlvs tlvs) g) addr6
  = Some (packet_at (hdr ++ encode_tlvs (map (pad_tlv addr6) tlvs)) 0).
Proof.
  intros Hhdr Hok. unfold babel_auth_pad_packet, stream_dup, stream_reset.
  cbn [packet_at s_data s_getp s_endp].
  assert (Hr : reads_at (hdr ++ encode_tlvs tlvs) 4 (encode_tlvs tlvs))
    by (rewrite <- Hhdr; apply reads_at_start).
  fold (padded_at (hdr ++ encode_tlvs tlvs) 0).
  rewrite stream_forward_endp_padded by (rewrite length_app; lia).
  rewrite stream_set_getp_at by (rewrite length_app; lia).
  rewrite (STREAM_READABLE_at _ _ _ Hr). cbn [Nat.add].
  rewrite (pad_packet_loop_tlvs _ addr6 Haddr tlvs Hok hdr 4
             (S (length (encode_tlvs tlvs))) Hr Hhdr (Nat.lt_succ_diag_r _)).
  unfold stream_get_endp, packet_at, padded_at; cbn [s_endp].
  rewrite length_app, Hhdr, Nat.eqb_refl.
  do 2 f_equal. rewrite length_app, Hhdr. f_equal.
  clear - Haddr Hok. induction tlvs as [|t tlvs IH]; [reflexivity|].
  cbn [forallb] in Hok. apply andb_true_iff in Hok as [Ht Hok].
  cbn [encode_tlvs flat_map map]. rewrite !length_app.
  rewrite (pad_tlv_length addr6 Haddr t Ht). f_equal. now apply IH.
Qed.
End PadPacket.

(** C5: for a well-formed packet P (a 4-byte header followed by
    well-formed TLVs, the HMAC TLVs holding a key identifier and at least
    16 digest bytes) and a 16-byte sender address A, the padded copy has
    the length of P and is P with every TLV replaced by its padded image:
    a TLV that is not an HMAC TLV is copied verbatim, and an HMAC TLV of
    length L keeps its type, length and key_id bytes while its digest
    field of L-2 bytes becomes the 16 bytes of A followed by L-2-16 zero
    bytes. *)
Theorem pad_packet_postcondition {env : AuthEnv} (hdr : list byte)
    (tlvs : list tlv) (addr6 : list byte) :
  length hdr = 4%nat -> length addr6 = IPV6_MAX_BYTELEN ->
  forallb tlv_paddable tlvs = true ->
  let P := hdr ++ encode_tlvs tlvs in
  exists padded,
    babel_auth_pad_packet (packet_at P 0) addr6 = Some padded
    /\ stream_contents padded = hdr ++ encode_tlvs (map (pad_tlv addr6) tlvs)
    /\ length (stream_contents padded) = length P
    /\ Forall2 (fun t t' =>
                  match t with
                  | Pad1 => t' = Pad1
                  | Tlv ty v =>
                      if Byte.eqb ty MESSAGE_HMAC then
                        encode_tlv t'
                        = ty :: byte.of_Z (Z.of_nat (length v))
                             :: firstn 2 v ++ addr6
                                ++ zero_bytes (length v - 2 - 16)
                      else t' = t
                  end)
               tlvs (map (pad_tlv addr6) tlvs).
Proof.
  intros Hhdr Haddr Hok P. subst P.
  rewrite (babel_auth_pad_packet_tlvs addr6 Haddr hdr tlvs 0 Hhdr Hok).
  eexists. split; [reflexivity|].
  unfold stream_contents, packet_at; cbn [s_endp s_data].
  rewrite firstn_all. split; [reflexivity|]. split.
  - rewrite !length_app. f_equal.
    clear - Haddr Hok. induction tlvs as [|t tlvs IH]; [reflexivity|].
    cbn [forallb] in Hok. apply andb_true_iff in Hok as [Ht Hok].
    cbn [encode_tlvs flat_map map]. rewrite !length_app.
    rewrite (pad_tlv_length addr6 Haddr t Ht). f_equal. now apply IH.
  - clear - Haddr Hok. induction tlvs as [|t tlvs IH]; [constructor|].
    cbn [forallb] in Hok. apply andb_true_iff in Hok as [Ht Hok].
    cbn [map]. constructor; [|now apply IH].
    destruct t as [|ty v]; [reflexivity|].
    unfold pad_tlv. destruct (Byte.eqb ty MESSAGE_HMAC) eqn:E; [|reflexivity].
    unfold tlv_paddable in Ht. rewrite E in Ht.
    apply andb_true_iff in Ht as [_ Ht]. apply Nat.leb_le in Ht.
    cbn [encode_tlv].
    replace (firstn IPV6_MAX_BYTELEN addr6) with addr6
      by (symmetry; apply firstn_all2; lia).
    do 2 f_equal.
    rewrite !length_app, length_firstn, zero_bytes_length.
    unfold IPV6_MAX_BYTELEN in *. do 2 f_equal. lia.
Qed.

Lemma pad_packet_postcondition_witness :
  let tlvs := [Example.hello; Pad1; Example.tspc_tlv 5 100;
               Example.hmac_tlv 1 (repeat Byte.xaa 16)] in
  forallb (@tlv_paddable Example.env) tlvs = true
  /\ option_map stream_contents
       (@babel_auth_pad_packet Example.env
          (packet_at (Example.header ++ encode_tlvs tlvs) 0) Example.addr1)
     = Some (Example.header
             ++ encode_tlvs [Example.hello; Pad1; Example.tspc_tlv 5 100;
                             Example.hmac_tlv 1 Example.addr1]).
Proof.
  split; [reflexivity|].
  destruct (@pad_packet_postcondition Example.env Example.header
              [Example.hello; Pad1; Example.tspc_tlv 5 100;
               Example.hmac_tlv 1 (repeat Byte.xaa 16)]
              Example.addr1 eq_refl eq_refl eq_refl)
    as (padded & E1 & E2 & _).
  rewrite E1. cbn [option_map]. rewrite E2. reflexivity.
Defined.

(** ** Building packets *)

Lemma zero_bytes_app (n m : nat) :
  zero_bytes (n + m) = zero_bytes n ++ zero_bytes m.
Proof. apply repeat_app. Qed.

Lemma stream_put_building (content src : list byte) (free : nat) :
  (length src <= free)%nat ->
  stream_put (building content free) src
  = Some (building (content ++ src) (free - length src)).
Proof.
  intros Hfit. unfold building.
  replace free with (length src + (free - length src))%nat at 1 by lia.
  rewrite zero_bytes_app.
  rewrite (stream_put_padded content (zero_bytes (length src)) _ src 0)
    by apply zero_bytes_length.
  rewrite length_app, <- app_assoc. reflexivity.
Qed.

Lemma stream_put_zero_building (content : list byte) (free n : nat) (size : Z) :
  size = Z.of_nat n -> (n <= free)%nat -> size < ULONG_MODULUS ->
  stream_put_zero (building content free) (size_t_of_int size)
  = Some (building (content ++ zero_bytes n) (free - n)).
Proof.
  intros -> Hfit Hsmall. unfold building.
  replace free with (n + (free - n))%nat at 1 by lia.
  rewrite zero_bytes_app.
  pose proof (stream_put_zero_padded content (zero_bytes n)
                (zero_bytes (free - n)) 0 (Z.of_nat n)) as E.
  rewrite zero_bytes_length in E. rewrite (E eq_refl Hsmall).
  rewrite length_app, zero_bytes_length, <- app_assoc. reflexivity.
Qed.

Lemma stream_putw_at_building (a x b : list byte) (free : nat) (w : Z) :
  length x = 2%nat ->
  stream_putw_at (building (a ++ x ++ b) free) (length a) w
  = Some (building (a ++ bytes_of_u16 w ++ b) free).
Proof.
  intros Hx. unfold stream_putw_at, building; cbn [s_endp s_data s_getp].
  rewrite !length_app, Hx.
  destruct (Nat.leb_spec (length a + 2) (length a + (2 + length b))); [|lia].
  do 2 f_equal. rewrite <- !app_assoc. now apply mem_write_app.
Qed.

Lemma stream_contents_building (content : list byte) (free : nat) :
  stream_contents (building content free) = content.
Proof.
  unfold stream_contents, building; cbn [s_endp s_data].
  rewrite firstn_app, Nat.sub_diag, firstn_all. simpl. now rewrite app_nil_r.
Qed.

Section Placeholders.
Context {env : AuthEnv}.
Variable addr6 : list byte.
Hypothesis Haddr : length addr6 = IPV6_MAX_BYTELEN.

Lemma digest_placeholder_length (esa : babel_esa_item) :
  esa_digest_fits esa = true ->
  length (digest_placeholder addr6 esa) = hash_digest_length (hash_algo esa).
Proof.
  unfold esa_digest_fits, digest_placeholder. intros H.
  apply andb_true_iff in H as [H _]. apply Nat.leb_le in H.
  rewrite length_app, zero_bytes_length, firstn_all2 by lia. lia.
Qed.

Lemma hmac_tlv_of_length (esa : babel_esa_item) (digest : list byte) :
  length digest = hash_digest_length (hash_algo esa) ->
  length (encode_tlv (hmac_tlv_of esa digest))
  = (4 + hash_digest_length (hash_algo esa))%nat.
Proof.
  intros H. unfold hmac_tlv_of. cbn [encode_tlv length].
  rewrite length_app, H. reflexivity.
Qed.

Lemma hmac_tlvs_space_cons (esa : babel_esa_item) (esas : list babel_esa_item) :
  hmac_tlvs_space (esa :: esas)
  = (4 + hash_digest_length (hash_algo esa) + hmac_tlvs_space esas)%nat.
Proof. reflexivity. Qed.

Lemma digest_offsets_at_ext (esas : list babel_esa_item) :
  forall (off off' : nat -> nat) (hd base : nat),
  (forall i, (hd <= i)%nat -> off' i = off i) ->
  digest_offsets_at off hd base esas -> digest_offsets_at off' hd base esas.
Proof.
  induction esas as [|esa rest IH]; intros off off' hd base Hext H; [exact I|].
  destruct H as [H0 H]. split.
  - rewrite Hext by lia. exact H0.
  - apply (IH off); [intros i Hi; apply Hext; lia|exact H].
Qed.

(** The loop of placeholders appends the HMAC TLV of each ESA it gets
    to, with the placeholder in the place of the digest, and records
    where the digests go. *)
Lemma make_placeholders_building (esalist : list babel_esa_item) :
  forall (content : list byte) (free hd : nat) (off : nat -> nat),
  (hd < BABEL_MAXDIGESTSOUT)%nat ->
  forallb esa_digest_fits (esas_sent hd esalist) = true ->
  (hmac_tlvs_space (esas_sent hd esalist) <= free)%nat ->
  exists off',
    make_placeholders esalist (building content free) addr6 hd off
    = Some (building
              (content
               ++ encode_tlvs
                    (map (fun esa =>
                            hmac_tlv_of esa (digest_placeholder addr6 esa))
                         (esas_sent hd esalist)))
              (free - hmac_tlvs_space (esas_sent hd esalist)),
            off')
    /\ digest_offsets_at off' hd (length content) (esas_sent hd esalist)
    /\ (forall i, (i < hd)%nat -> off' i = off i).
Proof.
  induction esalist as [|esa rest IH]; intros content free hd off Hhd Hfit Hspace.
  - exists off. unfold esas_sent. rewrite firstn_nil.
    cbn [make_placeholders map encode_tlvs flat_map hmac_tlvs_space list_sum].
    rewrite app_nil_r, Nat.sub_0_r.
    split; [reflexivity|]. split; [exact I|reflexivity].
  - unfold esas_sent in *.
    destruct (BABEL_MAXDIGESTSOUT - hd)%nat as [|k] eqn:Ek; [lia|].
    cbn [firstn forallb map] in *.
    apply andb_true_iff in Hfit as [He Hfit].
    rewrite hmac_tlvs_space_cons in Hspace |- *.
    pose proof He as He'. unfold esa_digest_fits in He'.
    apply andb_true_iff in He' as [Hlo Hhi].
    apply Nat.leb_le in Hlo. apply Nat.leb_le in Hhi.
    set (dlen := hash_digest_length (hash_algo esa)) in *.
    cbn [make_placeholders]. fold dlen.
    unfold stream_putc, stream_putw.
    rewrite stream_put_building by (cbn [length]; lia).
    rewrite stream_put_building by (cbn [length]; lia).
    rewrite stream_put_building by (cbn [length bytes_of_u16]; lia).
    rewrite stream_put_building
      by (rewrite firstn_all2 by lia; cbn [length bytes_of_u16];
          unfold IPV6_MAX_BYTELEN in *; lia).
    rewrite (stream_put_zero_building _ _ (dlen - IPV6_MAX_BYTELEN))
      by (rewrite ?firstn_all2 by lia; cbn [length bytes_of_u16];
          unfold IPV6_MAX_BYTELEN, ULONG_MODULUS in *; lia).
    set (tlv_bytes := encode_tlv (hmac_tlv_of esa (digest_placeholder addr6 esa))).
    assert (Hbytes :
      ((((content ++ [MESSAGE_HMAC]) ++ [byte.of_Z (2 + Z.of_nat dlen)])
         ++ bytes_of_u16 (key_id esa)) ++ firstn IPV6_MAX_BYTELEN addr6)
      ++ zero_bytes (dlen - IPV6_MAX_BYTELEN) = content ++ tlv_bytes).
    { unfold tlv_bytes, hmac_tlv_of, digest_placeholder. cbn [encode_tlv].
      fold dlen. rewrite !length_app, zero_bytes_length, firstn_all2 by lia.
      replace (Z.of_nat (length (bytes_of_u16 (key_id esa))
                         + (length addr6 + (dlen - IPV6_MAX_BYTELEN))))
        with (2 + Z.of_nat dlen)
        by (cbn [bytes_of_u16 length]; unfold IPV6_MAX_BYTELEN in *; lia).
      app_norm. reflexivity. }
    rewrite Hbytes.
    assert (Hfree :
      (free - length [MESSAGE_HMAC] - length [byte.of_Z (2 + Z.of_nat dlen)]
       - length (bytes_of_u16 (key_id esa))
       - length (firstn IPV6_MAX_BYTELEN addr6) - (dlen - IPV6_MAX_BYTELEN)
       = free - (4 + dlen))%nat).
    { rewrite firstn_all2 by lia. cbn [bytes_of_u16 length].
      unfold IPV6_MAX_BYTELEN in *. lia. }
    rewrite Hfree.
    assert (Hoff : stream_get_endp
                     (building (((content ++ [MESSAGE_HMAC])
                                 ++ [byte.of_Z (2 + Z.of_nat dlen)])
                                ++ bytes_of_u16 (key_id esa))
                               (free - length [MESSAGE_HMAC]
                                - length [byte.of_Z (2 + Z.of_nat dlen)]
                                - length (bytes_of_u16 (key_id esa))))
                   = (length content + 4)%nat).
    { unfold stream_get_endp, building; cbn [s_endp].
      rewrite !length_app. cbn [bytes_of_u16 length]. lia. }
    rewrite Hoff.
    assert (Hlen : length tlv_bytes = (4 + dlen)%nat).
    { apply hmac_tlv_of_length. now apply digest_placeholder_length. }
    cbn [encode_tlvs flat_map].
    fold (encode_tlvs (map (fun esa0 =>
            hmac_tlv_of esa0 (digest_placeholder addr6 esa0)) (firstn k rest))).
    fold tlv_bytes.
    destruct (Nat.eqb_spec (S hd) BABEL_MAXDIGESTSOUT) as [Hcap|Hcap].
    + assert (k = 0)%nat by lia. subst k. cbn [firstn map encode_tlvs flat_map].
      eexists. split; [|split].
      * rewrite app_nil_r. unfold hmac_tlvs_space at 1. cbn [map list_sum].
        rewrite Nat.add_0_r. reflexivity.
      * cbn [digest_offsets_at]. cbv beta. rewrite Nat.eqb_refl. auto.
      * intros i Hi. cbv beta. destruct (Nat.eqb_spec i hd); [lia|reflexivity].
    + set (off1 := fun i => if (i =? hd)%nat then (length content + 4)%nat
                            else off i).
      destruct (IH (content ++ tlv_bytes) (free - (4 + dlen))%nat (S hd) off1)
        as (off' & Hmk & Hoffs & Hlow).
      * lia.
      * replace (BABEL_MAXDIGESTSOUT - S hd)%nat with k by lia. exact Hfit.
      * replace (BABEL_MAXDIGESTSOUT - S hd)%nat with k by lia. lia.
      * replace (BABEL_MAXDIGESTSOUT - S hd)%nat with k in * by lia.
        exists off'. split; [|split].
        -- rewrite Hmk. rewrite <- app_assoc.
           do 3 f_equal. lia.
        -- cbn [digest_offsets_at]. split.
           ++ rewrite Hlow by lia. unfold off1. now rewrite Nat.eqb_refl.
           ++ rewrite length_app, Hlen in Hoffs.
              replace (length content + 4 + hash_digest_length (hash_algo esa))%nat
                with (length content + (4 + dlen))%nat by (unfold dlen; lia).
              exact Hoffs.
        -- intros i Hi. rewrite Hlow by lia. unfold off1. cbv beta.
           destruct (Nat.eqb_spec i hd); [lia|reflexivity].
Qed.
End Placeholders.

Section Digests.
Context {env : AuthEnv}.
Variables (addr6 : list byte) (padded : stream).
Hypothesis Haddr : length addr6 = IPV6_MAX_BYTELEN.

(** A failure of the primitive for one of the ESAs the loop gets to makes
    the loop fail. *)
Lemma make_digests_error (esa : babel_esa_item) (esalist : list babel_esa_item) :
  forall (packet : stream) (off : nat -> nat) (hd : nat),
  (hd < BABEL_MAXDIGESTSOUT)%nat ->
  In esa (esas_sent hd esalist) ->
  hash_make_hmac (hash_algo esa) (stream_contents padded)
                 (firstn (key_len esa) (key_secret esa)) = None ->
  make_digests esalist packet padded off hd = None.
Proof.
  induction esalist as [|e rest IH]; intros packet off hd Hhd Hin Herr.
  - unfold esas_sent in Hin. rewrite firstn_nil in Hin. contradiction.
  - unfold esas_sent in Hin.
    destruct (BABEL_MAXDIGESTSOUT - hd)%nat as [|k] eqn:Ek; [lia|].
    cbn [firstn] in Hin. cbn [make_digests].
    destruct (hash_make_hmac (hash_algo e) _ _) as [d|] eqn:Ed; [|reflexivity].
    destruct Hin as [->|Hin]; [congruence|].
    destruct (Nat.eqb_spec (S hd) BABEL_MAXDIGESTSOUT) as [Hcap|Hcap].
    + assert (k = 0)%nat by lia. subst k. contradiction.
    + apply IH; [lia| |assumption].
      unfold esas_sent. now replace (BABEL_MAXDIGESTSOUT - S hd)%nat with k by lia.
Qed.

(** When the primitive succeeds for the ESAs the loop gets to, the loop
    writes each digest over its placeholder. *)
Lemma make_digests_filled (esalist : list babel_esa_item) :
  forall (pre post : list byte) (g e : nat) (off : nat -> nat) (hd : nat),
  (hd < BABEL_MAXDIGESTSOUT)%nat ->
  forallb esa_digest_fits (esas_sent hd esalist) = true ->
  Forall (esa_digest_ok (stream_contents padded)) (esas_sent hd esalist) ->
  digest_offsets_at off hd (length pre) (esas_sent hd esalist) ->
  make_digests esalist
    {| s_data := pre
                 ++ encode_tlvs
                      (map (fun esa =>
                              hmac_tlv_of esa (digest_placeholder addr6 esa))
                           (esas_sent hd esalist))
                 ++ post;
       s_getp := g; s_endp := e |} padded off hd
  = Some {| s_data := pre
                      ++ encode_tlvs
                           (map (fun esa =>
                                   hmac_tlv_of esa
                                     (esa_digest (stream_contents padded) esa))
                                (esas_sent hd esalist))
                      ++ post;
            s_getp := g; s_endp := e |}.
Proof.
  induction esalist as [|esa rest IH]; intros pre post g e off hd Hhd Hfit Hok Hoff.
  - unfold esas_sent. rewrite firstn_nil. reflexivity.
  - unfold esas_sent in *.
    destruct (BABEL_MAXDIGESTSOUT - hd)%nat as [|k] eqn:Ek; [lia|].
    cbn [firstn forallb map encode_tlvs flat_map digest_offsets_at] in *.
    apply andb_true_iff in Hfit as [He Hfit].
    apply Forall_cons_iff in Hok as [(d & Hd & Hdlen) Hok].
    destruct Hoff as [Hoff0 Hoff].
    cbn [make_digests s_data s_getp s_endp]. rewrite Hd, Hoff0.
    fold (encode_tlvs (map (fun esa0 =>
            hmac_tlv_of esa0 (digest_placeholder addr6 esa0)) (firstn k rest))).
    fold (encode_tlvs (map (fun esa0 =>
            hmac_tlv_of esa0 (esa_digest (stream_contents padded) esa0))
            (firstn k rest))).
    assert (Edig : esa_digest (stream_contents padded) esa = d)
      by (unfold esa_digest; now rewrite Hd).
    rewrite Edig.
    pose proof (digest_placeholder_length addr6 Haddr esa He) as Hph.
    set (ph := digest_placeholder addr6 esa) in *.
    set (tail_ph := encode_tlvs (map (fun esa0 =>
            hmac_tlv_of esa0 (digest_placeholder addr6 esa0)) (firstn k rest))).
    assert (Hw :
      mem_write (pre ++ (encode_tlv (hmac_tlv_of esa ph) ++ tail_ph) ++ post)
                (length pre + 4) d
      = (pre ++ encode_tlv (hmac_tlv_of esa d)) ++ tail_ph ++ post).
    { unfold hmac_tlv_of. cbn [encode_tlv].
      rewrite !length_app, Hph, Hdlen.
      set (len := byte.of_Z _).
      replace (pre ++ ((MESSAGE_HMAC :: len :: bytes_of_u16 (key_id esa) ++ ph)
                       ++ tail_ph) ++ post)
        with ((pre ++ MESSAGE_HMAC :: len :: bytes_of_u16 (key_id esa))
              ++ ph ++ (tail_ph ++ post)) by (app_norm; reflexivity).
      replace (length pre + 4)%nat
        with (length (pre ++ MESSAGE_HMAC :: len :: bytes_of_u16 (key_id esa)))
        by (rewrite length_app; cbn [length bytes_of_u16]; lia).
      rewrite mem_write_app by congruence.
      app_norm. reflexivity. }
    rewrite Hw.
    destruct (Nat.eqb_spec (S hd) BABEL_MAXDIGESTSOUT) as [Hcap|Hcap].
    + assert (k = 0)%nat by lia. subst k tail_ph.
      cbn [firstn map encode_tlvs flat_map]. app_norm. reflexivity.
    + replace (BABEL_MAXDIGESTSOUT - S hd)%nat with k in IH by lia.
      assert (Hk : forall hd', hd' = S hd ->
                (BABEL_MAXDIGESTSOUT - hd' = k)%nat) by (intros; lia).
      specialize (IH (pre ++ encode_tlv (hmac_tlv_of esa d)) post g e off (S hd)).
      rewrite (Hk (S hd) eq_refl) in IH. unfold tail_ph.
      rewrite IH.
      * app_norm. reflexivity.
      * lia.
      * exact Hfit.
      * exact Hok.
      * rewrite length_app, (hmac_tlv_of_length esa d Hdlen).
        replace (length pre + (4 + hash_digest_length (hash_algo esa)))%nat
          with (length pre + 4 + hash_digest_length (hash_algo esa))%nat by lia.
        exact Hoff.
Qed.
End Digests.

(** ** The outbound builder *)

Lemma hmac_tlvs_space_filled {env : AuthEnv} (msg : list byte)
    (esas : list babel_esa_item) :
  Forall (esa_digest_ok msg) esas ->
  length (encode_tlvs (map (fun esa => hmac_tlv_of esa (esa_digest msg esa)) esas))
  = hmac_tlvs_space esas.
Proof.
  induction 1 as [|esa rest (d & Hd & Hlen) _ IH]; [reflexivity|].
  cbn [map encode_tlvs flat_map]. rewrite length_app, hmac_tlvs_space_cons.
  fold (encode_tlvs (map (fun esa0 => hmac_tlv_of esa0 (esa_digest msg esa0)) rest)).
  rewrite IH. f_equal. apply hmac_tlv_of_length.
  unfold esa_digest. now rewrite Hd.
Qed.

Lemma hmac_tlvs_space_placeholders {env : AuthEnv} (addr6 : list byte)
    (esas : list babel_esa_item) :
  length addr6 = IPV6_MAX_BYTELEN ->
  forallb esa_digest_fits esas = true ->
  length (encode_tlvs (map (fun esa =>
            hmac_tlv_of esa (digest_placeholder addr6 esa)) esas))
  = hmac_tlvs_space esas.
Proof.
  intros Haddr. induction esas as [|esa rest IH]; intros Hfit; [reflexivity|].
  cbn [forallb] in Hfit. apply andb_true_iff in Hfit as [He Hfit].
  cbn [map encode_tlvs flat_map]. rewrite length_app, hmac_tlvs_space_cons.
  fold (encode_tlvs (map (fun esa0 =>
          hmac_tlv_of esa0 (digest_placeholder addr6 esa0)) rest)).
  rewrite (IH Hfit). f_equal. apply hmac_tlv_of_length.
  now apply digest_placeholder_length.
Qed.

Section MakePacket.
Context {env : AuthEnv}.
Variables (st : auth_state) (ifp : interface) (buffer : list byte).
Variables (body_len : nat) (now : Z) (addr6 : list byte).
Hypothesis Hcsa : csalist (info ifp) <> [].
Hypothesis Hsrc : babel_auth_got_source_address ifp = Some addr6.
Hypothesis Hbody : (body_len <= length buffer)%nat.

Let body := firstn body_len buffer.
Let b' := babel_auth_bump_tspc (ts_base st) (info ifp) now.
Let ifp' := set_info ifp b'.
Let esalist := babel_esalist_derive (csalist (info ifp)) now keys_valid_for_send.
Let sent := esas_sent 0 esalist.
Let pools' :=
  if (length esalist =? 0)%nat
  then bump incr_auth_sent_ng_nokeys (pools_of st ifp) else pools_of st ifp.
Let M := padded_image body b' addr6 sent.

(** Either there is no ESA, or the loops over the ESAs run with a
    16-byte address and a positive cap. *)
Hypothesis Hloop :
  esalist = []
  \/ (length addr6 = IPV6_MAX_BYTELEN /\ (0 < BABEL_MAXDIGESTSOUT)%nat).
Hypothesis Hfit : forallb esa_digest_fits sent = true.
Hypothesis Hspace : (8 + hmac_tlvs_space sent <= BABEL_MAXAUTHSPACE)%nat.

(** Up to the loop of digests the builder has laid out the image to hash
    in the scratch packet. *)
Lemma make_packet_scratch :
  exists off free,
    digest_offsets_at off 0 (4 + body_len + 8) sent
    /\ babel_auth_make_packet st ifp buffer body_len now
       = match make_digests esalist (building M free) (building M free) off 0 with
         | None =>
             Some (make_end (Z.of_nat body_len) st ifp'
                            (bump incr_internal_err pools') buffer)
         | Some packet =>
             Some (make_end (Z.of_nat (body_len + 8 + hmac_tlvs_space sent)) st ifp'
                     (bump incr_auth_sent pools')
                     (mem_write buffer body_len
                        (firstn (8 + hmac_tlvs_space sent)
                                (skipn (4 + body_len) (stream_get_data packet)))))
         end.
Proof.
  unfold babel_auth_make_packet.
  assert (Hlen : (length (csalist (info ifp)) =? 0)%nat = false)
    by (destruct (csalist (info ifp)); [congruence|reflexivity]).
  rewrite Hlen, Hsrc. fold esalist. fold pools'. fold b'. fold ifp'.
  assert (Lbody : length body = body_len)
    by (unfold body; rewrite length_firstn; lia).
  fold body.
  change (stream_new (4 + body_len + BABEL_MAXAUTHSPACE))
    with (building [] (4 + body_len + BABEL_MAXAUTHSPACE)).
  unfold stream_putc, stream_putw, stream_putl.
  repeat (rewrite stream_put_building
            by (cbn [length bytes_of_u16 bytes_of_u32 app];
                rewrite ?Lbody; lia)).
  set (tspc := encode_tlv (tspc_tlv_of b')).
  assert (Ltspc : length tspc = 8%nat) by reflexivity.
  match goal with
  | |- context [make_placeholders esalist (building ?c ?f)] =>
      replace c with (([RTPROT_BABEL; Byte.x02] ++ bytes_of_u16 0 ++ body) ++ tspc)
        by (unfold tspc, tspc_tlv_of; cbn [encode_tlv length app];
            app_norm; reflexivity);
      set (free0 := f)
  end.
  assert (Hfree0 : (free0 = BABEL_MAXAUTHSPACE - 8)%nat).
  { unfold free0. cbn [length bytes_of_u16 bytes_of_u32]. rewrite Lbody. lia. }
  set (ph := encode_tlvs (map (fun esa =>
                hmac_tlv_of esa (digest_placeholder addr6 esa)) sent)) in *.
  assert (Hph :
    exists off,
      make_placeholders esalist
        (building (([RTPROT_BABEL; Byte.x02] ++ bytes_of_u16 0 ++ body) ++ tspc)
                  free0) addr6 0 (fun _ => 0%nat)
      = Some (building ((([RTPROT_BABEL; Byte.x02] ++ bytes_of_u16 0 ++ body)
                         ++ tspc) ++ ph)
                       (free0 - hmac_tlvs_space sent), off)
      /\ digest_offsets_at off 0
           (length (([RTPROT_BABEL; Byte.x02] ++ bytes_of_u16 0 ++ body) ++ tspc))
           sent
      /\ length ph = hmac_tlvs_space sent).
  { destruct Hloop as [Hnil|[Haddr Hmax]].
    - exists (fun _ => 0%nat). unfold ph, sent, esas_sent. rewrite Hnil.
      rewrite firstn_nil. cbn [make_placeholders map encode_tlvs flat_map].
      rewrite app_nil_r. unfold hmac_tlvs_space; cbn [map list_sum].
      rewrite Nat.sub_0_r. repeat split.
    - destruct (make_placeholders_building addr6 Haddr esalist
                  (([RTPROT_BABEL; Byte.x02] ++ bytes_of_u16 0 ++ body) ++ tspc)
                  free0 0 (fun _ => 0%nat) Hmax Hfit)
        as (off & Hmk & Hoffs & _); [fold sent; lia|].
      exists off. split; [exact Hmk|]. split; [exact Hoffs|].
      now apply hmac_tlvs_space_placeholders. }
  destruct Hph as (off & Hmk & Hoffs & Lph).
  rewrite Hmk. clear Hmk.
  assert (Eendp : forall c f, stream_get_endp (building c f) = length c)
    by reflexivity.
  rewrite !Eendp.
  assert (Lall : (length ((([RTPROT_BABEL; Byte.x02] ++ bytes_of_u16 0 ++ body)
                           ++ tspc) ++ ph) - 4
                  = body_len + 8 + hmac_tlvs_space sent)%nat).
  { rewrite !length_app, Lbody, Ltspc, Lph. cbn [length bytes_of_u16]. lia. }
  rewrite Lall.
  replace ((([RTPROT_BABEL; Byte.x02] ++ bytes_of_u16 0 ++ body) ++ tspc) ++ ph)
    with ([RTPROT_BABEL; Byte.x02] ++ bytes_of_u16 0 ++ (body ++ tspc ++ ph))
    by (app_norm; reflexivity).
  pose proof (stream_putw_at_building [RTPROT_BABEL; Byte.x02] (bytes_of_u16 0)
                (body ++ tspc ++ ph) (free0 - hmac_tlvs_space sent)
                (Z.of_nat (body_len + 8 + hmac_tlvs_space sent)) eq_refl) as Eput.
  cbn [length] in Eput. rewrite Eput. clear Eput.
  assert (EM : [RTPROT_BABEL; Byte.x02]
               ++ bytes_of_u16 (Z.of_nat (body_len + 8 + hmac_tlvs_space sent))
               ++ body ++ tspc ++ ph = M).
  { unfold M, padded_image, packet_header. rewrite Lbody.
    fold tspc. fold ph. app_norm. reflexivity. }
  rewrite EM. unfold stream_dup.
  exists off, (free0 - hmac_tlvs_space sent)%nat. split.
  - rewrite !length_app, Lbody, Ltspc in Hoffs.
    cbn [length bytes_of_u16] in Hoffs.
    replace (4 + body_len + 8)%nat with (2 + (2 + body_len) + 8)%nat by lia.
    exact Hoffs.
  - destruct (make_digests esalist _ _ off 0) as [packet|]; [|reflexivity].
    replace (body_len + 8 + hmac_tlvs_space sent - body_len)%nat
      with (8 + hmac_tlvs_space sent)%nat by lia.
    reflexivity.
Qed.

(** A failure of the primitive leaves the caller's buffer as it was. *)
Lemma make_packet_hash_error (esa : babel_esa_item) :
  In esa sent ->
  hash_make_hmac (hash_algo esa) M (firstn (key_len esa) (key_secret esa)) = None ->
  babel_auth_make_packet st ifp buffer body_len now
  = Some (make_end (Z.of_nat body_len) st ifp'
                   (bump incr_internal_err pools') buffer).
Proof.
  intros Hin Herr.
  destruct make_packet_scratch as (off & free & _ & ->).
  destruct Hloop as [Hnil|[Haddr Hmax]].
  - exfalso. unfold sent, esas_sent in Hin. rewrite Hnil, firstn_nil in Hin.
    contradiction.
  - rewrite (make_digests_error addr6 (building M free) Haddr esa esalist
               (building M free) off 0 Hmax Hin); [reflexivity|].
    now rewrite stream_contents_building.
Qed.

(** When the primitive succeeds, the TS/PC TLV and the HMAC TLVs with
    the digests of the padded image are appended to the body. *)
Lemma make_packet_authenticated :
  Forall (esa_digest_ok M) sent ->
  babel_auth_make_packet st ifp buffer body_len now
  = Some (make_end (Z.of_nat (body_len + 8 + hmac_tlvs_space sent)) st ifp'
            (bump incr_auth_sent pools')
            (mem_write buffer body_len (encode_tlvs (auth_tlvs b' M sent)))).
Proof.
  intros Hok.
  destruct make_packet_scratch as (off & free & Hoffs & ->).
  assert (Lbody : length body = body_len)
    by (unfold body; rewrite length_firstn; lia).
  set (hdr := packet_header (Z.of_nat (length body + 8 + hmac_tlvs_space sent))).
  set (tspc := encode_tlv (tspc_tlv_of b')).
  assert (Lpre : length (hdr ++ body ++ tspc) = (4 + body_len + 8)%nat).
  { rewrite !length_app, Lbody. reflexivity. }
  assert (EM : building M free
               = {| s_data := (hdr ++ body ++ tspc)
                              ++ encode_tlvs
                                   (map (fun esa => hmac_tlv_of esa
                                           (digest_placeholder addr6 esa))
                                        (esas_sent 0 esalist))
                              ++ zero_bytes free;
                    s_getp := 0; s_endp := length M |}).
  { unfold building. f_equal. unfold M, padded_image. fold hdr. fold tspc.
    fold sent. app_norm. reflexivity. }
  rewrite EM at 1.
  assert (Hdig :
    make_digests esalist
      {| s_data := (hdr ++ body ++ tspc)
                   ++ encode_tlvs
                        (map (fun esa => hmac_tlv_of esa
                                (digest_placeholder addr6 esa))
                             (esas_sent 0 esalist))
                   ++ zero_bytes free;
         s_getp := 0; s_endp := length M |} (building M free) off 0
    = Some {| s_data := (hdr ++ body ++ tspc)
                        ++ encode_tlvs
                             (map (fun esa => hmac_tlv_of esa
                                     (esa_digest (stream_contents
                                                    (building M free)) esa))
                                  (esas_sent 0 esalist))
                        ++ zero_bytes free;
              s_getp := 0; s_endp := length M |}).
  { destruct Hloop as [Hnil|[Haddr Hmax]].
    - unfold esas_sent. rewrite Hnil, firstn_nil. reflexivity.
    - apply (make_digests_filled addr6 (building M free) Haddr esalist
               (hdr ++ body ++ tspc) (zero_bytes free) 0 (length M) off 0 Hmax).
      + exact Hfit.
      + rewrite stream_contents_building. exact Hok.
      + rewrite Lpre. exact Hoffs. }
  rewrite Hdig. clear Hdig.
  - fold sent. rewrite stream_contents_building.
    unfold stream_get_data; cbn [s_data].
    do 3 f_equal.
    replace (4 + body_len)%nat with (length (hdr ++ body))
      by (rewrite length_app, Lbody; reflexivity).
    replace ((hdr ++ body ++ tspc) ++ encode_tlvs
               (map (fun esa => hmac_tlv_of esa (esa_digest M esa)) sent)
             ++ zero_bytes free)
      with ((hdr ++ body) ++ encode_tlvs (auth_tlvs b' M sent) ++ zero_bytes free)
      by (unfold auth_tlvs; cbn [encode_tlvs flat_map]; fold tspc;
          app_norm; reflexivity).
    rewrite skipn_app, Nat.sub_diag, skipn_all. cbn [app skipn].
    rewrite firstn_app.
    assert (Lauth : length (encode_tlvs (auth_tlvs b' M sent))
                    = (8 + hmac_tlvs_space sent)%nat).
    { unfold auth_tlvs. cbn [encode_tlvs flat_map]. rewrite length_app.
      fold (encode_tlvs (map (fun esa => hmac_tlv_of esa (esa_digest M esa)) sent)).
      rewrite (hmac_tlvs_space_filled M sent Hok). reflexivity. }
    rewrite <- Lauth, Nat.sub_diag, firstn_all. cbn [firstn].
    now rewrite app_nil_r.
Qed.
End MakePacket.

(** C8: when the HMAC primitive reports an error for one of the ESAs the
    outbound builder computes a digest for, the builder increments
    internal_err in the global and in the interface's counters, returns
    the original body_len and leaves the caller's buffer byte for byte as
    it was; no packet is counted as sent. *)
Theorem make_packet_atomic_on_hmac_error {env : AuthEnv} (st : auth_state)
    (ifp : interface) (buffer : list byte) (body_len : nat) (now : Z)
    (addr6 : list byte) (esa : babel_esa_item) :
  let esalist :=
    babel_esalist_derive (csalist (info ifp)) now keys_valid_for_send in
  let sent := esas_sent 0 esalist in
  let b' := babel_auth_bump_tspc (ts_base st) (info ifp) now in
  csalist (info ifp) <> [] ->
  babel_auth_got_source_address ifp = Some addr6 ->
  length addr6 = IPV6_MAX_BYTELEN ->
  (0 < BABEL_MAXDIGESTSOUT)%nat ->
  (body_len <= length buffer)%nat ->
  forallb esa_digest_fits sent = true ->
  (8 + hmac_tlvs_space sent <= BABEL_MAXAUTHSPACE)%nat ->
  In esa sent ->
  hash_make_hmac (hash_algo esa)
                 (padded_image (firstn body_len buffer) b' addr6 sent)
                 (firstn (key_len esa) (key_secret esa)) = None ->
  exists r,
    babel_auth_make_packet st ifp buffer body_len now = Some r
    /\ mk_ret r = Z.of_nat body_len
    /\ mk_body r = buffer
    /\ internal_err (stats (mk_state r)) = ulong_incr (internal_err (stats st))
    /\ internal_err (auth_stats (info (mk_ifp r)))
       = ulong_incr (internal_err (auth_stats (info ifp)))
    /\ auth_sent (stats (mk_state r)) = auth_sent (stats st)
    /\ auth_sent (auth_stats (info (mk_ifp r))) = auth_sent (auth_stats (info ifp)).
Proof.
  intros esalist sent b' Hcsa Hsrc Haddr Hmax Hbody Hfit Hspace Hin Herr.
  rewrite (make_packet_hash_error st ifp buffer body_len now addr6 Hcsa Hsrc Hbody
             (or_intror (conj Haddr Hmax)) Hfit Hspace esa Hin Herr).
  eexists. split; [reflexivity|].
  unfold make_end, store_pools; cbn [mk_ret mk_body mk_state mk_ifp fst snd].
  do 2 (split; [reflexivity|]).
  fold esalist. destruct (length esalist =? 0)%nat; repeat split.
Qed.

Lemma make_packet_atomic_on_hmac_error_witness :
  let st := Example.state BABEL_TS_BASE_UNIX [] in
  let ifp := Example.iface 1 (Example.babel_if [Example.csa_failing] true 0 0) in
  exists r,
    @babel_auth_make_packet Example.env st ifp Example.buffer 8 1000 = Some r
    /\ mk_ret r = 8 /\ mk_body r = Example.buffer
    /\ internal_err (stats (mk_state r)) = 1.
Proof.
  destruct (@make_packet_atomic_on_hmac_error Example.env
              (Example.state BABEL_TS_BASE_UNIX [])
              (Example.iface 1 (Example.babel_if [Example.csa_failing] true 0 0))
              Example.buffer 8 1000 Example.addr1
              {| sort_order_major := 0; sort_order_minor := 0; hash_algo := 2;
                 key_id := 1; key_len := 2; key_secret := Example.secret1 |})
    as (r & Hr & Hret & Hbody & Herr & _).
  - discriminate.
  - reflexivity.
  - reflexivity.
  - apply Nat.ltb_lt. reflexivity.
  - apply Nat.leb_le. reflexivity.
  - reflexivity.
  - apply Nat.leb_le. reflexivity.
  - left. reflexivity.
  - reflexivity.
  - exists r. repeat split; assumption.
Defined.

(** C9, as amended: on an interface with CSAs and a link-local address
    whose send-filtered ESA list is empty, the outbound builder does not
    return the body unchanged: it advances the send counters, appends
    exactly one TS/PC TLV of 8 bytes carrying them and no HMAC TLV,
    returns body_len + 8 and increments both auth_sent_ng_nokeys and
    auth_sent, in the global and in the interface's counters. *)
Theorem make_packet_without_keys {env : AuthEnv} (st : auth_state)
    (ifp : interface) (buffer : list byte) (body_len : nat) (now : Z)
    (addr6 : list byte) :
  let b' := babel_auth_bump_tspc (ts_base st) (info ifp) now in
  csalist (info ifp) <> [] ->
  babel_auth_got_source_address ifp = Some addr6 ->
  babel_esalist_derive (csalist (info ifp)) now keys_valid_for_send = [] ->
  (body_len <= length buffer)%nat ->
  (8 <= BABEL_MAXAUTHSPACE)%nat ->
  exists r,
    babel_auth_make_packet st ifp buffer body_len now = Some r
    /\ mk_ret r = Z.of_nat body_len + 8
    /\ firstn (body_len + 8) (mk_body r)
       = firstn body_len buffer
         ++ MESSAGE_TSPC :: Byte.x06
            :: bytes_of_u16 (auth_packetcounter b')
               ++ bytes_of_u32 (auth_timestamp b')
    /\ mk_body r = mem_write buffer body_len (encode_tlv (tspc_tlv_of b'))
    /\ auth_timestamp (info (mk_ifp r)) = auth_timestamp b'
    /\ auth_packetcounter (info (mk_ifp r)) = auth_packetcounter b'
    /\ auth_sent_ng_nokeys (stats (mk_state r))
       = ulong_incr (auth_sent_ng_nokeys (stats st))
    /\ auth_sent_ng_nokeys (auth_stats (info (mk_ifp r)))
       = ulong_incr (auth_sent_ng_nokeys (auth_stats (info ifp)))
    /\ auth_sent (stats (mk_state r)) = ulong_incr (auth_sent (stats st))
    /\ auth_sent (auth_stats (info (mk_ifp r)))
       = ulong_incr (auth_sent (auth_stats (info ifp))).
Proof.
  intros b' Hcsa Hsrc Hnil Hbody Hspace.
  assert (Hsent : esas_sent 0
            (babel_esalist_derive (csalist (info ifp)) now keys_valid_for_send)
          = []) by (unfold esas_sent; rewrite Hnil; apply firstn_nil).
  pose proof (make_packet_authenticated st ifp buffer body_len now addr6 Hcsa Hsrc
                Hbody (or_introl Hnil)) as Hmk.
  rewrite Hsent in Hmk. specialize (Hmk eq_refl).
  assert (Hfits : (8 + hmac_tlvs_space [] <= BABEL_MAXAUTHSPACE)%nat)
    by (change (hmac_tlvs_space []) with 0%nat; lia).
  specialize (Hmk Hfits (Forall_nil _)). rewrite Hmk. clear Hmk.
  eexists. split; [reflexivity|].
  unfold make_end, store_pools; cbn [mk_ret mk_body mk_state mk_ifp fst snd].
  rewrite Hnil. fold b'.
  change (hmac_tlvs_space []) with 0%nat.
  unfold auth_tlvs; cbn [map encode_tlvs flat_map length Nat.eqb].
  rewrite app_nil_r.
  split; [lia|]. split.
  - unfold mem_write. rewrite firstn_app, length_firstn.
    rewrite firstn_all2 by (rewrite length_firstn; lia).
    replace (body_len + 8 - Nat.min body_len (length buffer))%nat with 8%nat
      by lia.
    f_equal.
  - repeat split.
Qed.

Lemma make_packet_without_keys_witness :
  let st := Example.state BABEL_TS_BASE_UNIX [] in
  let ifp := Example.iface 1 (Example.babel_if [Example.csa_empty] true 0 0) in
  exists r,
    @babel_auth_make_packet Example.env st ifp Example.buffer 8 1000 = Some r
    /\ mk_ret r = 16
    /\ firstn 16 (mk_body r)
       = encode_tlvs [Example.hello; Example.tspc_tlv 0 1000]
    /\ auth_sent_ng_nokeys (stats (mk_state r)) = 1
    /\ auth_sent (stats (mk_state r)) = 1.
Proof.
  destruct (@make_packet_without_keys Example.env
              (Example.state BABEL_TS_BASE_UNIX [])
              (Example.iface 1 (Example.babel_if [Example.csa_empty] true 0 0))
              Example.buffer 8 1000 Example.addr1)
    as (r & Hr & Hret & Hbody & _ & _ & _ & Hnk & _ & Hsent & _).
  - discriminate.
  - reflexivity.
  - reflexivity.
  - apply Nat.leb_le. reflexivity.
  - apply Nat.leb_le. reflexivity.
  - exists r. repeat split; assumption.
Defined.

(** The claim of C9 fails on an interface without a link-local address:
    with a CSA whose keychain holds no key and no address on the
    interface, the builder hands the body back as it was.  It returns
    body_len, leaves the buffer and the send counters untouched, counts
    an internal error and increments neither auth_sent_ng_nokeys nor
    auth_sent. *)
Lemma make_packet_without_keys_no_address :
  let st := Example.state BABEL_TS_BASE_ZERO [] in
  let ifp := {| if_id := 1; if_connected := [];
                info := Example.babel_if [Example.csa_empty] true 5 9 |} in
  csalist (info ifp) <> []
  /\ @babel_esalist_derive Example.env (csalist (info ifp)) 1000
                           (@keys_valid_for_send Example.env) = []
  /\ exists r,
       @babel_auth_make_packet Example.env st ifp Example.buffer 8 1000 = Some r
       /\ mk_ret r = 8
       /\ mk_body r = Example.buffer
       /\ auth_timestamp (info (mk_ifp r)) = 5
       /\ auth_packetcounter (info (mk_ifp r)) = 9
       /\ auth_sent_ng_nokeys (stats (mk_state r)) = 0
       /\ auth_sent_ng_nokeys (auth_stats (info (mk_ifp r))) = 0
       /\ auth_sent (stats (mk_state r)) = 0
       /\ auth_sent (auth_stats (info (mk_ifp r))) = 0
       /\ internal_err (stats (mk_state r)) = 1.
Proof.
  intros st ifp. split; [discriminate|]. split; [reflexivity|].
  eexists. split; [vm_compute; reflexivity|].
  repeat split.
Qed.

(** ** Replay protection *)

Lemma ulong_incr_neq (x : Z) : ulong_incr x <> x.
Proof.
  unfold ulong_incr, ULONG_MODULUS. intros H.
  pose proof (Z.mod_pos_bound (x + 1) 18446744073709551616 eq_refl) as Hb.
  rewrite H in Hb.
  destruct (Z.eq_dec x 18446744073709551615) as [->|Hne].
  - vm_compute in H. discriminate.
  - rewrite Z.mod_small in H by lia. lia.
Qed.

Lemma anm_matches_assigned (addr : list byte) (ifp : nat) (anm : babel_anm_item)
    (pc ts recv : Z) :
  anm_matches addr ifp
    {| address := address anm; anm_ifp := anm_ifp anm; last_recv := recv;
       last_pc := pc; last_ts := ts |}
  = anm_matches addr ifp anm.
Proof. reflexivity. Qed.

Lemma babel_anm_lookup_assign (l : list babel_anm_item) (addr : list byte)
    (ifp : nat) (pc ts recv : Z) (anm : babel_anm_item) :
  babel_anm_lookup l addr ifp = Some anm ->
  babel_anm_lookup (anm_assign l addr ifp pc ts recv) addr ifp
  = Some {| address := address anm; anm_ifp := anm_ifp anm; last_recv := recv;
            last_pc := pc; last_ts := ts |}.
Proof.
  unfold babel_anm_lookup.
  induction l as [|a rest IH]; cbn [find anm_assign]; [discriminate|].
  destruct (anm_matches addr ifp a) eqn:E.
  - intros H; injection H as <-. cbn [find].
    now rewrite anm_matches_assigned, E.
  - intros H. cbn [find]. rewrite E. now apply IH.
Qed.

Lemma find_app_none {A : Type} (f : A -> bool) (l l' : list A) :
  find f l = None -> find f (l ++ l') = find f l'.
Proof.
  induction l as [|a rest IH]; cbn [find app]; [reflexivity|].
  destruct (f a); [discriminate|exact IH].
Qed.

Lemma babel_anm_get_lookup (l : list babel_anm_item) (addr : list byte)
    (ifp : nat) :
  exists anm, babel_anm_lookup (babel_anm_get l addr ifp) addr ifp = Some anm.
Proof.
  unfold babel_anm_get.
  destruct (babel_anm_lookup l addr ifp) as [anm|] eqn:E.
  - exists anm. exact E.
  - eexists. unfold babel_anm_lookup in *.
    rewrite (find_app_none _ _ _ E). cbn [find].
    assert (Hm : anm_matches addr ifp
                   {| address := firstn IPV6_MAX_BYTELEN addr; anm_ifp := ifp;
                      last_recv := 0; last_pc := 0; last_ts := 0 |} = true).
    { unfold anm_matches, IPV6_ADDR_SAME, memcmp_eq; cbn [address anm_ifp].
      rewrite Nat.eqb_refl, andb_true_r. apply bytes_eqb_eq.
      rewrite firstn_firstn, Nat.min_id. reflexivity. }
    rewrite Hm. reflexivity.
Qed.

(** After the assignment of an accepted pair the memory holds it for the
    sender. *)
Lemma anm_stored_after_accept (st : auth_state) (ifp : interface)
    (from : list byte) (pc ts recv : Z) (st' : auth_state) (ifp' : interface) :
  anmlist st'
  = anm_assign (babel_anm_get (anmlist st) from (if_id ifp)) from (if_id ifp)
               pc ts recv ->
  if_id ifp' = if_id ifp ->
  anm_stored st' from ifp' = (ts, pc).
Proof.
  intros Hl Hid. unfold anm_stored. rewrite Hl, Hid.
  destruct (babel_anm_get_lookup (anmlist st) from (if_id ifp)) as (anm & Hanm).
  now rewrite (babel_anm_lookup_assign _ _ _ pc ts recv anm Hanm).
Qed.

Section LoopPools.
Context {env : AuthEnv}.
Variable f : babel_auth_stats -> Z.
Hypothesis Hf : forall s, f (incr_internal_err s) = f s.

(** The HMAC scan touches no counter but internal_err. *)
Lemma try_hmac_loop_pools (padded : stream) (esa : babel_esa_item) (fuel : nat) :
  forall (pools : stat_pools) (packet : stream) (done calls : nat)
         (local_digest : option (list byte)),
  pools_kept f pools
    (try_hmac_loop fuel pools packet padded esa done calls local_digest).
Proof.
  induction fuel as [|fuel IH]; intros pools packet done calls local_digest.
  - split; reflexivity.
  - cbn [try_hmac_loop].
    repeat match goal with
           | |- pools_kept _ _ (try_hmac_loop _ _ _ _ _ _ _ _) => apply IH
           | |- pools_kept _ _ {| tr_ret := _ |} =>
               unfold pools_kept; cbn [tr_pools global_stats if_stats bump];
               rewrite ?Hf; split; reflexivity
           | |- pools_kept _ _ (if ?c then _ else _) => destruct c eqn:?
           | |- pools_kept _ _ (match ?c with _ => _ end) => destruct c eqn:?
           end.
Qed.

Lemma babel_auth_try_hmac_tlvs_pools (pools : stat_pools)
    (packet padded : stream) (esa : babel_esa_item) (done calls : nat) :
  pools_kept f pools
    (babel_auth_try_hmac_tlvs pools packet padded esa done calls).
Proof.
  unfold babel_auth_try_hmac_tlvs.
  destruct (done =? BABEL_MAXDIGESTSIN)%nat; [split; reflexivity|].
  destruct (stream_set_getp packet 4); [|split; reflexivity].
  apply try_hmac_loop_pools.
Qed.

Lemma check_esa_loop_pools (packet padded : stream)
    (esalist : list babel_esa_item) :
  forall (pools : stat_pools) (done calls : nat) (result : Z),
  pools_kept f pools
    (check_esa_loop esalist pools packet padded done calls result).
Proof.
  induction esalist as [|esa rest IH]; intros pools done calls result.
  - split; reflexivity.
  - cbn [check_esa_loop].
    pose proof (babel_auth_try_hmac_tlvs_pools pools packet padded esa done calls)
      as [H1 H2].
    set (r1 := babel_auth_try_hmac_tlvs pools packet padded esa done calls) in *.
    destruct (tr_ret r1) as [res|]; [|split; assumption].
    destruct (res =? MSG_OK); [split; assumption|].
    destruct (IH (tr_pools r1) (tr_done r1) (tr_calls r1) res) as [H3 H4].
    split; congruence.
Qed.
End LoopPools.

Lemma stream_getw_from_at (bs post : list byte) (b0 b1 : byte) (g p : nat) :
  reads_at bs g (b0 :: b1 :: post) ->
  stream_getw_from (packet_at bs p) g = Some (be_value [b0; b1]).
Proof.
  intros H. unfold stream_getw_from.
  pose proof (stream_peek_at bs [b0; b1] post g p H) as E. cbn [length] in E.
  now rewrite E.
Qed.

Lemma stream_getl_from_at (bs post : list byte) (b0 b1 b2 b3 : byte) (g p : nat) :
  reads_at bs g (b0 :: b1 :: b2 :: b3 :: post) ->
  stream_getl_from (packet_at bs p) g = Some (be_value [b0; b1; b2; b3]).
Proof.
  intros H. unfold stream_getl_from.
  pose proof (stream_peek_at bs [b0; b1; b2; b3] post g p H) as E.
  cbn [length] in E. now rewrite E.
Qed.

Section CheckOutcome.
Context {env : AuthEnv}.
Variables (st : auth_state) (ifp : interface) (from : list byte) (now : Z).
Variables (hdr : list byte) (before : list tlv) (len p0 p1 t0 t1 t2 t3 : byte).
Variable tail : list byte.
Hypothesis Hcsa : csalist (info ifp) <> [].
Hypothesis Hhdr : length hdr = 4%nat.
Hypothesis Hbefore : forallb tlv_not_tspc before = true.

Let input := tspc_packet hdr before len [p0; p1] [t0; t1; t2; t3] tail.
Let tlv_pc := be_value [p0; p1].
Let tlv_ts := be_value [t0; t1; t2; t3].
Let r := babel_auth_check_packet_run st ifp from input now.

(** The interface keeps its identity and its configuration. *)
Lemma check_packet_run_ifp (input0 : list byte) :
  let r0 := babel_auth_check_packet_run st ifp from input0 now in
  if_id (ck_ifp r0) = if_id ifp
  /\ csalist (info (ck_ifp r0)) = csalist (info ifp)
  /\ authrxreq (info (ck_ifp r0)) = authrxreq (info ifp).
Proof.
  cbv zeta. unfold babel_auth_check_packet_run.
  destruct (length (csalist (info ifp)) =? 0)%nat;
    [split; [reflexivity|split; reflexivity]|].
  destruct (stream_put _ input0) as [packet|];
    [|split; [reflexivity|split; reflexivity]].
  destruct (match babel_anm_lookup _ _ _ with Some _ => _ | None => _ end)
    as [neigh_pc neigh_ts].
  destruct (babel_auth_check_tspc _ _ _ _) as [[tspc_getp pools]|];
    [|split; [reflexivity|split; reflexivity]].
  destruct (tspc_getp =? -1); [split; [reflexivity|split; reflexivity]|].
  destruct (babel_auth_pad_packet _ _) as [padded|];
    [|split; [reflexivity|split; reflexivity]].
  destruct (tr_ret _) as [result|]; [|split; [reflexivity|split; reflexivity]].
  destruct (negb (result =? MSG_OK)); [split; [reflexivity|split; reflexivity]|].
  destruct (stream_getw_from packet (Z.to_nat tspc_getp));
    [destruct (stream_getl_from packet (Z.to_nat tspc_getp + 2))|];
    split; [reflexivity|split; reflexivity | reflexivity|split; reflexivity
            | reflexivity|split; reflexivity].
Qed.

End CheckOutcome.



(** ** Reading back what was put *)

Lemma be_value_u16 (w : Z) : 0 <= w < 65536 -> be_value (bytes_of_u16 w) = w.
Proof.
  intros Hw. unfold be_value, bytes_of_u16. cbn [fold_left].
  rewrite !byte.unsigned_of_Z. unfold byte.wrap.
  rewrite Z.shiftr_div_pow2 by lia.
  change (2 ^ 8) with 256.
  rewrite (Z.mod_small (w / 256)) by (split; [apply Z.div_pos; lia|
                                       apply Z.div_lt_upper_bound; lia]).
  pose proof (Z.div_mod w 256). lia.
Qed.

Lemma be_value_u32 (l : Z) : 0 <= l < 4294967296 -> be_value (bytes_of_u32 l) = l.
Proof.
  intros Hl. unfold be_value, bytes_of_u32. cbn [fold_left].
  rewrite !byte.unsigned_of_Z. unfold byte.wrap.
  rewrite !Z.shiftr_div_pow2 by lia.
  change (2 ^ 8) with 256. change (2 ^ 16) with 65536.
  change (2 ^ 24) with 16777216.
  rewrite (Z.mod_small (l / 16777216))
    by (split; [apply Z.div_pos; lia|apply Z.div_lt_upper_bound; lia]).
  pose proof (Z.div_mod l 16777216).
  pose proof (Z.div_mod l 65536).
  pose proof (Z.div_mod l 256).
  pose proof (Z.div_mod (l / 65536) 256).
  pose proof (Z.div_mod (l / 256) 256).
  pose proof (Z.mod_pos_bound (l / 65536) 256).
  pose proof (Z.mod_pos_bound (l / 256) 256).
  pose proof (Z.mod_pos_bound l 256).
  replace (l / 16777216) with (l / 65536 / 256) in *
    by (rewrite Z.div_div by lia; reflexivity).
  replace (l / 65536) with (l / 256 / 256) in *
    by (rewrite Z.div_div by lia; reflexivity).
  lia.
Qed.

(** ** The HMAC scan on well-formed packets *)

Lemma byte_unsigned_length (v : list byte) :
  (length v < 256)%nat ->
  byte.unsigned (byte.of_Z (Z.of_nat (length v))) = Z.of_nat (length v).
Proof.
  intros H. rewrite byte.unsigned_of_Z. unfold byte.wrap.
  apply Z.mod_small. lia.
Qed.

Lemma memcmp_eq_digest (vd rest d : list byte) (n : nat) :
  length vd = n -> length d = n ->
  memcmp_eq (vd ++ rest) d n = bytes_eqb vd d.
Proof.
  intros Hv Hd. unfold memcmp_eq.
  rewrite firstn_app, Hv, Nat.sub_diag, <- Hv, firstn_all. cbn [firstn].
  rewrite app_nil_r, firstn_all2 by lia. reflexivity.
Qed.

Section HmacScan.
Context {env : AuthEnv}.
Variables (bs : list byte) (padded : stream) (esa : babel_esa_item).

(** Cursor facts at a valued TLV. *)
Lemma reads_at_tlv (ty : byte) (v rest : list byte) (g : nat) :
  reads_at bs g (encode_tlv (Tlv ty v) ++ rest) ->
  reads_at bs g (ty :: byte.of_Z (Z.of_nat (length v)) :: v ++ rest)
  /\ reads_at bs (g + 1) (byte.of_Z (Z.of_nat (length v)) :: v ++ rest)
  /\ reads_at bs (g + 1 + 1) (v ++ rest)
  /\ reads_at bs (g + length (encode_tlv (Tlv ty v))) rest.
Proof.
  intros Hr. pose proof (reads_at_app _ _ _ _ Hr) as Hend.
  cbn [encode_tlv app] in Hr.
  pose proof (reads_at_app bs [ty] _ g Hr) as Hr1. cbn [length] in Hr1.
  pose proof (reads_at_app bs [_] _ _ Hr1) as Hr2. cbn [length] in Hr2.
  auto.
Qed.

(** The scan never stops on a bounds assertion in a packet of
    well-formed TLVs. *)
Lemma try_hmac_loop_total (tlvs : list tlv) :
  forallb tlv_wf tlvs = true ->
  forall (g fuel : nat) (pools : stat_pools) (done calls : nat)
         (ld : option (list byte)),
  reads_at bs g (encode_tlvs tlvs) ->
  (length (encode_tlvs tlvs) < fuel)%nat ->
  tr_ret (try_hmac_loop fuel pools (packet_at bs g) padded esa done calls ld)
  <> None.
Proof.
  induction tlvs as [|t tlvs IH]; intros Hwf g fuel pools done calls ld Hr Hfuel.
  - destruct fuel as [|fuel]; [cbn in Hfuel; lia|].
    cbn [try_hmac_loop]. rewrite (STREAM_READABLE_at _ _ _ Hr). discriminate.
  - cbn [forallb] in Hwf. apply andb_true_iff in Hwf as [Ht Hwf].
    cbn [encode_tlvs flat_map] in Hr, Hfuel. fold (encode_tlvs tlvs) in *.
    rewrite length_app in Hfuel.
    pose proof (encode_tlv_length_pos t) as Hpos.
    destruct fuel as [|fuel]; [lia|].
    cbn [try_hmac_loop].
    rewrite (STREAM_READABLE_at _ _ _ Hr), length_app.
    destruct (Nat.eqb_spec (length (encode_tlv t) + length (encode_tlvs tlvs)) 0);
      [lia|].
    destruct t as [|ty v].
    + cbn [encode_tlv app] in Hr. rewrite (stream_getc_at _ _ _ _ Hr).
      change (Byte.eqb MESSAGE_PAD1 MESSAGE_PAD1) with true. cbv iota.
      apply IH; [assumption| |cbn [encode_tlv length] in Hfuel; lia].
      now apply (reads_at_app bs [MESSAGE_PAD1]) in Hr.
    + unfold tlv_wf in Ht. apply andb_true_iff in Ht as [Hpad Hlen].
      apply negb_true_iff in Hpad. apply Nat.ltb_lt in Hlen.
      destruct (reads_at_tlv ty v _ g Hr) as (Hr0 & Hr1 & Hr2 & Hend).
      cbn [encode_tlv length] in Hfuel, Hend.
      assert (Hnext : forall pools done calls ld,
                tr_ret (try_hmac_loop fuel pools
                          (packet_at bs (g + S (S (length v)))) padded esa
                          done calls ld) <> None)
        by (intros; apply IH; [assumption|exact Hend|lia]).
      rewrite (stream_getc_at _ _ _ _ Hr0), Hpad.
      rewrite (stream_getc_at _ _ _ _ Hr1).
      rewrite (byte_to_nat_of_Z _ Hlen), (byte_unsigned_length _ Hlen).
      destruct (negb (Byte.eqb ty MESSAGE_HMAC)
                || negb (Z.of_nat (length v)
                         =? Z.of_nat (hash_digest_length (hash_algo esa)) + 2))
        eqn:Eskip.
      * rewrite (stream_forward_getp_at _ _ _ _ Hr2).
        replace (g + 1 + 1 + length v)%nat with (g + S (S (length v)))%nat by lia.
        apply Hnext.
      * apply orb_false_iff in Eskip as [_ Elen].
        apply negb_false_iff in Elen. apply Z.eqb_eq in Elen.
        destruct v as [|k0 [|k1 vd]]; cbn [length] in *; try lia.
        change (k0 :: k1 :: vd) with ([k0; k1] ++ vd) in Hr2.
        rewrite <- app_assoc in Hr2.
        pose proof (reads_at_app _ _ _ _ Hr2) as Hr3. cbn [length] in Hr3.
        cbn [app] in Hr2. rewrite (stream_getw_at _ _ _ _ _ Hr2).
        replace (S (S (length vd)) - 2)%nat with (length vd) by lia.
        assert (Hfwd : stream_forward_getp (packet_at bs (g + 1 + 1 + 2))
                                           (length vd)
                       = Some (packet_at bs (g + S (S (S (S (length vd))))))).
        { rewrite (stream_forward_getp_at _ _ _ _ Hr3). f_equal. f_equal. lia. }
        rewrite Hfwd.
        destruct (negb (be_value [k0; k1] =? key_id esa)); [apply Hnext|].
        destruct ld as [dg|].
        -- destruct (memcmp_eq _ dg (length vd)); [discriminate|apply Hnext].
        -- destruct (hash_make_hmac _ _ _) as [dg|]; [|discriminate].
           destruct (memcmp_eq _ dg (length vd)); [discriminate|apply Hnext].
Qed.

Variable d : list byte.
Hypothesis Hd :
  hash_make_hmac (hash_algo esa) (stream_contents padded)
                 (firstn (key_len esa) (key_secret esa)) = Some d.
Hypothesis Hdlen : length d = hash_digest_length (hash_algo esa).
Hypothesis Hkid : 0 <= key_id esa < 65536.

(** The scan for an ESA returns OK on a packet holding the HMAC TLV of
    the ESA with the local digest. *)
Lemma try_hmac_loop_finds (tlvs : list tlv) :
  forallb tlv_wf tlvs = true ->
  In (hmac_tlv_of esa d) tlvs ->
  forall (g fuel : nat) (pools : stat_pools) (done calls : nat)
         (ld : option (list byte)),
  reads_at bs g (encode_tlvs tlvs) ->
  (length (encode_tlvs tlvs) < fuel)%nat ->
  ld = None \/ ld = Some d ->
  tr_ret (try_hmac_loop fuel pools (packet_at bs g) padded esa done calls ld)
  = Some MSG_OK.
Proof.
  induction tlvs as [|t tlvs IH];
    intros Hwf Hin g fuel pools done calls ld Hr Hfuel Hld; [contradiction|].
  cbn [forallb] in Hwf. apply andb_true_iff in Hwf as [Ht Hwf].
  cbn [encode_tlvs flat_map] in Hr, Hfuel. fold (encode_tlvs tlvs) in *.
  rewrite length_app in Hfuel.
  pose proof (encode_tlv_length_pos t) as Hpos.
  destruct fuel as [|fuel]; [lia|].
  cbn [try_hmac_loop].
  rewrite (STREAM_READABLE_at _ _ _ Hr), length_app.
  destruct (Nat.eqb_spec (length (encode_tlv t) + length (encode_tlvs tlvs)) 0);
    [lia|].
  destruct t as [|ty v].
  - cbn [encode_tlv app] in Hr. rewrite (stream_getc_at _ _ _ _ Hr).
    change (Byte.eqb MESSAGE_PAD1 MESSAGE_PAD1) with true. cbv iota.
    destruct Hin as [Heq|Hin]; [discriminate|].
    apply IH; [assumption|assumption| |cbn [encode_tlv length] in Hfuel; lia
               |assumption].
    now apply (reads_at_app bs [MESSAGE_PAD1]) in Hr.
  - unfold tlv_wf in Ht. apply andb_true_iff in Ht as [Hpad Hlen].
    apply negb_true_iff in Hpad. apply Nat.ltb_lt in Hlen.
    destruct (reads_at_tlv ty v _ g Hr) as (Hr0 & Hr1 & Hr2 & Hend).
    cbn [encode_tlv length] in Hfuel, Hend.
    assert (Hnext : forall pools done calls ld,
              In (hmac_tlv_of esa d) tlvs -> ld = None \/ ld = Some d ->
              tr_ret (try_hmac_loop fuel pools
                        (packet_at bs (g + S (S (length v)))) padded esa
                        done calls ld) = Some MSG_OK)
      by (intros; apply IH; [assumption|assumption|exact Hend|lia|assumption]).
    rewrite (stream_getc_at _ _ _ _ Hr0), Hpad.
    rewrite (stream_getc_at _ _ _ _ Hr1).
    rewrite (byte_to_nat_of_Z _ Hlen), (byte_unsigned_length _ Hlen).
    destruct (negb (Byte.eqb ty MESSAGE_HMAC)
              || negb (Z.of_nat (length v)
                       =? Z.of_nat (hash_digest_length (hash_algo esa)) + 2))
      eqn:Eskip.
    + rewrite (stream_forward_getp_at _ _ _ _ Hr2).
      replace (g + 1 + 1 + length v)%nat with (g + S (S (length v)))%nat by lia.
      apply Hnext; [|assumption].
      destruct Hin as [Heq|Hin]; [|assumption]. exfalso.
      unfold hmac_tlv_of in Heq. injection Heq as -> ->.
      rewrite byte_eqb_refl in Eskip. cbn [negb orb] in Eskip.
      apply negb_true_iff, Z.eqb_neq in Eskip. apply Eskip.
      cbn [length]. rewrite Hdlen. lia.
    + apply orb_false_iff in Eskip as [_ Elen].
      apply negb_false_iff in Elen. apply Z.eqb_eq in Elen.
      destruct v as [|k0 [|k1 vd]]; cbn [length] in *; try lia.
      change (k0 :: k1 :: vd) with ([k0; k1] ++ vd) in Hr2.
      rewrite <- app_assoc in Hr2.
      pose proof (reads_at_app _ _ _ _ Hr2) as Hr3. cbn [length] in Hr3.
      cbn [app] in Hr2. rewrite (stream_getw_at _ _ _ _ _ Hr2).
      replace (S (S (length vd)) - 2)%nat with (length vd) by lia.
      assert (Hfwd : stream_forward_getp (packet_at bs (g + 1 + 1 + 2))
                                         (length vd)
                     = Some (packet_at bs (g + S (S (S (S (length vd))))))).
      { rewrite (stream_forward_getp_at _ _ _ _ Hr3). f_equal. f_equal. lia. }
      rewrite Hfwd.
      assert (Hvd : length vd = hash_digest_length (hash_algo esa)) by lia.
      assert (Hcmp : memcmp_eq (skipn (stream_get_getp (packet_at bs (g + 1 + 1 + 2)))
                                      (stream_get_data (packet_at bs (g + 1 + 1 + 2))))
                               d (length vd)
                     = bytes_eqb vd d).
      { unfold stream_get_getp, stream_get_data, packet_at; cbn [s_getp s_data].
        destruct Hr3 as [_ ->]. apply memcmp_eq_digest; congruence. }
      destruct (Z.eqb_spec (be_value [k0; k1]) (key_id esa)) as [Ekid|Ekid];
        cbn [negb].
      * assert (Hfound :
          forall done calls,
          tr_ret (if memcmp_eq (skipn (stream_get_getp
                                         (packet_at bs (g + 1 + 1 + 2)))
                                      (stream_get_data
                                         (packet_at bs (g + 1 + 1 + 2))))
                               d (length vd)
                  then {| tr_ret := Some MSG_OK; tr_pools := pools;
                          tr_done := done; tr_calls := calls |}
                  else try_hmac_loop fuel pools
                         (packet_at bs (g + S (S (S (S (length vd))))))
                         padded esa done calls (Some d))
          = Some MSG_OK).
        { intros done0 calls0. rewrite Hcmp.
          destruct (bytes_eqb vd d) eqn:Eeq; [reflexivity|].
          apply Hnext; [|now right].
          destruct Hin as [Heq|Hin]; [|assumption]. exfalso.
          unfold hmac_tlv_of in Heq. cbn [bytes_of_u16 app] in Heq.
          assert (Hvd' : vd = d) by congruence.
          rewrite Hvd', (proj2 (bytes_eqb_eq d d) eq_refl) in Eeq.
          discriminate. }
        destruct Hld as [->| ->].
        -- rewrite Hd. apply Hfound.
        -- apply Hfound.
      * apply Hnext; [|assumption].
        destruct Hin as [Heq|Hin]; [|assumption]. exfalso.
        unfold hmac_tlv_of in Heq. cbn [bytes_of_u16 app] in Heq.
        apply Ekid.
        assert (Hk : [k0; k1] = bytes_of_u16 (key_id esa))
          by (unfold bytes_of_u16; congruence).
        rewrite Hk. now apply be_value_u16.
Qed.
End HmacScan.

Section EsaLoop.
Context {env : AuthEnv}.
Variables (hdr : list byte) (tlvs : list tlv) (padded : stream).
Hypothesis Hhdr : length hdr = 4%nat.
Hypothesis Hwf : forallb tlv_wf tlvs = true.

Let packet := packet_at (hdr ++ encode_tlvs tlvs) 0.

Lemma babel_auth_try_hmac_tlvs_total (pools : stat_pools) (esa : babel_esa_item)
    (done calls : nat) :
  tr_ret (babel_auth_try_hmac_tlvs pools packet padded esa done calls) <> None.
Proof.
  unfold babel_auth_try_hmac_tlvs.
  destruct (done =? BABEL_MAXDIGESTSIN)%nat; [discriminate|].
  assert (Hr : reads_at (hdr ++ encode_tlvs tlvs) 4 (encode_tlvs tlvs))
    by (rewrite <- Hhdr; apply reads_at_start).
  unfold packet. rewrite stream_set_getp_at by (destruct Hr; assumption).
  rewrite (STREAM_READABLE_at _ _ _ Hr).
  apply (try_hmac_loop_total _ padded esa tlvs Hwf); [exact Hr|lia].
Qed.

Lemma babel_auth_try_hmac_tlvs_finds (pools : stat_pools) (esa : babel_esa_item)
    (done calls : nat) (d : list byte) :
  (done < BABEL_MAXDIGESTSIN)%nat ->
  hash_make_hmac (hash_algo esa) (stream_contents padded)
                 (firstn (key_len esa) (key_secret esa)) = Some d ->
  length d = hash_digest_length (hash_algo esa) ->
  0 <= key_id esa < 65536 ->
  In (hmac_tlv_of esa d) tlvs ->
  tr_ret (babel_auth_try_hmac_tlvs pools packet padded esa done calls)
  = Some MSG_OK.
Proof.
  intros Hdone Hd Hdlen Hkid Hin. unfold babel_auth_try_hmac_tlvs.
  destruct (Nat.eqb_spec done BABEL_MAXDIGESTSIN); [lia|].
  assert (Hr : reads_at (hdr ++ encode_tlvs tlvs) 4 (encode_tlvs tlvs))
    by (rewrite <- Hhdr; apply reads_at_start).
  unfold packet. rewrite stream_set_getp_at by (destruct Hr; assumption).
  rewrite (STREAM_READABLE_at _ _ _ Hr).
  apply (try_hmac_loop_finds _ padded esa d Hd Hdlen Hkid tlvs Hwf Hin);
    [exact Hr|lia|now left].
Qed.

(** The loop over the ESAs returns OK when an ESA within the first
    BABEL_MAXDIGESTSIN ones finds its HMAC TLV with the local digest. *)
Lemma check_esa_loop_finds (esa : babel_esa_item) (d : list byte)
    (l2 : list babel_esa_item) :
  hash_make_hmac (hash_algo esa) (stream_contents padded)
                 (firstn (key_len esa) (key_secret esa)) = Some d ->
  length d = hash_digest_length (hash_algo esa) ->
  0 <= key_id esa < 65536 ->
  In (hmac_tlv_of esa d) tlvs ->
  forall (l1 : list babel_esa_item) (pools : stat_pools) (done calls : nat)
         (result : Z),
  (done + length l1 < BABEL_MAXDIGESTSIN)%nat ->
  tr_ret (check_esa_loop (l1 ++ esa :: l2) pools packet padded done calls result)
  = Some MSG_OK.
Proof.
  intros Hd Hdlen Hkid Hin.
  induction l1 as [|e1 l1 IH]; intros pools done calls result Hdone;
    cbn [app check_esa_loop length] in *.
  - rewrite (babel_auth_try_hmac_tlvs_finds pools esa done calls d)
      by (assumption || lia).
    change (MSG_OK =? MSG_OK) with true. cbv iota.
    apply (babel_auth_try_hmac_tlvs_finds pools esa done calls d);
      assumption || lia.
  - pose proof (babel_auth_try_hmac_tlvs_total pools e1 done calls) as Htot.
    pose proof (babel_auth_try_hmac_tlvs_work pools packet padded e1 done calls)
      as [(Hw & _) _].
    set (r1 := babel_auth_try_hmac_tlvs pools packet padded e1 done calls) in *.
    destruct (tr_ret r1) as [res|] eqn:Eres; [|congruence].
    destruct (Z.eqb_spec res MSG_OK) as [->|Hne]; [exact Eres|].
    apply IH. lia.
Qed.
End EsaLoop.

Lemma encode_tlvs_app (a b : list tlv) :
  encode_tlvs (a ++ b) = encode_tlvs a ++ encode_tlvs b.
Proof. apply flat_map_app. Qed.

Lemma tlv_paddable_wf {env : AuthEnv} (tlvs : list tlv) :
  forallb tlv_paddable tlvs = true -> forallb tlv_wf tlvs = true.
Proof.
  intros H. apply forallb_forall. intros t Ht.
  rewrite forallb_forall in H. specialize (H t Ht).
  unfold tlv_paddable in H. now apply andb_true_iff in H as [H _].
Qed.

(** A packet with an acceptable TS/PC pair and an HMAC TLV carrying the
    digest one of the first BABEL_MAXDIGESTSIN ESAs computes is
    authentic: the checker returns OK and stores the pair. *)
Lemma check_packet_run_authentic {env : AuthEnv} (st : auth_state)
    (ifp : interface) (from : list byte) (now : Z) (hdr : list byte)
    (before after : list tlv) (p0 p1 t0 t1 t2 t3 : byte)
    (l1 l2 : list babel_esa_item) (esa : babel_esa_item) (d : list byte) :
  let tlvs := before ++ Tlv MESSAGE_TSPC [p0; p1; t0; t1; t2; t3] :: after in
  let input := hdr ++ encode_tlvs tlvs in
  let tlv_pc := be_value [p0; p1] in
  let tlv_ts := be_value [t0; t1; t2; t3] in
  let r := babel_auth_check_packet_run st ifp from input now in
  csalist (info ifp) <> [] -> length hdr = 4%nat ->
  length from = IPV6_MAX_BYTELEN ->
  forallb tlv_not_tspc before = true -> forallb tlv_paddable tlvs = true ->
  tspc_accepts tlv_ts tlv_pc (fst (anm_stored st from ifp))
               (snd (anm_stored st from ifp)) = true ->
  babel_esalist_derive (csalist (info ifp)) now keys_valid_for_accept
  = l1 ++ esa :: l2 ->
  (length l1 < BABEL_MAXDIGESTSIN)%nat ->
  hash_make_hmac (hash_algo esa) (hdr ++ encode_tlvs (map (pad_tlv from) tlvs))
                 (firstn (key_len esa) (key_secret esa)) = Some d ->
  length d = hash_digest_length (hash_algo esa) ->
  0 <= key_id esa < 65536 ->
  In (hmac_tlv_of esa d) tlvs ->
  ck_ret r = Some MSG_OK
  /\ anmlist (ck_state r)
     = anm_assign (babel_anm_get (anmlist st) from (if_id ifp)) from (if_id ifp)
                  tlv_pc tlv_ts now
  /\ auth_recv_ok (stats (ck_state r)) = ulong_incr (auth_recv_ok (stats st))
  /\ auth_recv_ok (auth_stats (info (ck_ifp r)))
     = ulong_incr (auth_recv_ok (auth_stats (info ifp))).
Proof.
  intros tlvs input tlv_pc tlv_ts r Hcsa Hhdr Hfrom Hbefore Hpad Hacc Hesas Hl1
         Hd Hdlen Hkid Hin.
  assert (Einput : hdr ++ encode_tlvs tlvs
                   = tspc_packet hdr before (byte.of_Z (Z.of_nat 6))
                                 [p0; p1] [t0; t1; t2; t3] (encode_tlvs after)).
  { unfold tlvs, tspc_packet. rewrite encode_tlvs_app. reflexivity. }
  subst r input. unfold babel_auth_check_packet_run.
  assert (Hlen : (length (csalist (info ifp)) =? 0)%nat = false)
    by (destruct (csalist (info ifp)); [congruence|reflexivity]).
  rewrite Hlen, stream_put_new.
  assert (Estored :
    match babel_anm_lookup (anmlist st) from (if_id ifp) with
    | Some anm => (last_pc anm, last_ts anm)
    | None => (0, 0)
    end = (snd (anm_stored st from ifp), fst (anm_stored st from ifp))).
  { unfold anm_stored. now destruct (babel_anm_lookup _ _ _). }
  rewrite Estored. rewrite Einput.
  rewrite (babel_auth_check_tspc_first _ _ _ _ _ _ _ _ _ _ _ _ _ _ Hhdr Hbefore).
  fold tlv_pc tlv_ts. rewrite Hacc.
  destruct (Z.eqb_spec (Z.of_nat (4 + length (encode_tlvs before) + 2)) (-1));
    [lia|].
  rewrite <- Einput.
  rewrite (babel_auth_pad_packet_tlvs from Hfrom hdr tlvs 0 Hhdr Hpad).
  rewrite Hesas.
  pose proof (check_esa_loop_finds hdr tlvs
                (packet_at (hdr ++ encode_tlvs (map (pad_tlv from) tlvs)) 0)
                Hhdr (tlv_paddable_wf tlvs Hpad) esa d l2) as Hloop.
  assert (Econt : stream_contents
                    (packet_at (hdr ++ encode_tlvs (map (pad_tlv from) tlvs)) 0)
                  = hdr ++ encode_tlvs (map (pad_tlv from) tlvs))
    by (unfold stream_contents, packet_at; cbn [s_endp s_data];
        apply firstn_all).
  rewrite Econt in Hloop. specialize (Hloop Hd Hdlen Hkid Hin l1).
  set (pools0 := if (length (l1 ++ esa :: l2) =? 0)%nat then _ else _).
  specialize (Hloop pools0 0%nat 0%nat MSG_NG Hl1).
  pose proof (check_esa_loop_pools auth_recv_ok (fun _ => eq_refl)
                (packet_at (hdr ++ encode_tlvs tlvs) 0)
                (packet_at (hdr ++ encode_tlvs (map (pad_tlv from) tlvs)) 0)
                (l1 ++ esa :: l2) pools0 0 0 MSG_NG) as [Hkeep Hkeep'].
  set (lr := check_esa_loop (l1 ++ esa :: l2) pools0
               (packet_at (hdr ++ encode_tlvs tlvs) 0) _ 0 0 MSG_NG) in *.
  rewrite Hloop. change (negb (MSG_OK =? MSG_OK)) with false. cbv iota.
  assert (Hr : reads_at (hdr ++ encode_tlvs tlvs)
                 (4 + length (encode_tlvs before) + 2)
                 ([p0; p1] ++ [t0; t1; t2; t3] ++ encode_tlvs after)).
  { rewrite Einput. unfold tspc_packet.
    pose proof (reads_at_start hdr
                  (encode_tlvs before ++ MESSAGE_TSPC :: byte.of_Z (Z.of_nat 6)
                   :: [p0; p1] ++ [t0; t1; t2; t3] ++ encode_tlvs after)) as H0.
    rewrite Hhdr in H0. apply reads_at_app in H0.
    apply (reads_at_app _ [MESSAGE_TSPC; byte.of_Z (Z.of_nat 6)]) in H0.
    cbn [length] in H0. exact H0. }
  rewrite Nat2Z.id.
  rewrite (stream_getw_from_at _ _ _ _ _ _ Hr).
  apply (reads_at_app _ [p0; p1]) in Hr. cbn [length] in Hr.
  rewrite (stream_getl_from_at _ _ _ _ _ _ _ _ Hr).
  assert (Hpools0 : auth_recv_ok (global_stats pools0) = auth_recv_ok (stats st)
                    /\ auth_recv_ok (if_stats pools0)
                       = auth_recv_ok (auth_stats (info ifp)))
    by (unfold pools0; destruct (length (l1 ++ esa :: l2) =? 0)%nat;
        split; reflexivity).
  destruct Hpools0 as [Hg Hi].
  split; [cbn; now destruct (authrxreq (info ifp))|].
  split; [reflexivity|].
  unfold check_end, store_pools; cbn. split; congruence.
Qed.

(** ** From the sender to the receiver *)

(** The key identifiers of derived ESAs fit 16 bits. *)
Lemma esalist_derive_keys_key_id (algo : Z) (c : nat) (keys : list key) :
  forall (l : list babel_esa_item) (kc : nat),
  Forall (fun e => 0 <= key_id e < 65536) l ->
  Forall (fun e => 0 <= key_id e < 65536)
         (fst (esalist_derive_keys algo c keys l kc)).
Proof.
  induction keys as [|k rest IH]; intros l kc Hl; cbn [esalist_derive_keys fst].
  - exact Hl.
  - destruct (babel_esa_item_exists l algo _ _ _); [now apply IH|].
    apply IH. apply Forall_forall. intros x Hx.
    apply listnode_add_sort_In in Hx as [->|Hx].
    + cbn. unfold UINT16_MAX. apply Z.mod_pos_bound. lia.
    + rewrite Forall_forall in Hl. now apply Hl.
Qed.

Lemma esalist_derive_csas_key_id {env : AuthEnv} (csas : list babel_csa_item)
    (now : Z) (f : keychain -> Z -> list key) :
  forall (l : list babel_esa_item) (c : nat),
  Forall (fun e => 0 <= key_id e < 65536) l ->
  Forall (fun e => 0 <= key_id e < 65536) (esalist_derive_csas csas now f l c).
Proof.
  induction csas as [|csa rest IH]; intros l c Hl; cbn [esalist_derive_csas].
  - exact Hl.
  - destruct (keychain_lookup (keychain_name csa)) as [kc|]; [|now apply IH].
    pose proof (esalist_derive_keys_key_id (csa_hash_algo csa) c (f kc now) l 0 Hl)
      as Hk.
    destruct (esalist_derive_keys (csa_hash_algo csa) c (f kc now) l 0)
      as [l' n']. now apply IH.
Qed.

Lemma babel_esalist_derive_key_id {env : AuthEnv} (csas : list babel_csa_item)
    (now : Z) (f : keychain -> Z -> list key) :
  Forall (fun e => 0 <= key_id e < 65536) (babel_esalist_derive csas now f).
Proof. apply esalist_derive_csas_key_id. constructor. Qed.

(** A plain TLV passes the walks of the checker and is its own padded
    image. *)
Lemma tlv_plain_spec {env : AuthEnv} (addr6 : list byte) (t : tlv) :
  tlv_plain t = true ->
  tlv_not_tspc t = true /\ tlv_paddable t = true /\ pad_tlv addr6 t = t.
Proof.
  unfold tlv_plain, tlv_not_tspc, tlv_paddable, pad_tlv. intros H.
  apply andb_true_iff in H as [H Hh]. apply andb_true_iff in H as [Hwf Ht].
  rewrite Hwf, Ht. destruct t as [|ty v]; [auto|].
  cbn [tlv_has_type] in Hh. apply negb_true_iff in Hh. rewrite Hh. auto.
Qed.

Lemma tlvs_plain_spec {env : AuthEnv} (addr6 : list byte) (tlvs : list tlv) :
  forallb tlv_plain tlvs = true ->
  forallb tlv_not_tspc tlvs = true /\ forallb tlv_paddable tlvs = true
  /\ map (pad_tlv addr6) tlvs = tlvs.
Proof.
  induction tlvs as [|t rest IH]; cbn [forallb map]; [auto|]. intros H.
  apply andb_true_iff in H as [Ht Hrest].
  destruct (tlv_plain_spec addr6 t Ht) as (H1 & H2 & H3).
  destruct (IH Hrest) as (I1 & I2 & I3).
  rewrite H1, H2, H3, I1, I2, I3. auto.
Qed.

(** The padded image of an HMAC TLV carrying a digest is the HMAC TLV
    with the placeholder of the digest. *)
Lemma pad_tlv_hmac_tlv_of {env : AuthEnv} (addr6 : list byte)
    (esa : babel_esa_item) (d : list byte) :
  length d = hash_digest_length (hash_algo esa) ->
  pad_tlv addr6 (hmac_tlv_of esa d)
  = hmac_tlv_of esa (digest_placeholder addr6 esa).
Proof.
  intros Hd. unfold pad_tlv, hmac_tlv_of, digest_placeholder.
  rewrite byte_eqb_refl. f_equal.
  change (firstn 2 (bytes_of_u16 (key_id esa) ++ d))
    with (bytes_of_u16 (key_id esa)).
  do 3 f_equal. rewrite length_app, Hd. cbn [length bytes_of_u16].
  unfold IPV6_MAX_BYTELEN. lia.
Qed.

Lemma hmac_tlv_of_paddable {env : AuthEnv} (esa : babel_esa_item)
    (d : list byte) :
  MESSAGE_HMAC <> MESSAGE_PAD1 -> esa_digest_fits esa = true ->
  length d = hash_digest_length (hash_algo esa) ->
  tlv_paddable (hmac_tlv_of esa d) = true.
Proof.
  intros Hne Hfit Hd. unfold esa_digest_fits in Hfit.
  apply andb_true_iff in Hfit as [Hlo Hhi].
  apply Nat.leb_le in Hlo, Hhi.
  unfold tlv_paddable, hmac_tlv_of, tlv_wf. rewrite byte_eqb_refl.
  apply byte_eqb_neq in Hne. rewrite Hne.
  rewrite length_app, Hd. cbn [length bytes_of_u16 negb andb].
  apply andb_true_iff. split; [apply Nat.ltb_lt|apply Nat.leb_le]; lia.
Qed.

Lemma tspc_tlv_of_paddable {env : AuthEnv} (b : babel_interface) :
  MESSAGE_HMAC <> MESSAGE_TSPC -> tlv_paddable (tspc_tlv_of b) = true.
Proof.
  intros Hne. unfold tlv_paddable, tspc_tlv_of.
  assert (E : Byte.eqb MESSAGE_TSPC MESSAGE_HMAC = false)
    by (apply byte_eqb_neq; congruence).
  rewrite E. reflexivity.
Qed.

Lemma tspc_tlv_of_pad {env : AuthEnv} (addr6 : list byte) (b : babel_interface) :
  MESSAGE_HMAC <> MESSAGE_TSPC -> pad_tlv addr6 (tspc_tlv_of b) = tspc_tlv_of b.
Proof.
  intros Hne. unfold pad_tlv, tspc_tlv_of.
  assert (E : Byte.eqb MESSAGE_TSPC MESSAGE_HMAC = false)
    by (apply byte_eqb_neq; congruence).
  now rewrite E.
Qed.

(** The packet on the wire when the builder has written [tail] behind
    the body. *)
Lemma wire_packet_make_end {env : AuthEnv} (st : auth_state) (ifp : interface)
    (pools : stat_pools) (buffer : list byte) (body_len : nat)
    (tail : list byte) :
  (body_len <= length buffer)%nat ->
  wire_packet (make_end (Z.of_nat (body_len + length tail)) st ifp pools
                        (mem_write buffer body_len tail))
  = packet_header (Z.of_nat (body_len + length tail))
    ++ firstn body_len buffer ++ tail.
Proof.
  intros Hbody. unfold wire_packet, make_end. cbn [mk_ret mk_body].
  rewrite Nat2Z.id. f_equal. unfold mem_write.
  rewrite firstn_app, length_firstn, Nat.min_l by assumption.
  rewrite firstn_firstn, Nat.min_r by lia. f_equal.
  replace (body_len + length tail - body_len)%nat with (length tail) by lia.
  rewrite firstn_app, Nat.sub_diag, firstn_all. cbn [firstn].
  apply app_nil_r.
Qed.

(** The HMAC TLVs of the sender and their padded images. *)
Lemma auth_tlvs_paddable {env : AuthEnv} (addr6 msg : list byte)
    (esas : list babel_esa_item) :
  MESSAGE_HMAC <> MESSAGE_PAD1 ->
  forallb esa_digest_fits esas = true -> Forall (esa_digest_ok msg) esas ->
  forallb tlv_paddable
          (map (fun esa => hmac_tlv_of esa (esa_digest msg esa)) esas) = true
  /\ map (pad_tlv addr6)
         (map (fun esa => hmac_tlv_of esa (esa_digest msg esa)) esas)
     = map (fun esa => hmac_tlv_of esa (digest_placeholder addr6 esa)) esas.
Proof.
  intros Hne Hfit Hok. induction Hok as [|esa rest (d & Hd & Hlen) _ IH];
    [split; reflexivity|].
  cbn [forallb] in Hfit. apply andb_true_iff in Hfit as [He Hfit].
  destruct (IH Hfit) as [I1 I2].
  assert (Ed : length (esa_digest msg esa) = hash_digest_length (hash_algo esa))
    by (unfold esa_digest; now rewrite Hd).
  cbn [map forallb]. rewrite I1, I2.
  rewrite (hmac_tlv_of_paddable esa _ Hne He Ed).
  rewrite (pad_tlv_hmac_tlv_of addr6 esa _ Ed). split; reflexivity.
Qed.




(** * The derivation of ESAs *)

Lemma esalist_derive_csas_skip {env : AuthEnv} (now : Z)
    (f : keychain -> Z -> list key) (csa : babel_csa_item)
    (l2 : list babel_csa_item) :
  keychain_lookup (keychain_name csa) = None ->
  forall (l1 : list babel_csa_item) (acc : list babel_esa_item) (c : nat),
  esalist_derive_csas (l1 ++ csa :: l2) now f acc c
  = esalist_derive_csas (l1 ++ l2) now f acc c.
Proof.
  intros Hnone. induction l1 as [|x l1 IH]; intros acc c;
    cbn [app esalist_derive_csas].
  - now rewrite Hnone.
  - destruct (keychain_lookup (keychain_name x)) as [kc|]; [|apply IH].
    destruct (esalist_derive_keys _ _ _ _ _) as [l' n']. apply IH.
Qed.

(** X1: a CSA whose keychain does not exist is passed over without
    taking a number: the ESA list derived with it is the list derived
    without it, sort orders included. *)
Theorem esalist_derive_skips_missing_keychain {env : AuthEnv} (now : Z)
    (f : keychain -> Z -> list key) (csa : babel_csa_item)
    (l1 l2 : list babel_csa_item) :
  keychain_lookup (keychain_name csa) = None ->
  babel_esalist_derive (l1 ++ csa :: l2) now f
  = babel_esalist_derive (l1 ++ l2) now f.
Proof.
  intros Hnone. unfold babel_esalist_derive.
  now apply esalist_derive_csas_skip.
Qed.

Lemma esalist_derive_skips_missing_keychain_witness :
  @babel_esalist_derive Example.env
    ([Example.csa_alpha] ++ Example.csa_missing :: [Example.csa_beta]) 0
    (@keys_valid_for_send Example.env)
  = @babel_esalist_derive Example.env ([Example.csa_alpha] ++ [Example.csa_beta]) 0
      (@keys_valid_for_send Example.env).
Proof.
  apply (@esalist_derive_skips_missing_keychain Example.env).
  reflexivity.
Defined.

Lemma esas_sorted_distinct_lt (l : list babel_esa_item) :
  StronglySorted esa_le l ->
  (forall c, NoDup (map sort_order_major (esas_of_csa c l))) ->
  StronglySorted esa_lt l.
Proof.
  induction 1 as [|a rest Hs IH Hall]; intros Hnd; [constructor|].
  assert (Hrest : forall c, NoDup (map sort_order_major (esas_of_csa c rest))).
  { intros c. specialize (Hnd c). unfold esas_of_csa in *. cbn [filter] in Hnd.
    destruct (Nat.eqb (sort_order_minor a) c); [|exact Hnd].
    now inversion Hnd. }
  constructor; [now apply IH|].
  rewrite Forall_forall in *. intros x Hx. specialize (Hall x Hx).
  destruct (Nat.eq_dec (sort_order_major a) (sort_order_major x)) as [Hmaj|Hmaj];
    [|unfold esa_le, esa_lt in *; lia].
  destruct (Nat.eq_dec (sort_order_minor a) (sort_order_minor x)) as [Hmin|Hmin];
    [|unfold esa_le, esa_lt in *; lia].
  exfalso. specialize (Hnd (sort_order_minor a)).
  unfold esas_of_csa in Hnd. cbn [filter] in Hnd.
  rewrite Nat.eqb_refl in Hnd. cbn [map] in Hnd.
  inversion Hnd as [|? ? Hnotin _]. apply Hnotin.
  rewrite Hmaj. apply in_map. apply filter_In. split; [assumption|].
  apply Nat.eqb_eq. congruence.
Qed.

Lemma esalist_derive_keys_order (algo : Z) (c : nat) (keys : list key) :
  forall (l : list babel_esa_item) (kc : nat),
  StronglySorted esa_le l -> majors_consecutive l ->
  length (esas_of_csa c l) = kc ->
  exists ks news,
    subseq ks keys
    /\ esas_of_csa c (fst (esalist_derive_keys algo c keys l kc))
       = esas_of_csa c l ++ news
    /\ Forall2 (esa_of_key algo) ks news.
Proof.
  induction keys as [|k rest IH]; intros l kc Hs Hc Hkc;
    cbn [esalist_derive_keys fst].
  - exists [], []. split; [constructor|]. split; [now rewrite app_nil_r|constructor].
  - set (kid := key_index k mod (UINT16_MAX + 1)).
    assert (Hkid : 0 <= kid < 65536)
      by (unfold kid, UINT16_MAX; apply Z.mod_pos_bound; lia).
    destruct (babel_esa_item_exists l algo kid _ _).
    + destruct (IH l kc Hs Hc Hkc) as (ks & news & Hsub & Heq & Hall).
      exists ks, news. split; [now constructor|]. split; assumption.
    + set (v := set_sort_order _ kc c).
      assert (Hv : esa_of_key algo k v).
      { unfold esa_of_key, v. cbn. rewrite firstn_all.
        split; [reflexivity|]. split; [|split; reflexivity].
        unfold u16. change (kid mod 65536 = kid). now apply Z.mod_small. }
      assert (Hsame : esas_of_csa c (esa_add_sort l v) = esas_of_csa c l ++ [v]).
      { subst v kc. now apply esas_of_csa_add_same. }
      assert (Hother : forall c', c' <> c ->
                esas_of_csa c' (esa_add_sort l v) = esas_of_csa c' l).
      { intros c' Hne. now apply esas_of_csa_add_other. }
      destruct (IH (esa_add_sort l v) (S kc)) as (ks & news & Hsub & Heq & Hall).
      * now apply esa_add_sort_sorted.
      * intros c'. destruct (Nat.eq_dec c' c) as [->|Hne].
        -- rewrite Hsame, map_app, length_app, Hc, Hkc. simpl.
           rewrite Nat.add_1_r, seq_S. reflexivity.
        -- rewrite Hother by assumption. apply Hc.
      * rewrite Hsame, length_app. simpl. lia.
      * exists (k :: ks), (v :: news). split; [now constructor|].
        split; [|now constructor].
        rewrite Heq, Hsame, <- app_assoc. reflexivity.
Qed.

Lemma esalist_derive_csas_order {env : AuthEnv} (now : Z)
    (f : keychain -> Z -> list key) (j : nat) (csas : list babel_csa_item) :
  forall (l : list babel_esa_item) (cc : nat),
  StronglySorted esa_le l -> majors_consecutive l ->
  (forall c, (cc <= c)%nat -> esas_of_csa c l = []) ->
  let r := esalist_derive_csas csas now f l cc in
  ((j < cc)%nat -> esas_of_csa j r = esas_of_csa j l)
  /\ ((cc <= j)%nat ->
      match nth_error (csas_with_keychain csas) (j - cc) with
      | Some csa =>
          exists kc ks,
            keychain_lookup (keychain_name csa) = Some kc
            /\ subseq ks (f kc now)
            /\ Forall2 (esa_of_key (csa_hash_algo csa)) ks (esas_of_csa j r)
      | None => esas_of_csa j r = []
      end).
Proof.
  induction csas as [|csa rest IH]; intros l cc Hs Hc Hfresh;
    cbn [esalist_derive_csas csas_with_keychain filter].
  - split; [reflexivity|]. intros Hle.
    destruct (j - cc)%nat; cbn [nth_error]; now apply Hfresh.
  - fold (csas_with_keychain rest).
    destruct (keychain_lookup (keychain_name csa)) as [kc|] eqn:Hkc;
      [|now apply IH].
    pose proof (esalist_derive_keys_inv (csa_hash_algo csa) cc (f kc now)
                  l 0%nat Hs Hc) as Hinv.
    destruct (esalist_derive_keys_order (csa_hash_algo csa) cc (f kc now)
                l 0%nat Hs Hc) as (ks & news & Hsub & Heq & Hall).
    { now rewrite Hfresh. }
    rewrite Hfresh in Hinv, Heq by lia. specialize (Hinv eq_refl).
    destruct (esalist_derive_keys _ _ _ _ _) as [l' kc'].
    cbn [fst snd] in Hinv, Heq. destruct Hinv as (H1 & H2 & _ & H4).
    destruct (IH l' (S cc) H1 H2) as [Hlow Hhigh].
    { intros c Hle. rewrite H4 by lia. apply Hfresh. lia. }
    split.
    + intros Hlt. rewrite Hlow by lia. apply H4. lia.
    + intros Hle. destruct (Nat.eq_dec j cc) as [->|Hne].
      * rewrite Nat.sub_diag. cbn [nth_error].
        exists kc, ks. split; [exact Hkc|]. split; [exact Hsub|].
        rewrite Hlow by lia. rewrite Heq. exact Hall.
      * replace (j - cc)%nat with (S (j - S cc)) by lia. cbn [nth_error].
        apply Hhigh. lia.
Qed.

Lemma listnode_add_sort_NoDup_map {A B : Type} (cmp : A -> A -> Z) (g : A -> B)
    (l : list A) (v : A) :
  ~ In (g v) (map g l) -> NoDup (map g l) ->
  NoDup (map g (listnode_add_sort cmp l v)).
Proof.
  induction l as [|n rest IH]; intros Hv Hnd; cbn [listnode_add_sort map].
  - constructor; [auto|constructor].
  - destruct (cmp v n <? 0); cbn [map]; [now constructor|].
    inversion Hnd as [|? ? Hn Hrest]; subst.
    constructor.
    + intros Hin. apply in_map_iff in Hin as (x & Hx & Hin).
      apply listnode_add_sort_In in Hin as [->|Hin].
      * apply Hv. left. now symmetry.
      * apply Hn. rewrite <- Hx. now apply in_map.
    + apply IH; [|assumption]. intros Hin. apply Hv. now right.
Qed.

Lemma esa_regular_alloc (algo kid : Z) (major minor : nat) (secret : list byte) :
  esa_regular (set_sort_order
                 (babel_esa_item_alloc algo kid (length secret) secret)
                 major minor).
Proof.
  unfold esa_regular. cbn. rewrite firstn_all. split; [|reflexivity].
  unfold u16. apply Z.mod_pos_bound. lia.
Qed.

(** What a positive answer of [babel_esa_item_exists] means for regular
    ESAs, and what a negative one excludes. *)
Lemma babel_esa_item_exists_true (l : list babel_esa_item) (algo kid : Z)
    (secret : list byte) :
  Forall esa_regular l ->
  babel_esa_item_exists l algo kid (length secret) secret = true ->
  exists e, In e l /\ hash_algo e = algo /\ key_id e = kid
            /\ key_len e = length secret /\ key_secret e = secret.
Proof.
  intros Hreg H. unfold babel_esa_item_exists in H.
  apply existsb_exists in H as (e & He & H).
  rewrite !andb_true_iff in H. destruct H as [[[Ha Hk] Hl] Hm].
  apply Z.eqb_eq in Ha, Hk. apply Nat.eqb_eq in Hl.
  unfold memcmp_eq in Hm. apply bytes_eqb_eq in Hm.
  rewrite Forall_forall in Hreg. destruct (Hreg e He) as [_ Hlen].
  rewrite firstn_all in Hm. rewrite <- Hl, Hlen, firstn_all in Hm.
  exists e. auto.
Qed.

Lemma babel_esa_item_exists_false (l : list babel_esa_item) (algo kid : Z)
    (secret : list byte) (e : babel_esa_item) :
  babel_esa_item_exists l algo kid (length secret) secret = false ->
  In e l -> key_len e = length (key_secret e) ->
  esa_attributes e <> (algo, kid, secret).
Proof.
  intros H He Hlen Heq. unfold esa_attributes in Heq.
  injection Heq as Ha Hk Hs.
  assert (Ht : babel_esa_item_exists l algo kid (length secret) secret = true);
    [|congruence].
  unfold babel_esa_item_exists. apply existsb_exists. exists e.
  split; [assumption|]. rewrite !andb_true_iff.
  repeat split.
  - now apply Z.eqb_eq.
  - now apply Z.eqb_eq.
  - apply Nat.eqb_eq. now rewrite Hlen, Hs.
  - unfold memcmp_eq. apply bytes_eqb_eq. now rewrite Hs.
Qed.

Lemma esalist_derive_keys_distinct (algo : Z) (c : nat) (keys : list key) :
  0 <= algo < 65536 ->
  forall (l : list babel_esa_item) (kc : nat),
  Forall esa_regular l -> NoDup (map esa_attributes l) ->
  Forall esa_regular (fst (esalist_derive_keys algo c keys l kc))
  /\ NoDup (map esa_attributes (fst (esalist_derive_keys algo c keys l kc))).
Proof.
  intros Halgo. induction keys as [|k rest IH]; intros l kc Hreg Hnd;
    cbn [esalist_derive_keys fst]; [auto|].
  set (kid := key_index k mod (UINT16_MAX + 1)).
  assert (Hkid : 0 <= kid < 65536)
    by (unfold kid, UINT16_MAX; apply Z.mod_pos_bound; lia).
  destruct (babel_esa_item_exists l algo kid _ _) eqn:Hex; [now apply IH|].
  set (v := set_sort_order _ kc c).
  assert (Hv : esa_attributes v = (algo, kid, key_string k)).
  { unfold v, esa_attributes. cbn. rewrite firstn_all. unfold u16.
    now rewrite !Z.mod_small by assumption. }
  apply IH.
  - apply Forall_forall. intros x Hx.
    apply listnode_add_sort_In in Hx as [->|Hx].
    + apply esa_regular_alloc.
    + rewrite Forall_forall in Hreg. now apply Hreg.
  - apply listnode_add_sort_NoDup_map; [|assumption].
    intros Hin. apply in_map_iff in Hin as (e & He & Hin).
    rewrite Hv in He. rewrite Forall_forall in Hreg.
    now apply (babel_esa_item_exists_false l algo kid (key_string k) e Hex Hin
                 (proj2 (Hreg e Hin))).
Qed.

Lemma esalist_derive_csas_distinct {env : AuthEnv} (now : Z)
    (f : keychain -> Z -> list key) (csas : list babel_csa_item) :
  Forall (fun csa => 0 <= csa_hash_algo csa < 65536) csas ->
  forall (l : list babel_esa_item) (c : nat),
  Forall esa_regular l -> NoDup (map esa_attributes l) ->
  NoDup (map esa_attributes (esalist_derive_csas csas now f l c)).
Proof.
  induction 1 as [|csa rest Hcsa _ IH]; intros l c Hreg Hnd;
    cbn [esalist_derive_csas]; [assumption|].
  destruct (keychain_lookup (keychain_name csa)) as [kc|]; [|now apply IH].
  destruct (esalist_derive_keys_distinct (csa_hash_algo csa) c (f kc now) Hcsa
              l 0 Hreg Hnd) as [Hreg' Hnd'].
  destruct (esalist_derive_keys _ _ _ _ _) as [l' n']. now apply IH.
Qed.

(** X3: when the algorithm numbers of the CSAs fit 16 bits, the derived
    ESA list holds no full duplicates: no two of its ESAs have the same
    algorithm, key identifier and key bytes. *)
Theorem esalist_derive_no_duplicates {env : AuthEnv}
    (csas : list babel_csa_item) (now : Z) (f : keychain -> Z -> list key) :
  Forall (fun csa => 0 <= csa_hash_algo csa < 65536) csas ->
  NoDup (map esa_attributes (babel_esalist_derive csas now f)).
Proof.
  intros Hcsas. unfold babel_esalist_derive.
  apply esalist_derive_csas_distinct; [assumption|constructor|constructor].
Qed.

Lemma esalist_derive_no_duplicates_witness :
  NoDup (map esa_attributes
             (@babel_esalist_derive Example.env
                [Example.csa_alpha; Example.csa_beta] 0
                (@keys_valid_for_send Example.env))).
Proof.
  apply (@esalist_derive_no_duplicates Example.env).
  repeat constructor; simpl; lia.
Defined.

Lemma esalist_derive_keys_contents (algo : Z) (c : nat) (keys : list key) :
  forall (l : list babel_esa_item) (kc : nat),
  Forall esa_regular l ->
  let r := fst (esalist_derive_keys algo c keys l kc) in
  Forall esa_regular r
  /\ (forall e, In e l -> In e r)
  /\ (forall e, In e r -> In e l \/ exists k, In k keys /\ esa_of_key algo k e)
  /\ (forall k, In k keys -> exists e, In e r /\ esa_of_key algo k e).
Proof.
  induction keys as [|k rest IH]; intros l kc Hreg;
    cbn [esalist_derive_keys fst].
  - repeat split; auto. intros k [].
  - set (kid := key_index k mod (UINT16_MAX + 1)).
    assert (Hkid : 0 <= kid < 65536)
      by (unfold kid, UINT16_MAX; apply Z.mod_pos_bound; lia).
    destruct (babel_esa_item_exists l algo kid _ _) eqn:Hex.
    + destruct (IH l kc Hreg) as (R1 & R2 & R3 & R4).
      split; [exact R1|]. split; [exact R2|]. split.
      * intros e He. destruct (R3 e He) as [Hl|(k' & Hk' & Hof)]; [now left|].
        right. exists k'. split; [now right|assumption].
      * intros k' [<-|Hk']; [|now apply R4].
        destruct (babel_esa_item_exists_true l algo kid (key_string k) Hreg Hex)
          as (e & He & Ha & Hk & Hl & Hs).
        exists e. split; [now apply R2|].
        rewrite Forall_forall in Hreg. destruct (Hreg e He) as [Hrange _].
        unfold esa_of_key, u16. rewrite <- Ha, Z.mod_small by assumption.
        auto.
    + set (v := set_sort_order _ kc c).
      assert (Hv : esa_of_key algo k v).
      { unfold esa_of_key, v. cbn. rewrite firstn_all.
        split; [reflexivity|]. split; [|split; reflexivity].
        unfold u16. change (kid mod 65536 = kid). now apply Z.mod_small. }
      assert (Hreg' : Forall esa_regular (esa_add_sort l v)).
      { apply Forall_forall. intros x Hx.
        apply listnode_add_sort_In in Hx as [->|Hx].
        - apply esa_regular_alloc.
        - rewrite Forall_forall in Hreg. now apply Hreg. }
      destruct (IH (esa_add_sort l v) (S kc) Hreg') as (R1 & R2 & R3 & R4).
      split; [exact R1|]. split; [|split].
      * intros e He. apply R2. apply listnode_add_sort_In. now right.
      * intros e He. destruct (R3 e He) as [Hl|(k' & Hk' & Hof)].
        -- apply listnode_add_sort_In in Hl as [->|Hl]; [|now left].
           right. exists k. split; [now left|assumption].
        -- right. exists k'. split; [now right|assumption].
      * intros k' [<-|Hk']; [|now apply R4].
        exists v. split; [|assumption].
        apply R2. apply listnode_add_sort_In. now left.
Qed.

Lemma esalist_derive_csas_contents {env : AuthEnv} (now : Z)
    (f : keychain -> Z -> list key) (csas : list babel_csa_item) :
  forall (l : list babel_esa_item) (c : nat),
  Forall esa_regular l ->
  let r := esalist_derive_csas csas now f l c in
  Forall esa_regular r
  /\ (forall e, In e l -> In e r)
  /\ (forall e, In e r ->
        In e l \/ exists csa kc k,
                    In csa csas /\ keychain_lookup (keychain_name csa) = Some kc
                    /\ In k (f kc now) /\ esa_of_key (csa_hash_algo csa) k e)
  /\ (forall csa kc k,
        In csa csas -> keychain_lookup (keychain_name csa) = Some kc ->
        In k (f kc now) ->
        exists e, In e r /\ esa_of_key (csa_hash_algo csa) k e).
Proof.
  induction csas as [|csa rest IH]; intros l c Hreg;
    cbn [esalist_derive_csas].
  - repeat split; auto. intros csa kc k [].
  - destruct (keychain_lookup (keychain_name csa)) as [kc|] eqn:Hkc.
    + destruct (esalist_derive_keys_contents (csa_hash_algo csa) c (f kc now)
                  l 0 Hreg) as (K1 & K2 & K3 & K4).
      destruct (esalist_derive_keys _ _ _ _ _) as [l' n']. cbn [fst] in *.
      destruct (IH l' (S c) K1) as (R1 & R2 & R3 & R4).
      split; [exact R1|]. split; [|split].
      * intros e He. apply R2. now apply K2.
      * intros e He.
        destruct (R3 e He) as [Hl|(csa' & kc' & k & Hc & Hl & Hk & Hof)].
        -- destruct (K3 e Hl) as [Hl0|(k & Hk & Hof)]; [now left|].
           right. exists csa, kc, k. split; [now left|]. auto.
        -- right. exists csa', kc', k. split; [now right|]. auto.
      * intros csa' kc' k [<-|Hc] Hl Hk.
        -- rewrite Hkc in Hl. injection Hl as <-.
           destruct (K4 k Hk) as (e & He & Hof). exists e. auto.
        -- now apply (R4 csa' kc' k).
    + destruct (IH l c Hreg) as (R1 & R2 & R3 & R4).
      split; [exact R1|]. split; [exact R2|]. split.
      * intros e He.
        destruct (R3 e He) as [Hl|(csa' & kc' & k & Hc & Hl & Hk & Hof)];
          [now left|].
        right. exists csa', kc', k. split; [now right|]. auto.
      * intros csa' kc' k [<-|Hc] Hl Hk; [congruence|].
        now apply (R4 csa' kc' k).
Qed.

(** X4: the derived ESA list holds exactly the keys the filter function
    lets through from the keychains of the CSAs: an ESA with algorithm
    [a], key identifier [i] and secret [s] is in the list if and only if
    some CSA with an existing keychain has the algorithm [a] (through the
    16-bit parameter) and a filtered key of index [i] modulo 65536 and
    string [s]. *)
Theorem esalist_derive_contents {env : AuthEnv}
    (csas : list babel_csa_item) (now : Z) (f : keychain -> Z -> list key)
    (a i : Z) (s : list byte) :
  (exists e, In e (babel_esalist_derive csas now f)
             /\ hash_algo e = a /\ key_id e = i
             /\ key_len e = length s /\ key_secret e = s)
  <-> (exists csa kc k,
         In csa csas /\ keychain_lookup (keychain_name csa) = Some kc
         /\ In k (f kc now)
         /\ a = u16 (csa_hash_algo csa)
         /\ i = key_index k mod (UINT16_MAX + 1) /\ s = key_string k).
Proof.
  unfold babel_esalist_derive.
  destruct (esalist_derive_csas_contents now f csas [] 0 (Forall_nil _))
    as (_ & _ & Hsound & Hcomplete).
  split.
  - intros (e & He & Ha & Hi & Hl & Hs).
    destruct (Hsound e He) as [[]|(csa & kc & k & Hc & Hkc & Hk & Hof)].
    destruct Hof as (Oa & Oi & Ol & Os).
    exists csa, kc, k. repeat split; auto; congruence.
  - intros (csa & kc & k & Hc & Hkc & Hk & -> & -> & ->).
    destruct (Hcomplete csa kc k Hc Hkc Hk) as (e & He & Oa & Oi & Ol & Os).
    exists e. auto.
Qed.

(** X2: the derived ESA list has the first keys of all CSAs in the order
    of the CSAs, then all second keys in the same order, and so on.  The
    list is strictly sorted by major, then minor sort order.  The ESAs
    with minor sort order [j], in the order of the list, have the major
    sort orders 0, 1, 2, ... and are made, with the algorithm of the
    [j]th CSA whose keychain exists, from keys of that CSA's filtered key
    list in the order of the keys; a key of the CSA that is left out has
    its attributes in an ESA of the list all the same.  There is no ESA
    with minor sort order [j] when fewer CSAs have a keychain. *)
Theorem esalist_derive_keys_in_order {env : AuthEnv}
    (csas : list babel_csa_item) (now : Z) (f : keychain -> Z -> list key)
    (j : nat) :
  let derived := babel_esalist_derive csas now f in
  StronglySorted esa_lt derived
  /\ map sort_order_major (esas_of_csa j derived)
     = seq 0 (length (esas_of_csa j derived))
  /\ match nth_error (csas_with_keychain csas) j with
     | Some csa =>
         exists kc ks,
           keychain_lookup (keychain_name csa) = Some kc
           /\ subseq ks (f kc now)
           /\ Forall2 (esa_of_key (csa_hash_algo csa)) ks
                      (esas_of_csa j derived)
           /\ (forall k, In k (f kc now) ->
                         exists e, In e derived
                                   /\ esa_of_key (csa_hash_algo csa) k e)
     | None => esas_of_csa j derived = []
     end.
Proof.
  intros derived. unfold derived, babel_esalist_derive.
  assert (H0 : StronglySorted esa_le []) by constructor.
  assert (H1 : majors_consecutive []) by (intros c; reflexivity).
  assert (H2 : forall c, (0 <= c)%nat -> esas_of_csa c [] = [])
    by (intros c _; reflexivity).
  destruct (esalist_derive_csas_inv now f csas [] 0%nat H0 H1 H2) as [Hs Hc].
  split; [|split; [apply Hc|]].
  - apply esas_sorted_distinct_lt; [exact Hs|].
    intros c. rewrite (Hc c). apply seq_NoDup.
  - destruct (esalist_derive_csas_order now f j csas [] 0%nat H0 H1 H2)
      as [_ Hhigh].
    specialize (Hhigh (Nat.le_0_l j)). rewrite Nat.sub_0_r in Hhigh.
    destruct (nth_error (csas_with_keychain csas) j) as [csa|] eqn:Hnth;
      [|exact Hhigh].
    destruct Hhigh as (kc & ks & Hkc & Hsub & Hall).
    exists kc, ks. split; [exact Hkc|]. split; [exact Hsub|].
    split; [exact Hall|].
    apply nth_error_In in Hnth. unfold csas_with_keychain in Hnth.
    apply filter_In in Hnth as [Hin _].
    destruct (esalist_derive_csas_contents now f csas [] 0 (Forall_nil _))
      as (_ & _ & _ & Hcomplete).
    intros k Hk. exact (Hcomplete csa kc k Hin Hkc Hk).
Qed.

(** * The inbound checker on arbitrary input *)

Section RunCases.
Context {env : AuthEnv}.

Lemma check_tspc_loop_cases (fuel : nat) :
  forall (pools : stat_pools) (packet : stream) (stor_pc stor_ts v : Z)
         (pools' : stat_pools),
  check_tspc_loop fuel pools packet stor_pc stor_ts = Some (v, pools') ->
  (v = -1 /\ pools' = bump incr_auth_recv_ng_no_tspc pools)
  \/ (v = -1 /\ pools' = bump incr_auth_recv_ng_tspc pools)
  \/ (0 <= v /\ pools' = pools).
Proof.
  induction fuel as [|fuel IH]; intros pools packet stor_pc stor_ts v pools' H;
    cbn [check_tspc_loop] in H; [discriminate|].
  destruct (STREAM_READABLE packet =? 0)%nat.
  { injection H as <- <-. now left. }
  destruct (stream_getc packet) as [[tlv_type packet1]|]; [|discriminate].
  destruct (Byte.eqb tlv_type MESSAGE_PAD1); [now apply IH in H|].
  destruct (stream_getc packet1) as [[tlv_length packet2]|]; [|discriminate].
  destruct (negb (Byte.eqb tlv_type MESSAGE_TSPC)).
  { destruct (stream_forward_getp packet2 _); [|discriminate].
    now apply IH in H. }
  destruct (stream_getw packet2) as [[tlv_pc packet3]|] eqn:Ew; [|discriminate].
  destruct (stream_getl packet3) as [[tlv_ts packet4]|] eqn:El; [|discriminate].
  destruct ((tlv_ts >? stor_ts) || _).
  - injection H as <- <-. right. right. split; [|reflexivity].
    unfold stream_getw, stream_get in Ew.
    destruct (stream_peek packet2 _ 2); [|discriminate].
    injection Ew as _ <-.
    unfold stream_getl, stream_get in El. cbn [s_getp s_data s_endp] in El.
    destruct (stream_peek _ _ 4); [|discriminate].
    injection El as _ <-. unfold stream_get_getp. cbn [s_getp]. lia.
  - injection H as <- <-. right. now left.
Qed.

Lemma try_hmac_loop_ret (padded : stream) (esa : babel_esa_item) (fuel : nat) :
  forall (pools : stat_pools) (packet : stream) (done calls : nat)
         (local_digest : option (list byte)) (res : Z),
  tr_ret (try_hmac_loop fuel pools packet padded esa done calls local_digest)
  = Some res ->
  res = MSG_OK \/ res = MSG_NG.
Proof.
  induction fuel as [|fuel IH]; intros pools packet done calls local_digest res;
    cbn [try_hmac_loop]; [discriminate|].
  repeat match goal with
         | |- tr_ret (try_hmac_loop _ _ _ _ _ _ _ _) = _ -> _ => apply IH
         | |- tr_ret {| tr_ret := _ |} = _ -> _ =>
             cbn [tr_ret]; intros H; inversion H; auto
         | |- tr_ret (if ?c then _ else _) = _ -> _ => destruct c eqn:?
         | |- tr_ret (match ?c with _ => _ end) = _ -> _ => destruct c eqn:?
         end.
Qed.

Lemma check_esa_loop_ret (packet padded : stream)
    (esalist : list babel_esa_item) :
  forall (pools : stat_pools) (done calls : nat) (result res : Z),
  result = MSG_OK \/ result = MSG_NG ->
  tr_ret (check_esa_loop esalist pools packet padded done calls result)
  = Some res ->
  res = MSG_OK \/ res = MSG_NG.
Proof.
  induction esalist as [|esa rest IH]; intros pools done calls result res Hres;
    cbn [check_esa_loop tr_ret].
  - intros H. injection H as <-. exact Hres.
  - set (r1 := babel_auth_try_hmac_tlvs pools packet padded esa done calls).
    assert (H1 : forall x, tr_ret r1 = Some x -> x = MSG_OK \/ x = MSG_NG).
    { intros x. unfold r1, babel_auth_try_hmac_tlvs.
      destruct (done =? BABEL_MAXDIGESTSIN)%nat.
      - cbn [tr_ret]. intros H. injection H as <-. now right.
      - destruct (stream_set_getp packet 4); [|discriminate].
        apply try_hmac_loop_ret. }
    destruct (tr_ret r1) as [x|] eqn:Ex; [|congruence].
    destruct (x =? MSG_OK).
    + rewrite Ex. intros H. injection H as <-. now apply H1.
    + apply IH. now apply H1.
Qed.

Lemma pools_upto_errors_refl (pools : stat_pools) :
  pools_upto_errors pools pools.
Proof. intros f _ _. split; reflexivity. Qed.

Lemma pools_upto_errors_loop (packet padded : stream)
    (esalist : list babel_esa_item) (pools : stat_pools) :
  let pools0 :=
    if (length esalist =? 0)%nat then bump incr_auth_recv_ng_nokeys pools
    else pools in
  pools_upto_errors pools
    (tr_pools (check_esa_loop esalist pools0 packet padded 0 0 MSG_NG)).
Proof.
  intros pools0 f Hf Hg.
  destruct (check_esa_loop_pools f Hf packet padded esalist pools0 0 0 MSG_NG)
    as [H1 H2].
  rewrite H1, H2. unfold pools0.
  destruct (length esalist =? 0)%nat; cbn [bump global_stats if_stats];
    rewrite ?Hg; split; reflexivity.
Qed.

(** The ways a run of the checker ends. *)
Ltac abort_case :=
  eexists _, _, _; split; [|reflexivity]; assumption.

Lemma check_packet_run_cases (st : auth_state) (ifp : interface)
    (from input : list byte) (now : Z) :
  let r := babel_auth_check_packet_run st ifp from input now in
  let pools := pools_of st ifp in
  let verdict := if authrxreq (info ifp) then MSG_NG else MSG_OK in
  (csalist (info ifp) = []
   /\ r = check_end (Some MSG_OK) st ifp (bump incr_plain_recv pools) 0 0)
  \/ (csalist (info ifp) <> []
      /\ ((exists pools' done calls,
             pools_upto_errors pools pools'
             /\ r = check_end None st ifp pools' done calls)
          \/ r = check_end (Some verdict) st ifp
                           (bump incr_auth_recv_ng_no_tspc pools) 0 0
          \/ r = check_end (Some verdict) st ifp
                           (bump incr_auth_recv_ng_tspc pools) 0 0
          \/ (exists pools' done calls,
                pools_upto_errors pools pools'
                /\ r = check_end (Some verdict) st ifp
                                 (bump incr_auth_recv_ng_hmac pools') done calls)
          \/ (exists pools' done calls pc ts,
                pools_upto_errors pools pools'
                /\ r = check_end (Some MSG_OK)
                       (set_anmlist st
                          (anm_assign
                             (babel_anm_get (anmlist st) from (if_id ifp))
                             from (if_id ifp) pc ts now))
                       ifp (bump incr_auth_recv_ok pools') done calls))).
Proof.
  intros r pools verdict. unfold r, babel_auth_check_packet_run.
  pose proof (pools_upto_errors_refl pools) as Hrefl.
  destruct (csalist (info ifp)) as [|csa csas] eqn:Hcsa; cbn [length Nat.eqb].
  { left. split; reflexivity. }
  right. split; [discriminate|]. rewrite <- Hcsa. fold pools.
  destruct (stream_put _ input) as [packet|]; [|left; abort_case].
  destruct (match babel_anm_lookup _ _ _ with Some _ => _ | None => _ end)
    as [neigh_pc neigh_ts].
  destruct (babel_auth_check_tspc pools packet neigh_pc neigh_ts)
    as [[tspc_getp pools1]|] eqn:Etspc; [|left; abort_case].
  unfold babel_auth_check_tspc in Etspc.
  destruct (stream_set_getp packet 4) as [packet4|]; [|discriminate].
  apply check_tspc_loop_cases in Etspc.
  destruct Etspc as [[-> ->]|[[-> ->]|[Hv ->]]].
  { right. left. reflexivity. }
  { right. right. left. reflexivity. }
  destruct (Z.eqb_spec tspc_getp (-1)) as [E|_]; [lia|].
  destruct (babel_auth_pad_packet packet from) as [padded|]; [|left; abort_case].
  set (esalist := babel_esalist_derive _ _ _).
  pose proof (pools_upto_errors_loop packet padded esalist pools) as Hup.
  cbv zeta in Hup.
  set (lr := check_esa_loop esalist _ packet padded 0 0 MSG_NG) in *.
  clear Hrefl.
  destruct (tr_ret lr) as [result|] eqn:Eret; [|left; abort_case].
  apply check_esa_loop_ret in Eret; [|now right].
  destruct Eret as [->| ->]; cbn [negb Z.eqb MSG_OK MSG_NG].
  - destruct (stream_getw_from packet _) as [pc|]; [|left; abort_case].
    destruct (stream_getl_from packet _) as [ts|]; [|left; abort_case].
    right. right. right. right.
    exists (tr_pools lr), (tr_done lr), (tr_calls lr), pc, ts.
    split; [exact Hup|]. now destruct (authrxreq (info ifp)).
  - right. right. right. left.
    exists (tr_pools lr), (tr_done lr), (tr_calls lr).
    split; [exact Hup|]. unfold verdict. now destruct (authrxreq (info ifp)).
Qed.
End RunCases.

(** ** The TS/PC step of the checker *)

Section TspcAccept.
Context {env : AuthEnv}.
Variables (st : auth_state) (ifp : interface) (from : list byte) (now : Z).
Variables (hdr : list byte) (before : list tlv) (len p0 p1 t0 t1 t2 t3 : byte).
Variable tail : list byte.
Hypothesis Hcsa : csalist (info ifp) <> [].
Hypothesis Hhdr : length hdr = 4%nat.
Hypothesis Hbefore : forallb tlv_not_tspc before = true.

Let input := tspc_packet hdr before len [p0; p1] [t0; t1; t2; t3] tail.
Let tlv_pc := be_value [p0; p1].
Let tlv_ts := be_value [t0; t1; t2; t3].

End TspcAccept.



(** ** Return values *)

(** X5: whatever the packet, the inbound checker returns OK or NG, unless
    it stops on a failed bounds assertion of the stream library; it
    returns NG only on an interface with CSAs that requires
    authentication, so without [authrxreq] every packet it has checked is
    passed on. *)
Theorem check_packet_returns_ok_or_ng {env : AuthEnv} (st : auth_state)
    (ifp : interface) (from input : list byte) (now : Z) :
  let r := babel_auth_check_packet_run st ifp from input now in
  ck_ret r = None \/ ck_ret r = Some MSG_OK
  \/ (ck_ret r = Some MSG_NG /\ authrxreq (info ifp) = true
      /\ csalist (info ifp) <> []).
Proof.
  intros r.
  destruct (check_packet_run_cases st ifp from input now)
    as [[_ E]|[Hcsa [(p & d & c & Hup & E)|[E|[E|[(p & d & c & _ & E)
                    |(p & d & c & pc & ts & _ & E)]]]]]];
    fold r in E; rewrite E; cbn [check_end ck_ret]; auto;
    destruct (authrxreq (info ifp)); auto.
Qed.

(** ** The memory under the checker *)

Lemma anm_matches_key (addr : list byte) (ifp : nat) (anm : babel_anm_item) :
  anm_matches addr ifp anm = true
  <-> anm_key anm = (firstn IPV6_MAX_BYTELEN addr, ifp).
Proof.
  unfold anm_matches, IPV6_ADDR_SAME, memcmp_eq, anm_key.
  rewrite andb_true_iff, bytes_eqb_eq, Nat.eqb_eq.
  split; [intros [-> ->]; reflexivity|intros H; now injection H].
Qed.

Lemma anm_assign_keys (l : list babel_anm_item) (addr : list byte) (ifp : nat)
    (pc ts recv : Z) :
  map anm_key (anm_assign l addr ifp pc ts recv) = map anm_key l.
Proof.
  induction l as [|a rest IH]; cbn [anm_assign map]; [reflexivity|].
  destruct (anm_matches addr ifp a); cbn [map]; [reflexivity|].
  now rewrite IH.
Qed.

Lemma NoDup_snoc {A : Type} (l : list A) (x : A) :
  NoDup l -> ~ In x l -> NoDup (l ++ [x]).
Proof.
  induction 1 as [|a rest Ha Hnd IH]; intros Hx; cbn [app].
  - constructor; [auto|constructor].
  - constructor.
    + intros Hin. apply in_app_or in Hin as [Hin|[->|[]]]; [auto|].
      apply Hx. now left.
    + apply IH. intros Hin. apply Hx. now right.
Qed.

Lemma babel_anm_lookup_none (l : list babel_anm_item) (addr : list byte)
    (ifp : nat) :
  babel_anm_lookup l addr ifp = None
  <-> ~ In (firstn IPV6_MAX_BYTELEN addr, ifp) (map anm_key l).
Proof.
  unfold babel_anm_lookup. induction l as [|a rest IH]; cbn [find map In].
  - tauto.
  - destruct (anm_matches addr ifp a) eqn:E.
    + apply anm_matches_key in E. split; [discriminate|]. intros H.
      exfalso. apply H. now left.
    + rewrite IH. split; [|tauto]. intros H [Hk|Hin]; [|tauto].
      apply anm_matches_key in Hk. congruence.
Qed.

Lemma babel_anm_get_unique (l : list babel_anm_item) (addr : list byte)
    (ifp : nat) :
  anm_unique l -> anm_unique (babel_anm_get l addr ifp).
Proof.
  unfold anm_unique, babel_anm_get. intros Hnd.
  destruct (babel_anm_lookup l addr ifp) eqn:E; [assumption|].
  rewrite map_app. apply NoDup_snoc; [assumption|].
  apply babel_anm_lookup_none in E. unfold anm_key at 1.
  cbn [address anm_ifp]. now rewrite firstn_firstn, Nat.min_id.
Qed.

Lemma babel_anm_lookup_assign_other (l : list babel_anm_item)
    (addr addr' : list byte) (ifp ifp' : nat) (pc ts recv : Z) :
  (firstn IPV6_MAX_BYTELEN addr', ifp') <> (firstn IPV6_MAX_BYTELEN addr, ifp) ->
  babel_anm_lookup (anm_assign l addr ifp pc ts recv) addr' ifp'
  = babel_anm_lookup l addr' ifp'.
Proof.
  intros Hne. unfold babel_anm_lookup.
  induction l as [|a rest IH]; cbn [anm_assign find]; [reflexivity|].
  destruct (anm_matches addr ifp a) eqn:E; cbn [find].
  - rewrite anm_matches_assigned.
    destruct (anm_matches addr' ifp' a) eqn:E'; [|reflexivity].
    apply anm_matches_key in E, E'. congruence.
  - now rewrite IH.
Qed.

Lemma babel_anm_lookup_get_other (l : list babel_anm_item)
    (addr addr' : list byte) (ifp ifp' : nat) :
  (firstn IPV6_MAX_BYTELEN addr', ifp') <> (firstn IPV6_MAX_BYTELEN addr, ifp) ->
  babel_anm_lookup (babel_anm_get l addr ifp) addr' ifp'
  = babel_anm_lookup l addr' ifp'.
Proof.
  intros Hne. unfold babel_anm_get.
  destruct (babel_anm_lookup l addr ifp); [reflexivity|].
  unfold babel_anm_lookup.
  destruct (find (anm_matches addr' ifp') l) as [x|] eqn:E.
  - clear - E. induction l as [|a rest IH]; cbn [find app] in *; [discriminate|].
    destruct (anm_matches addr' ifp' a); [assumption|now apply IH].
  - rewrite (find_app_none _ _ _ E). cbn [find].
    match goal with |- (if ?c then _ else _) = _ => destruct c eqn:E' end;
      [|reflexivity].
    apply anm_matches_key in E'. unfold anm_key in E'.
    cbn [address anm_ifp] in E'.
    rewrite firstn_firstn, Nat.min_id in E'. congruence.
Qed.

Lemma check_packet_run_anmlist {env : AuthEnv} (st : auth_state)
    (ifp : interface) (from input : list byte) (now : Z) :
  let r := babel_auth_check_packet_run st ifp from input now in
  anmlist (ck_state r) = anmlist st
  \/ exists pc ts,
       anmlist (ck_state r)
       = anm_assign (babel_anm_get (anmlist st) from (if_id ifp))
                    from (if_id ifp) pc ts now.
Proof.
  intros r.
  destruct (check_packet_run_cases st ifp from input now)
    as [[_ E]|[Hcsa [(p & d & c & Hup & E)|[E|[E|[(p & d & c & _ & E)
                    |(p & d & c & pc & ts & Hup & E)]]]]]];
    fold r in E; rewrite E; try (left; reflexivity).
  right. exists pc, ts. reflexivity.
Qed.

(** X6: the checker writes the memory for accepted packets only.
    Whatever the packet, either the memory is left as it was, or the
    checker has returned OK, counted the packet under auth_recv_ok and
    assigned a pair and the time of reception to the record of (sender,
    interface), creating the record if there was none. *)
Theorem anm_written_only_on_accept {env : AuthEnv} (st : auth_state)
    (ifp : interface) (from input : list byte) (now : Z) :
  let r := babel_auth_check_packet_run st ifp from input now in
  anmlist (ck_state r) = anmlist st
  \/ (ck_ret r = Some MSG_OK
      /\ auth_recv_ok (stats (ck_state r)) = ulong_incr (auth_recv_ok (stats st))
      /\ exists pc ts,
           anmlist (ck_state r)
           = anm_assign (babel_anm_get (anmlist st) from (if_id ifp))
                        from (if_id ifp) pc ts now).
Proof.
  intros r.
  destruct (check_packet_run_cases st ifp from input now)
    as [[_ E]|[Hcsa [(p & d & c & Hup & E)|[E|[E|[(p & d & c & _ & E)
                    |(p & d & c & pc & ts & Hup & E)]]]]]];
    fold r in E; rewrite E; try (left; reflexivity).
  right. split; [reflexivity|]. split; [|exists pc, ts; reflexivity].
  unfold check_end, store_pools.
  cbn [ck_state fst stats set_stats bump global_stats incr_auth_recv_ok
       auth_recv_ok].
  f_equal. now apply (Hup auth_recv_ok).
Qed.

(** X7: a check of a packet of one sender on one interface leaves the
    records of every other (address, interface) pair alone: whatever the
    packet, the lookup for another pair gives afterwards what it gave
    before. *)
Theorem anm_other_neighbors_kept {env : AuthEnv} (st : auth_state)
    (ifp : interface) (from input : list byte) (now : Z)
    (addr' : list byte) (ifp' : nat) :
  (firstn IPV6_MAX_BYTELEN addr', ifp')
  <> (firstn IPV6_MAX_BYTELEN from, if_id ifp) ->
  babel_anm_lookup
    (anmlist (ck_state (babel_auth_check_packet_run st ifp from input now)))
    addr' ifp'
  = babel_anm_lookup (anmlist st) addr' ifp'.
Proof.
  intros Hne.
  destruct (check_packet_run_anmlist st ifp from input now)
    as [->|(pc & ts & ->)]; [reflexivity|].
  rewrite babel_anm_lookup_assign_other by assumption.
  now apply babel_anm_lookup_get_other.
Qed.

Lemma anm_other_neighbors_kept_witness :
  let st := Example.state BABEL_TS_BASE_ZERO [Example.neighbor 3 7 7] in
  let ifp := Example.iface 2 (Example.babel_if [Example.csa_alpha] true 0 0) in
  let P := tspc_packet Example.signed_header [Example.hello] Byte.x06
             [Byte.x00; Byte.x01] [Byte.x00; Byte.x00; Byte.x00; Byte.x00]
             (encode_tlv (Example.hmac_tlv 1 Example.signed_digest)) in
  babel_anm_lookup
    (anmlist (ck_state (@babel_auth_check_packet_run Example.env st ifp
                          Example.addr1 P 1000)))
    Example.addr1 3
  = Some (Example.neighbor 3 7 7).
Proof.
  intros st ifp P.
  rewrite (@anm_other_neighbors_kept Example.env st ifp Example.addr1 P 1000
             Example.addr1 3).
  - reflexivity.
  - discriminate.
Defined.

Lemma housekeeping_loop_In (timeout now : Z) (l : list babel_anm_item)
    (anm : babel_anm_item) :
  In anm (housekeeping_loop timeout now l)
  <-> In anm l /\ now <= last_recv anm + timeout.
Proof.
  induction l as [|a rest IH]; cbn [housekeeping_loop In]; [tauto|].
  destruct (Z.ltb_spec (last_recv a + timeout) now) as [Hlt|Hge].
  - rewrite IH. split; [tauto|]. intros [[->|Hin] Hf]; [lia|tauto].
  - cbn [In]. rewrite IH. split.
    + intros [->|[Hin Hf]]; [split; [now left|lia]|tauto].
    + tauto.
Qed.

Lemma housekeeping_loop_unique (timeout now : Z) (l : list babel_anm_item) :
  anm_unique l -> anm_unique (housekeeping_loop timeout now l).
Proof.
  unfold anm_unique.
  induction l as [|a rest IH]; cbn [housekeeping_loop map]; [auto|].
  intros Hnd. inversion Hnd as [|? ? Ha Hrest]; subst.
  destruct (last_recv a + timeout <? now); [now apply IH|].
  cbn [map]. constructor; [|now apply IH].
  intros Hin. apply Ha. apply in_map_iff in Hin as (x & Hx & Hin).
  apply housekeeping_loop_In in Hin as [Hin _].
  rewrite <- Hx. now apply in_map.
Qed.

(** X8: the memory holds at most one record for an (address, interface)
    pair, and every operation that writes the memory keeps it so: a check
    of any packet, the housekeeping timer and the clearing command. *)
Theorem anm_unique_preserved {env : AuthEnv} (st : auth_state)
    (ifp : interface) (from input : list byte) (now : Z) :
  anm_unique (anmlist st) ->
  anm_unique (anmlist (ck_state (babel_auth_check_packet_run st ifp from input now)))
  /\ anm_unique (anmlist (babel_auth_do_housekeeping st now))
  /\ anm_unique (anmlist (clear_babel_authentication_memory st)).
Proof.
  intros Hu. split; [|split].
  - destruct (check_packet_run_anmlist st ifp from input now)
      as [->|(pc & ts & ->)]; [assumption|].
    unfold anm_unique. rewrite anm_assign_keys.
    now apply babel_anm_get_unique.
  - now apply housekeeping_loop_unique.
  - constructor.
Qed.

Lemma anm_unique_preserved_witness :
  let st := Example.state BABEL_TS_BASE_ZERO [Example.neighbor 3 7 7] in
  let ifp := Example.iface 2 (Example.babel_if [Example.csa_alpha] true 0 0) in
  let P := tspc_packet Example.signed_header [Example.hello] Byte.x06
             [Byte.x00; Byte.x01] [Byte.x00; Byte.x00; Byte.x00; Byte.x00]
             (encode_tlv (Example.hmac_tlv 1 Example.signed_digest)) in
  length (anmlist (ck_state (@babel_auth_check_packet_run Example.env st ifp
                               Example.addr1 P 1000))) = 2%nat
  /\ anm_unique
       (anmlist (ck_state (@babel_auth_check_packet_run Example.env st ifp
                             Example.addr1 P 1000))).
Proof.
  intros st ifp P. split; [reflexivity|].
  apply (@anm_unique_preserved Example.env st ifp Example.addr1 P 1000).
  unfold anm_unique. repeat constructor. simpl. tauto.
Defined.

Lemma housekeeping_loop_lookup (timeout now : Z) (l : list babel_anm_item)
    (addr : list byte) (ifp : nat) :
  anm_unique l ->
  babel_anm_lookup (housekeeping_loop timeout now l) addr ifp
  = match babel_anm_lookup l addr ifp with
    | Some anm => if last_recv anm + timeout <? now then None else Some anm
    | None => None
    end.
Proof.
  unfold anm_unique, babel_anm_lookup.
  induction l as [|a rest IH]; cbn [housekeeping_loop find]; [reflexivity|].
  intros Hu. cbn [map] in Hu. inversion Hu as [|? ? Ha Hrest]; subst.
  destruct (anm_matches addr ifp a) eqn:E.
  - destruct (Z.ltb_spec (last_recv a + timeout) now) as [Hlt|Hge].
    + apply babel_anm_lookup_none. apply anm_matches_key in E.
      rewrite <- E. intros Hin. apply Ha.
      apply in_map_iff in Hin as (x & Hx & Hin).
      apply housekeeping_loop_In in Hin as [Hin _].
      rewrite <- Hx. now apply in_map.
    + cbn [find]. now rewrite E.
  - destruct (last_recv a + timeout <? now); [now apply IH|].
    cbn [find]. rewrite E. now apply IH.
Qed.

(** X9: the housekeeping timer deletes exactly the records that no
    packet has refreshed within the timeout.  In a memory without double
    records, the lookup for a pair gives afterwards the record it gave
    before if [last_recv + anm_timeout >= now], and nothing otherwise;
    every record left is within the timeout, and the parameters and the
    counters are not touched. *)
Theorem housekeeping_flushes_expired (st : auth_state) (now : Z)
    (addr : list byte) (ifp : nat) :
  anm_unique (anmlist st) ->
  let st' := babel_auth_do_housekeeping st now in
  babel_anm_lookup (anmlist st') addr ifp
  = match babel_anm_lookup (anmlist st) addr ifp with
    | Some anm =>
        if last_recv anm + anm_timeout st <? now then None else Some anm
    | None => None
    end
  /\ Forall (fun anm => now <= last_recv anm + anm_timeout st) (anmlist st')
  /\ ts_base st' = ts_base st /\ anm_timeout st' = anm_timeout st
  /\ stats st' = stats st.
Proof.
  intros Hu st'. split; [|split; [|repeat split]].
  - unfold st', babel_auth_do_housekeeping. cbn [anmlist set_anmlist].
    now apply housekeeping_loop_lookup.
  - apply Forall_forall. intros anm Hin.
    unfold st', babel_auth_do_housekeeping in Hin. cbn [anmlist set_anmlist] in Hin.
    now apply housekeeping_loop_In in Hin as [_ Hf].
Qed.

Lemma housekeeping_flushes_expired_witness :
  let st := {| ts_base := BABEL_TS_BASE_UNIX; anm_timeout := 300;
               anmlist := [{| address := Example.addr1; anm_ifp := 1;
                              last_recv := 500; last_pc := 7; last_ts := 7 |};
                           {| address := Example.addr1; anm_ifp := 2;
                              last_recv := 900; last_pc := 1; last_ts := 1 |}];
               stats := Example.no_stats |} in
  babel_anm_lookup (anmlist (babel_auth_do_housekeeping st 1000)) Example.addr1 1
  = None
  /\ babel_anm_lookup (anmlist (babel_auth_do_housekeeping st 1000))
                      Example.addr1 2
     = babel_anm_lookup (anmlist st) Example.addr1 2.
Proof.
  intros st.
  assert (Hu : anm_unique (anmlist st)).
  { unfold anm_unique. repeat constructor; simpl; [|tauto].
    intros [H|[]]. discriminate H. }
  split.
  - destruct (housekeeping_flushes_expired st 1000 Example.addr1 1 Hu) as [-> _].
    reflexivity.
  - destruct (housekeeping_flushes_expired st 1000 Example.addr1 2 Hu) as [-> _].
    reflexivity.
Defined.

(** ** Counters under the checker *)

(** X10: every packet the checker returns a value for ends in exactly
    one of five counters: plain_recv, auth_recv_ok, auth_recv_ng_no_tspc,
    auth_recv_ng_tspc or auth_recv_ng_hmac is incremented, the same one
    in the global and in the interface's counters, and the other four
    stay as they were. *)
Theorem check_packet_counts_one_outcome {env : AuthEnv} (st : auth_state)
    (ifp : interface) (from input : list byte) (now : Z) :
  let r := babel_auth_check_packet_run st ifp from input now in
  ck_ret r = None
  \/ exists n,
       (n < 5)%nat
       /\ recv_outcomes (stats (ck_state r)) = incr_nth n (recv_outcomes (stats st))
       /\ recv_outcomes (auth_stats (info (ck_ifp r)))
          = incr_nth n (recv_outcomes (auth_stats (info ifp))).
Proof.
  intros r.
  assert (Hups : forall pools',
    pools_upto_errors (pools_of st ifp) pools' ->
    recv_outcomes (global_stats pools') = recv_outcomes (stats st)
    /\ recv_outcomes (if_stats pools') = recv_outcomes (auth_stats (info ifp))).
  { intros pools' Hup. unfold recv_outcomes.
    destruct (Hup plain_recv (fun _ => eq_refl) (fun _ => eq_refl)) as [-> ->].
    destruct (Hup auth_recv_ok (fun _ => eq_refl) (fun _ => eq_refl)) as [-> ->].
    destruct (Hup auth_recv_ng_no_tspc (fun _ => eq_refl) (fun _ => eq_refl))
      as [-> ->].
    destruct (Hup auth_recv_ng_tspc (fun _ => eq_refl) (fun _ => eq_refl))
      as [-> ->].
    destruct (Hup auth_recv_ng_hmac (fun _ => eq_refl) (fun _ => eq_refl))
      as [-> ->].
    split; reflexivity. }
  destruct (check_packet_run_cases st ifp from input now)
    as [[_ E]|[Hcsa [(p & d & c & Hup & E)|[E|[E|[(p & d & c & Hup & E)
                    |(p & d & c & pc & ts & Hup & E)]]]]]];
    fold r in E; rewrite E.
  - right. exists 0%nat. split; [lia|]. split; reflexivity.
  - left. reflexivity.
  - right. exists 2%nat. split; [lia|]. split; reflexivity.
  - right. exists 3%nat. split; [lia|]. split; reflexivity.
  - right. exists 4%nat. split; [lia|].
    destruct (Hups p Hup) as [Hg Hi]. unfold recv_outcomes in *.
    injection Hg as G1 G2 G3 G4 G5. injection Hi as I1 I2 I3 I4 I5.
    unfold check_end, store_pools, incr_nth. cbn. split; congruence.
  - right. exists 1%nat. split; [lia|].
    destruct (Hups p Hup) as [Hg Hi]. unfold recv_outcomes in *.
    injection Hg as G1 G2 G3 G4 G5. injection Hi as I1 I2 I3 I4 I5.
    unfold check_end, store_pools, incr_nth. cbn. split; congruence.
Qed.

(** X11: the inbound checker never touches the sending side nor the
    configuration.  Whatever the packet, the timestamp base and the
    memory timeout, the identity, the addresses, the CSAs, the
    [authrxreq] flag and the send counters (auth_timestamp,
    auth_packetcounter) of the interface, and the statistics of sent
    packets (plain_sent, auth_sent, auth_sent_ng_nokeys) are after the
    check what they were before. *)
Theorem check_packet_keeps_send_side {env : AuthEnv} (st : auth_state)
    (ifp : interface) (from input : list byte) (now : Z) :
  let r := babel_auth_check_packet_run st ifp from input now in
  let sent s := (plain_sent s, auth_sent s, auth_sent_ng_nokeys s) in
  ts_base (ck_state r) = ts_base st
  /\ anm_timeout (ck_state r) = anm_timeout st
  /\ if_id (ck_ifp r) = if_id ifp
  /\ if_connected (ck_ifp r) = if_connected ifp
  /\ csalist (info (ck_ifp r)) = csalist (info ifp)
  /\ authrxreq (info (ck_ifp r)) = authrxreq (info ifp)
  /\ auth_timestamp (info (ck_ifp r)) = auth_timestamp (info ifp)
  /\ auth_packetcounter (info (ck_ifp r)) = auth_packetcounter (info ifp)
  /\ sent (stats (ck_state r)) = sent (stats st)
  /\ sent (auth_stats (info (ck_ifp r))) = sent (auth_stats (info ifp)).
Proof.
  intros r sent.
  assert (Hups : forall pools',
    pools_upto_errors (pools_of st ifp) pools' ->
    sent (global_stats pools') = sent (stats st)
    /\ sent (if_stats pools') = sent (auth_stats (info ifp))).
  { intros pools' Hup. unfold sent.
    destruct (Hup plain_sent (fun _ => eq_refl) (fun _ => eq_refl)) as [-> ->].
    destruct (Hup auth_sent (fun _ => eq_refl) (fun _ => eq_refl)) as [-> ->].
    destruct (Hup auth_sent_ng_nokeys (fun _ => eq_refl) (fun _ => eq_refl))
      as [-> ->].
    split; reflexivity. }
  destruct (check_packet_run_cases st ifp from input now)
    as [[_ E]|[Hcsa [(p & d & c & Hup & E)|[E|[E|[(p & d & c & Hup & E)
                    |(p & d & c & pc & ts & Hup & E)]]]]]];
    fold r in E; rewrite E;
    do 8 (split; [reflexivity|]);
    try (split; reflexivity);
    try (destruct (Hups p Hup) as [Hg Hi]; unfold sent in *;
         injection Hg as G1 G2 G3; injection Hi as I1 I2 I3;
         unfold check_end, store_pools; cbn; split; congruence).
Qed.

(** * The HMAC scan, both ways *)

Section HmacScanSound.
Context {env : AuthEnv}.
Variables (bs : list byte) (padded : stream) (esa : babel_esa_item).

(** The scan moves on at a TLV that does not fit the ESA, and stops with
    OK at a fitting TLV only. *)
Lemma try_hmac_loop_sound (tlvs : list tlv) :
  forallb tlv_wf tlvs = true ->
  forall (g fuel : nat) (pools : stat_pools) (done calls : nat)
         (ld : option (list byte)),
  reads_at bs g (encode_tlvs tlvs) ->
  (length (encode_tlvs tlvs) < fuel)%nat ->
  (forall x, ld = Some x ->
             hash_make_hmac (hash_algo esa) (stream_contents padded)
                            (firstn (key_len esa) (key_secret esa)) = Some x) ->
  let r := try_hmac_loop fuel pools (packet_at bs g) padded esa done calls ld in
  (tr_ret r = Some MSG_OK ->
   exists t, In t tlvs /\ tlv_authentic esa (stream_contents padded) t)
  /\ (forallb (fun t => negb (tlv_fits esa t)) tlvs = true ->
      r = {| tr_ret := Some MSG_NG; tr_pools := pools;
             tr_done := done; tr_calls := calls |}).
Proof.
  induction tlvs as [|t tlvs IH];
    intros Hwf g fuel pools done calls ld Hr Hfuel Hld.
  { destruct fuel as [|fuel]; [cbn in Hfuel; lia|].
    cbn [try_hmac_loop]. rewrite (STREAM_READABLE_at _ _ _ Hr).
    cbn [encode_tlvs flat_map length Nat.eqb tr_ret].
    split; [discriminate|reflexivity]. }
  cbn [forallb] in Hwf. apply andb_true_iff in Hwf as [Ht Hwf].
  cbn [encode_tlvs flat_map] in Hr, Hfuel. fold (encode_tlvs tlvs) in *.
  rewrite length_app in Hfuel.
  pose proof (encode_tlv_length_pos t) as Hpos.
  destruct fuel as [|fuel]; [lia|].
  cbn [try_hmac_loop].
  rewrite (STREAM_READABLE_at _ _ _ Hr), length_app.
  destruct (Nat.eqb_spec (length (encode_tlv t) + length (encode_tlvs tlvs)) 0);
    [lia|].
  assert (Hup : forall r0 : try_result,
    ((tr_ret r0 = Some MSG_OK ->
      exists t0, In t0 tlvs /\ tlv_authentic esa (stream_contents padded) t0)
     /\ (forallb (fun t0 => negb (tlv_fits esa t0)) tlvs = true ->
         r0 = {| tr_ret := Some MSG_NG; tr_pools := pools;
                 tr_done := done; tr_calls := calls |})) ->
    negb (tlv_fits esa t) = true ->
    (tr_ret r0 = Some MSG_OK ->
     exists t0, In t0 (t :: tlvs)
                /\ tlv_authentic esa (stream_contents padded) t0)
    /\ (forallb (fun t0 => negb (tlv_fits esa t0)) (t :: tlvs) = true ->
        r0 = {| tr_ret := Some MSG_NG; tr_pools := pools;
                tr_done := done; tr_calls := calls |})).
  { intros r0 [H1 H2] Hunfit. split.
    - intros Hok. destruct (H1 Hok) as (t0 & Hin & Ha).
      exists t0. split; [now right|assumption].
    - cbn [forallb]. rewrite Hunfit. exact H2. }
  destruct t as [|ty v].
  - cbn [encode_tlv app] in Hr. rewrite (stream_getc_at _ _ _ _ Hr).
    change (Byte.eqb MESSAGE_PAD1 MESSAGE_PAD1) with true. cbv iota.
    apply Hup; [|reflexivity].
    apply IH; [assumption| |cbn [encode_tlv length] in Hfuel; lia|assumption].
    now apply (reads_at_app bs [MESSAGE_PAD1]) in Hr.
  - unfold tlv_wf in Ht. apply andb_true_iff in Ht as [Hpad Hlen].
    apply negb_true_iff in Hpad. apply Nat.ltb_lt in Hlen.
    destruct (reads_at_tlv bs ty v _ g Hr) as (Hr0 & Hr1 & Hr2 & Hend).
    cbn [encode_tlv length] in Hfuel, Hend.
    rewrite (stream_getc_at _ _ _ _ Hr0), Hpad.
    rewrite (stream_getc_at _ _ _ _ Hr1).
    rewrite (byte_to_nat_of_Z _ Hlen), (byte_unsigned_length _ Hlen).
    destruct (negb (Byte.eqb ty MESSAGE_HMAC)
              || negb (Z.of_nat (length v)
                       =? Z.of_nat (hash_digest_length (hash_algo esa)) + 2))
      eqn:Eskip.
    + rewrite (stream_forward_getp_at _ _ _ _ Hr2).
      replace (g + 1 + 1 + length v)%nat with (g + S (S (length v)))%nat by lia.
      apply Hup; [apply IH; [assumption|exact Hend|lia|assumption]|].
      cbn [tlv_fits]. apply negb_true_iff.
      apply orb_true_iff in Eskip as [E|E]; apply negb_true_iff in E.
      * now rewrite E.
      * apply Z.eqb_neq in E.
        destruct (Nat.eqb_spec (length v)
                    (hash_digest_length (hash_algo esa) + 2)); [lia|].
        now rewrite andb_false_r.
    + apply orb_false_iff in Eskip as [Ety Elen].
      apply negb_false_iff in Ety, Elen. apply Z.eqb_eq in Elen.
      apply byte_eqb_eq in Ety. subst ty.
      destruct v as [|k0 [|k1 vd]]; cbn [length] in *; try lia.
      change (k0 :: k1 :: vd) with ([k0; k1] ++ vd) in Hr2.
      rewrite <- app_assoc in Hr2.
      pose proof (reads_at_app _ _ _ _ Hr2) as Hr3. cbn [length] in Hr3.
      cbn [app] in Hr2. rewrite (stream_getw_at _ _ _ _ _ Hr2).
      replace (S (S (length vd)) - 2)%nat with (length vd) by lia.
      assert (Hfwd : stream_forward_getp (packet_at bs (g + 1 + 1 + 2))
                                         (length vd)
                     = Some (packet_at bs (g + S (S (S (S (length vd))))))).
      { rewrite (stream_forward_getp_at _ _ _ _ Hr3). f_equal. f_equal. lia. }
      rewrite Hfwd.
      assert (Hvd : length vd = hash_digest_length (hash_algo esa)) by lia.
      assert (Hfits : tlv_fits esa (Tlv MESSAGE_HMAC (k0 :: k1 :: vd))
                      = (be_value [k0; k1] =? key_id esa)).
      { cbn [tlv_fits length firstn]. rewrite byte_eqb_refl.
        destruct (Nat.eqb_spec (S (S (length vd)))
                    (hash_digest_length (hash_algo esa) + 2)); [|lia].
        reflexivity. }
      destruct (Z.eqb_spec (be_value [k0; k1]) (key_id esa)) as [Ekid|Ekid];
        cbn [negb].
      2: { apply Hup; [apply IH; [assumption|exact Hend|lia|assumption]|].
           rewrite Hfits. reflexivity. }
      assert (Hcompare : forall dg done0 calls0,
        hash_make_hmac (hash_algo esa) (stream_contents padded)
                       (firstn (key_len esa) (key_secret esa)) = Some dg ->
        let r0 :=
          if memcmp_eq (skipn (stream_get_getp (packet_at bs (g + 1 + 1 + 2)))
                              (stream_get_data (packet_at bs (g + 1 + 1 + 2))))
                       dg (length vd)
          then {| tr_ret := Some MSG_OK; tr_pools := pools;
                  tr_done := done0; tr_calls := calls0 |}
          else try_hmac_loop fuel pools
                 (packet_at bs (g + S (S (S (S (length vd))))))
                 padded esa done0 calls0 (Some dg) in
        tr_ret r0 = Some MSG_OK ->
        exists t0, In t0 (Tlv MESSAGE_HMAC (k0 :: k1 :: vd) :: tlvs)
                   /\ tlv_authentic esa (stream_contents padded) t0).
      { intros dg done0 calls0 Hdg r0. unfold r0.
        destruct (memcmp_eq _ dg (length vd)) eqn:Ecmp.
        - intros _. exists (Tlv MESSAGE_HMAC (k0 :: k1 :: vd)).
          split; [now left|]. exists (k0 :: k1 :: vd), dg.
          split; [reflexivity|]. split; [exact Hfits|].
          split; [exact Hdg|]. cbn [skipn].
          unfold memcmp_eq, stream_get_getp, stream_get_data, packet_at in Ecmp.
          cbn [s_getp s_data] in Ecmp. destruct Hr3 as [_ Hskip].
          rewrite Hskip in Ecmp. apply bytes_eqb_eq in Ecmp.
          rewrite firstn_app, Nat.sub_diag, firstn_all in Ecmp.
          cbn [firstn] in Ecmp. rewrite app_nil_r in Ecmp.
          now rewrite <- Hvd.
        - intros Hok.
          destruct (IH Hwf (g + S (S (S (S (length vd)))))%nat fuel pools done0
                      calls0 (Some dg)) as [H1 _].
          + exact Hend.
          + lia.
          + intros x Hx. injection Hx as <-. exact Hdg.
          + destruct (H1 Hok) as (t0 & Hin & Ha).
            exists t0. split; [now right|assumption]. }
      split.
      * destruct ld as [dg|].
        -- apply Hcompare. now apply Hld.
        -- destruct (hash_make_hmac _ _ _) as [dg|] eqn:Hdg;
             [|cbn [tr_ret]; discriminate].
           now apply Hcompare.
      * cbn [forallb]. rewrite Hfits. discriminate.
Qed.
End HmacScanSound.

Section EsaLoopSound.
Context {env : AuthEnv}.
Variables (hdr : list byte) (tlvs : list tlv) (padded : stream).
Hypothesis Hhdr : length hdr = 4%nat.
Hypothesis Hwf : forallb tlv_wf tlvs = true.

Let packet := packet_at (hdr ++ encode_tlvs tlvs) 0.

Lemma babel_auth_try_hmac_tlvs_sound (pools : stat_pools) (esa : babel_esa_item)
    (done calls : nat) :
  let r := babel_auth_try_hmac_tlvs pools packet padded esa done calls in
  (tr_ret r = Some MSG_OK ->
   exists t, In t tlvs /\ tlv_authentic esa (stream_contents padded) t)
  /\ (forallb (fun t => negb (tlv_fits esa t)) tlvs = true ->
      r = {| tr_ret := Some MSG_NG; tr_pools := pools;
             tr_done := done; tr_calls := calls |}).
Proof.
  cbv zeta. unfold babel_auth_try_hmac_tlvs.
  destruct (done =? BABEL_MAXDIGESTSIN)%nat.
  { cbn [tr_ret]. split; [discriminate|reflexivity]. }
  assert (Hr : reads_at (hdr ++ encode_tlvs tlvs) 4 (encode_tlvs tlvs))
    by (rewrite <- Hhdr; apply reads_at_start).
  unfold packet. rewrite stream_set_getp_at by (destruct Hr; assumption).
  rewrite (STREAM_READABLE_at _ _ _ Hr).
  apply (try_hmac_loop_sound _ padded esa tlvs Hwf); [exact Hr|lia|discriminate].
Qed.

Lemma check_esa_loop_sound (esalist : list babel_esa_item) :
  forall (pools : stat_pools) (done calls : nat),
  let r := check_esa_loop esalist pools packet padded done calls MSG_NG in
  (tr_ret r = Some MSG_OK ->
   exists esa t, In esa esalist /\ In t tlvs
                 /\ tlv_authentic esa (stream_contents padded) t)
  /\ ((forall esa, In esa esalist ->
                   forallb (fun t => negb (tlv_fits esa t)) tlvs = true) ->
      r = {| tr_ret := Some MSG_NG; tr_pools := pools;
             tr_done := done; tr_calls := calls |}).
Proof.
  induction esalist as [|esa rest IH]; intros pools done calls;
    cbn [check_esa_loop].
  { cbn [tr_ret]. split; [discriminate|reflexivity]. }
  destruct (babel_auth_try_hmac_tlvs_sound pools esa done calls) as [H1 H2].
  pose proof (babel_auth_try_hmac_tlvs_total hdr tlvs padded Hhdr Hwf pools esa
                done calls) as Htot.
  fold packet in Htot.
  set (r1 := babel_auth_try_hmac_tlvs pools packet padded esa done calls) in *.
  assert (Hret : forall x, tr_ret r1 = Some x -> x = MSG_OK \/ x = MSG_NG).
  { intros x. unfold r1, babel_auth_try_hmac_tlvs.
    destruct (done =? BABEL_MAXDIGESTSIN)%nat.
    - cbn [tr_ret]. intros H. injection H as <-. now right.
    - destruct (stream_set_getp packet 4); [|discriminate].
      apply try_hmac_loop_ret. }
  destruct (tr_ret r1) as [x|] eqn:Ex; [|contradiction].
  destruct (Hret x eq_refl) as [->| ->].
  - change (MSG_OK =? MSG_OK) with true. cbv iota. split.
    + intros _. destruct (H1 eq_refl) as (t & Hin & Ha).
      exists esa, t. split; [now left|auto].
    + intros Hunfit. rewrite H2 in Ex by (apply Hunfit; now left).
      discriminate.
  - change (MSG_NG =? MSG_OK) with false. cbv iota.
    destruct (IH (tr_pools r1) (tr_done r1) (tr_calls r1)) as [I1 I2]. split.
    + intros Hok. destruct (I1 Hok) as (e & t & He & Hin & Ha).
      exists e, t. split; [now right|auto].
    + intros Hunfit. rewrite I2 by (intros e He; apply Hunfit; now right).
      rewrite (H2 (Hunfit esa (or_introl eq_refl))). reflexivity.
Qed.
End EsaLoopSound.

(** The run of the checker on a packet of well-formed TLVs the first
    TS/PC TLV of which passes the test: what is left is the loop over
    the ESAs. *)
Lemma check_packet_run_wellformed {env : AuthEnv} (st : auth_state)
    (ifp : interface) (from : list byte) (now : Z) (hdr : list byte)
    (before after : list tlv) (p0 p1 t0 t1 t2 t3 : byte) :
  let tlvs := before ++ Tlv MESSAGE_TSPC [p0; p1; t0; t1; t2; t3] :: after in
  let input := hdr ++ encode_tlvs tlvs in
  let tlv_pc := be_value [p0; p1] in
  let tlv_ts := be_value [t0; t1; t2; t3] in
  let esalist :=
    babel_esalist_derive (csalist (info ifp)) now keys_valid_for_accept in
  let pools0 :=
    if (length esalist =? 0)%nat
    then bump incr_auth_recv_ng_nokeys (pools_of st ifp) else pools_of st ifp in
  let lr :=
    check_esa_loop esalist pools0 (packet_at input 0)
      (packet_at (hdr ++ encode_tlvs (map (pad_tlv from) tlvs)) 0) 0 0 MSG_NG in
  csalist (info ifp) <> [] -> length hdr = 4%nat ->
  length from = IPV6_MAX_BYTELEN ->
  forallb tlv_not_tspc before = true -> forallb tlv_paddable tlvs = true ->
  tspc_accepts tlv_ts tlv_pc (fst (anm_stored st from ifp))
               (snd (anm_stored st from ifp)) = true ->
  babel_auth_check_packet_run st ifp from input now
  = match tr_ret lr with
    | None => check_end None st ifp (tr_pools lr) (tr_done lr) (tr_calls lr)
    | Some result =>
        if negb (result =? MSG_OK) then
          check_end (Some (if authrxreq (info ifp) then result else MSG_OK))
                    st ifp (bump incr_auth_recv_ng_hmac (tr_pools lr))
                    (tr_done lr) (tr_calls lr)
        else
          check_end (Some (if authrxreq (info ifp) then result else MSG_OK))
                    (set_anmlist st
                       (anm_assign (babel_anm_get (anmlist st) from (if_id ifp))
                                   from (if_id ifp) tlv_pc tlv_ts now))
                    ifp (bump incr_auth_recv_ok (tr_pools lr))
                    (tr_done lr) (tr_calls lr)
    end.
Proof.
  intros tlvs input tlv_pc tlv_ts esalist pools0 lr Hcsa Hhdr Hfrom Hbefore
         Hpad Hacc.
  assert (Einput : hdr ++ encode_tlvs tlvs
                   = tspc_packet hdr before (byte.of_Z (Z.of_nat 6))
                                 [p0; p1] [t0; t1; t2; t3] (encode_tlvs after)).
  { unfold tlvs, tspc_packet. rewrite encode_tlvs_app. reflexivity. }
  subst lr pools0 esalist input. unfold babel_auth_check_packet_run.
  assert (Hlen : (length (csalist (info ifp)) =? 0)%nat = false)
    by (destruct (csalist (info ifp)); [congruence|reflexivity]).
  rewrite Hlen, stream_put_new.
  assert (Estored :
    match babel_anm_lookup (anmlist st) from (if_id ifp) with
    | Some anm => (last_pc anm, last_ts anm)
    | None => (0, 0)
    end = (snd (anm_stored st from ifp), fst (anm_stored st from ifp))).
  { unfold anm_stored. now destruct (babel_anm_lookup _ _ _). }
  rewrite Estored. rewrite Einput.
  rewrite (babel_auth_check_tspc_first _ _ _ _ _ _ _ _ _ _ _ _ _ _ Hhdr Hbefore).
  fold tlv_pc tlv_ts. rewrite Hacc.
  destruct (Z.eqb_spec (Z.of_nat (4 + length (encode_tlvs before) + 2)) (-1));
    [lia|].
  rewrite <- Einput.
  rewrite (babel_auth_pad_packet_tlvs from Hfrom hdr tlvs 0 Hhdr Hpad).
  set (lr := check_esa_loop _ _ _ _ 0 0 MSG_NG).
  destruct (tr_ret lr) as [result|]; [|reflexivity].
  destruct (negb (result =? MSG_OK)); [reflexivity|].
  assert (Hr : reads_at (hdr ++ encode_tlvs tlvs)
                 (4 + length (encode_tlvs before) + 2)
                 ([p0; p1] ++ [t0; t1; t2; t3] ++ encode_tlvs after)).
  { rewrite Einput. unfold tspc_packet.
    pose proof (reads_at_start hdr
                  (encode_tlvs before ++ MESSAGE_TSPC :: byte.of_Z (Z.of_nat 6)
                   :: [p0; p1] ++ [t0; t1; t2; t3] ++ encode_tlvs after)) as H0.
    rewrite Hhdr in H0. apply reads_at_app in H0.
    apply (reads_at_app _ [MESSAGE_TSPC; byte.of_Z (Z.of_nat 6)]) in H0.
    cbn [length] in H0. exact H0. }
  rewrite Nat2Z.id.
  rewrite (stream_getw_from_at _ _ _ _ _ _ Hr).
  apply (reads_at_app _ [p0; p1]) in Hr. cbn [length] in Hr.
  rewrite (stream_getl_from_at _ _ _ _ _ _ _ _ Hr).
  reflexivity.
Qed.

(** * Verdicts on well-formed packets *)

(** X12: on an interface with CSAs a packet of well-formed TLVs none of
    which is a TS/PC TLV is turned down before any digest is computed,
    whatever HMAC TLVs it bears: the checker counts it under
    auth_recv_ng_no_tspc (in the global and in the interface's counters),
    returns NG when [authrxreq] is set and leaves the memory as it was. *)
Theorem check_packet_without_tspc {env : AuthEnv} (st : auth_state)
    (ifp : interface) (from : list byte) (now : Z) (hdr : list byte)
    (tlvs : list tlv) :
  csalist (info ifp) <> [] -> length hdr = 4%nat ->
  forallb tlv_not_tspc tlvs = true ->
  let r := babel_auth_check_packet_run st ifp from (hdr ++ encode_tlvs tlvs) now in
  ck_ret r = Some (if authrxreq (info ifp) then MSG_NG else MSG_OK)
  /\ auth_recv_ng_no_tspc (stats (ck_state r))
     = ulong_incr (auth_recv_ng_no_tspc (stats st))
  /\ auth_recv_ng_no_tspc (auth_stats (info (ck_ifp r)))
     = ulong_incr (auth_recv_ng_no_tspc (auth_stats (info ifp)))
  /\ anmlist (ck_state r) = anmlist st
  /\ ck_calls r = 0%nat /\ ck_done r = 0%nat.
Proof.
  intros Hcsa Hhdr Htlvs r. unfold r, babel_auth_check_packet_run.
  assert (Hlen : (length (csalist (info ifp)) =? 0)%nat = false)
    by (destruct (csalist (info ifp)); [congruence|reflexivity]).
  rewrite Hlen, stream_put_new.
  destruct (match babel_anm_lookup _ _ _ with Some _ => _ | None => _ end)
    as [neigh_pc neigh_ts].
  rewrite (babel_auth_check_tspc_absent _ _ _ _ _ _ Hhdr Htlvs).
  change (-1 =? -1) with true. cbv iota.
  repeat split.
Qed.

Lemma check_packet_without_tspc_witness :
  let st := Example.state BABEL_TS_BASE_ZERO [] in
  let ifp := Example.iface 2 (Example.babel_if [Example.csa_alpha] true 0 0) in
  let r := @babel_auth_check_packet_run Example.env st ifp Example.addr1
             (Example.header ++ encode_tlvs [Example.hello]) 1000 in
  ck_ret r = Some MSG_NG /\ auth_recv_ng_no_tspc (stats (ck_state r)) = 1.
Proof.
  intros st ifp r.
  destruct (@check_packet_without_tspc Example.env st ifp Example.addr1 1000
              Example.header [Example.hello]) as (Hret & Hcount & _).
  - discriminate.
  - reflexivity.
  - reflexivity.
  - split; [exact Hret|exact Hcount].
Defined.

Section Verdicts.
Context {env : AuthEnv}.
Variables (st : auth_state) (ifp : interface) (from : list byte) (now : Z).
Variables (hdr : list byte) (before after : list tlv).
Variables (p0 p1 t0 t1 t2 t3 : byte).

Let tlvs := before ++ Tlv MESSAGE_TSPC [p0; p1; t0; t1; t2; t3] :: after.
Let input := hdr ++ encode_tlvs tlvs.
Let tlv_pc := be_value [p0; p1].
Let tlv_ts := be_value [t0; t1; t2; t3].
Let esalist := babel_esalist_derive (csalist (info ifp)) now keys_valid_for_accept.
Let r := babel_auth_check_packet_run st ifp from input now.

Hypothesis Hcsa : csalist (info ifp) <> [].
Hypothesis Hhdr : length hdr = 4%nat.
Hypothesis Hfrom : length from = IPV6_MAX_BYTELEN.
Hypothesis Hbefore : forallb tlv_not_tspc before = true.
Hypothesis Hpad : forallb tlv_paddable tlvs = true.

(** With a good TS/PC pair and no HMAC TLV fitting an ESA, the loop over
    the ESAs ends without a digest. *)
Lemma check_packet_run_unfit :
  tspc_accepts tlv_ts tlv_pc (fst (anm_stored st from ifp))
               (snd (anm_stored st from ifp)) = true ->
  (forall esa, In esa esalist ->
               forallb (fun t => negb (tlv_fits esa t)) tlvs = true) ->
  r = check_end (Some (if authrxreq (info ifp) then MSG_NG else MSG_OK)) st ifp
        (bump incr_auth_recv_ng_hmac
           (if (length esalist =? 0)%nat
            then bump incr_auth_recv_ng_nokeys (pools_of st ifp)
            else pools_of st ifp)) 0 0.
Proof.
  intros Hacc Hunfit. unfold r, input, tlvs.
  rewrite (check_packet_run_wellformed st ifp from now hdr before after
             p0 p1 t0 t1 t2 t3 Hcsa Hhdr Hfrom Hbefore Hpad Hacc).
  fold tlvs. fold esalist.
  destruct (check_esa_loop_sound hdr tlvs
              (packet_at (hdr ++ encode_tlvs (map (pad_tlv from) tlvs)) 0)
              Hhdr (tlv_paddable_wf tlvs Hpad) esalist
              (if (length esalist =? 0)%nat
               then bump incr_auth_recv_ng_nokeys (pools_of st ifp)
               else pools_of st ifp) 0 0) as [_ H2].
  rewrite (H2 Hunfit). reflexivity.
Qed.

(** An accepted packet bears an authentic HMAC TLV. *)
Lemma check_packet_run_sound :
  check_succeeded st ifp r ->
  tspc_accepts tlv_ts tlv_pc (fst (anm_stored st from ifp))
               (snd (anm_stored st from ifp)) = true
  /\ exists esa t,
       In esa esalist /\ In t tlvs
       /\ tlv_authentic esa (hdr ++ encode_tlvs (map (pad_tlv from) tlvs)) t.
Proof.
  intros Hsucc.
  assert (Einput : input
                   = tspc_packet hdr before (byte.of_Z (Z.of_nat 6))
                                 [p0; p1] [t0; t1; t2; t3] (encode_tlvs after)).
  { unfold input, tlvs, tspc_packet. rewrite encode_tlvs_app. reflexivity. }
  destruct (tspc_accepts tlv_ts tlv_pc (fst (anm_stored st from ifp))
                         (snd (anm_stored st from ifp))) eqn:Hacc.
  2: { exfalso. unfold r in Hsucc. rewrite Einput in Hsucc.
       rewrite (check_packet_run_tspc_reject st ifp from now hdr before _
                  p0 p1 t0 t1 t2 t3 _ Hcsa Hhdr Hbefore Hacc) in Hsucc.
       destruct Hsucc as [[Hrx Hret]|Hcount].
       - cbn [check_end ck_ret] in Hret. rewrite Hrx in Hret. discriminate.
       - unfold check_end, store_pools in Hcount. cbn in Hcount.
         symmetry in Hcount. now apply ulong_incr_neq in Hcount. }
  split; [reflexivity|].
  unfold r, input, tlvs in Hsucc.
  rewrite (check_packet_run_wellformed st ifp from now hdr before after
             p0 p1 t0 t1 t2 t3 Hcsa Hhdr Hfrom Hbefore Hpad Hacc) in Hsucc.
  fold tlvs in Hsucc. fold esalist in Hsucc.
  set (pools0 := if (length esalist =? 0)%nat then _ else _) in Hsucc.
  destruct (check_esa_loop_sound hdr tlvs
              (packet_at (hdr ++ encode_tlvs (map (pad_tlv from) tlvs)) 0)
              Hhdr (tlv_paddable_wf tlvs Hpad) esalist pools0 0 0) as [H1 _].
  assert (Econt : stream_contents
                    (packet_at (hdr ++ encode_tlvs (map (pad_tlv from) tlvs)) 0)
                  = hdr ++ encode_tlvs (map (pad_tlv from) tlvs))
    by (unfold stream_contents, packet_at; cbn [s_endp s_data];
        apply firstn_all).
  rewrite Econt in H1.
  pose proof (check_esa_loop_pools auth_recv_ok (fun _ => eq_refl)
                (packet_at (hdr ++ encode_tlvs tlvs) 0)
                (packet_at (hdr ++ encode_tlvs (map (pad_tlv from) tlvs)) 0)
                esalist pools0 0 0 MSG_NG) as [Hkeep _].
  set (lr := check_esa_loop esalist pools0 _ _ 0 0 MSG_NG) in *.
  assert (Hpools0 : auth_recv_ok (global_stats pools0) = auth_recv_ok (stats st))
    by (unfold pools0; destruct (length esalist =? 0)%nat; reflexivity).
  destruct (tr_ret lr) as [result|] eqn:Eret.
  2: { exfalso. destruct Hsucc as [[_ Hret]|Hcount]; [discriminate|].
       unfold check_end, store_pools in Hcount. cbn in Hcount.
       rewrite Hkeep, Hpools0 in Hcount.
       symmetry in Hcount. now apply ulong_incr_neq in Hcount. }
  destruct (Z.eqb_spec result MSG_OK) as [->|Hne]; [now apply H1|].
  exfalso. cbn [negb] in Hsucc. destruct Hsucc as [[Hrx Hret]|Hcount].
  - cbn [check_end ck_ret] in Hret. rewrite Hrx in Hret. congruence.
  - unfold check_end, store_pools in Hcount. cbn in Hcount.
    rewrite Hkeep, Hpools0 in Hcount.
    symmetry in Hcount. now apply ulong_incr_neq in Hcount.
Qed.
End Verdicts.

(** X13: a packet with a good TS/PC pair in which no HMAC TLV has the
    length and the key identifier of an ESA of the accept list (in
    particular a packet without HMAC TLVs, or any packet when no key is
    valid) costs no digest: the primitive is not invoked, the packet is
    counted under auth_recv_ng_hmac, and under auth_recv_ng_nokeys as
    well exactly when the list is empty; the checker returns NG when
    [authrxreq] is set and leaves the memory as it was. *)
Theorem check_packet_unknown_keys_cost_nothing {env : AuthEnv}
    (st : auth_state) (ifp : interface) (from : list byte) (now : Z)
    (hdr : list byte) (before after : list tlv) (p0 p1 t0 t1 t2 t3 : byte) :
  let tlvs := before ++ Tlv MESSAGE_TSPC [p0; p1; t0; t1; t2; t3] :: after in
  let esalist :=
    babel_esalist_derive (csalist (info ifp)) now keys_valid_for_accept in
  let r := babel_auth_check_packet_run st ifp from (hdr ++ encode_tlvs tlvs) now in
  csalist (info ifp) <> [] -> length hdr = 4%nat ->
  length from = IPV6_MAX_BYTELEN ->
  forallb tlv_not_tspc before = true -> forallb tlv_paddable tlvs = true ->
  tspc_accepts (be_value [t0; t1; t2; t3]) (be_value [p0; p1])
               (fst (anm_stored st from ifp)) (snd (anm_stored st from ifp))
  = true ->
  (forall esa, In esa esalist ->
               forallb (fun t => negb (tlv_fits esa t)) tlvs = true) ->
  ck_calls r = 0%nat /\ ck_done r = 0%nat
  /\ ck_ret r = Some (if authrxreq (info ifp) then MSG_NG else MSG_OK)
  /\ auth_recv_ng_hmac (stats (ck_state r))
     = ulong_incr (auth_recv_ng_hmac (stats st))
  /\ auth_recv_ng_hmac (auth_stats (info (ck_ifp r)))
     = ulong_incr (auth_recv_ng_hmac (auth_stats (info ifp)))
  /\ auth_recv_ng_nokeys (stats (ck_state r))
     = (if (length esalist =? 0)%nat
        then ulong_incr (auth_recv_ng_nokeys (stats st))
        else auth_recv_ng_nokeys (stats st))
  /\ internal_err (stats (ck_state r)) = internal_err (stats st)
  /\ anmlist (ck_state r) = anmlist st.
Proof.
  intros tlvs esalist r Hcsa Hhdr Hfrom Hbefore Hpad Hacc Hunfit.
  unfold r, tlvs.
  rewrite (check_packet_run_unfit st ifp from now hdr before after
             p0 p1 t0 t1 t2 t3 Hcsa Hhdr Hfrom Hbefore Hpad Hacc Hunfit).
  fold esalist. unfold check_end, store_pools.
  destruct (length esalist =? 0)%nat; cbn; repeat split.
Qed.

Lemma check_packet_unknown_keys_cost_nothing_witness :
  let st := Example.state BABEL_TS_BASE_ZERO [] in
  let ifp := Example.iface 2 (Example.babel_if [Example.csa_alpha] true 0 0) in
  let r := @babel_auth_check_packet_run Example.env st ifp Example.addr1
             (Example.header
              ++ encode_tlvs ([Example.hello]
                              ++ Tlv MESSAGE_TSPC [Byte.x00; Byte.x01; Byte.x00;
                                                   Byte.x00; Byte.x00; Byte.x00]
                              :: [Example.hmac_tlv 9 Example.signed_digest]))
             1000 in
  ck_calls r = 0%nat /\ ck_ret r = Some MSG_NG.
Proof.
  intros st ifp r.
  destruct (@check_packet_unknown_keys_cost_nothing Example.env st ifp
              Example.addr1 1000 Example.header [Example.hello]
              [Example.hmac_tlv 9 Example.signed_digest]
              Byte.x00 Byte.x01 Byte.x00 Byte.x00 Byte.x00 Byte.x00)
    as (Hcalls & _ & Hret & _).
  - discriminate.
  - reflexivity.
  - reflexivity.
  - reflexivity.
  - reflexivity.
  - reflexivity.
  - intros esa [<-|[]]. reflexivity.
  - split; [exact Hcalls|exact Hret].
Defined.

(** X14: the checker accepts authentic packets only.  If the check of a
    packet of well-formed TLVs on an interface with CSAs succeeds (OK in
    required mode, or counted under auth_recv_ok), then the pair of the
    packet's first TS/PC TLV is above the pair stored for the sender and
    the packet bears an HMAC TLV with the length and the key identifier
    of an ESA of the accept list whose digest field is the digest of the
    padded packet under the key of that ESA. *)
Theorem check_packet_accepts_only_authentic {env : AuthEnv}
    (st : auth_state) (ifp : interface) (from : list byte) (now : Z)
    (hdr : list byte) (before after : list tlv) (p0 p1 t0 t1 t2 t3 : byte) :
  let tlvs := before ++ Tlv MESSAGE_TSPC [p0; p1; t0; t1; t2; t3] :: after in
  let esalist :=
    babel_esalist_derive (csalist (info ifp)) now keys_valid_for_accept in
  let r := babel_auth_check_packet_run st ifp from (hdr ++ encode_tlvs tlvs) now in
  csalist (info ifp) <> [] -> length hdr = 4%nat ->
  length from = IPV6_MAX_BYTELEN ->
  forallb tlv_not_tspc before = true -> forallb tlv_paddable tlvs = true ->
  check_succeeded st ifp r ->
  tspc_lt (fst (anm_stored st from ifp)) (snd (anm_stored st from ifp))
          (be_value [t0; t1; t2; t3]) (be_value [p0; p1])
  /\ exists esa t,
       In esa esalist /\ In t tlvs
       /\ tlv_authentic esa (hdr ++ encode_tlvs (map (pad_tlv from) tlvs)) t.
Proof.
  intros tlvs esalist r Hcsa Hhdr Hfrom Hbefore Hpad Hsucc.
  destruct (check_packet_run_sound st ifp from now hdr before after
              p0 p1 t0 t1 t2 t3 Hcsa Hhdr Hfrom Hbefore Hpad Hsucc)
    as [Hacc Hex].
  split; [now apply tspc_accepts_lt|exact Hex].
Qed.

Lemma check_packet_accepts_only_authentic_witness :
  let st := Example.state BABEL_TS_BASE_ZERO [] in
  let ifp := Example.iface 2 (Example.babel_if [Example.csa_alpha] true 0 0) in
  let tlvs := [Example.hello]
              ++ Tlv MESSAGE_TSPC [Byte.x00; Byte.x01; Byte.x00;
                                   Byte.x00; Byte.x00; Byte.x00]
              :: [Example.hmac_tlv 1 Example.signed_digest] in
  exists esa t,
    In esa (@babel_esalist_derive Example.env [Example.csa_alpha] 1000
              (@keys_valid_for_accept Example.env))
    /\ In t tlvs
    /\ @tlv_authentic Example.env esa
         (Example.signed_header
          ++ encode_tlvs (map (@pad_tlv Example.env Example.addr1) tlvs)) t.
Proof.
  intros st ifp tlvs.
  destruct (@check_packet_accepts_only_authentic Example.env st ifp
              Example.addr1 1000 Example.signed_header [Example.hello]
              [Example.hmac_tlv 1 Example.signed_digest]
              Byte.x00 Byte.x01 Byte.x00 Byte.x00 Byte.x00 Byte.x00)
    as [_ Hex].
  - discriminate.
  - reflexivity.
  - reflexivity.
  - reflexivity.
  - reflexivity.
  - left. split; vm_compute; reflexivity.
  - exact Hex.
Defined.

(** X15: the checker accepts every authentic packet it can afford.  A
    packet of well-formed TLVs whose first TS/PC pair is above the
    stored one and which bears, anywhere among its TLVs, the HMAC TLV of
    one of the first BABEL_MAXDIGESTSIN ESAs of the accept list with the
    digest of the padded packet, is accepted whatever other HMAC TLVs it
    holds: the checker returns OK, assigns the pair and the time of
    reception to the record of the sender and counts the packet under
    auth_recv_ok. *)
Theorem check_packet_accepts_authentic {env : AuthEnv} (st : auth_state)
    (ifp : interface) (from : list byte) (now : Z) (hdr : list byte)
    (before after : list tlv) (p0 p1 t0 t1 t2 t3 : byte)
    (l1 l2 : list babel_esa_item) (esa : babel_esa_item) (d : list byte) :
  let tlvs := before ++ Tlv MESSAGE_TSPC [p0; p1; t0; t1; t2; t3] :: after in
  let tlv_pc := be_value [p0; p1] in
  let tlv_ts := be_value [t0; t1; t2; t3] in
  let r := babel_auth_check_packet_run st ifp from (hdr ++ encode_tlvs tlvs) now in
  csalist (info ifp) <> [] -> length hdr = 4%nat ->
  length from = IPV6_MAX_BYTELEN ->
  forallb tlv_not_tspc before = true -> forallb tlv_paddable tlvs = true ->
  tspc_lt (fst (anm_stored st from ifp)) (snd (anm_stored st from ifp))
          tlv_ts tlv_pc ->
  babel_esalist_derive (csalist (info ifp)) now keys_valid_for_accept
  = l1 ++ esa :: l2 ->
  (length l1 < BABEL_MAXDIGESTSIN)%nat ->
  hash_make_hmac (hash_algo esa) (hdr ++ encode_tlvs (map (pad_tlv from) tlvs))
                 (firstn (key_len esa) (key_secret esa)) = Some d ->
  length d = hash_digest_length (hash_algo esa) ->
  In (hmac_tlv_of esa d) tlvs ->
  ck_ret r = Some MSG_OK
  /\ (exists anm,
        babel_anm_lookup (anmlist (ck_state r)) from (if_id ifp) = Some anm
        /\ last_ts anm = tlv_ts /\ last_pc anm = tlv_pc /\ last_recv anm = now)
  /\ auth_recv_ok (stats (ck_state r)) = ulong_incr (auth_recv_ok (stats st))
  /\ auth_recv_ok (auth_stats (info (ck_ifp r)))
     = ulong_incr (auth_recv_ok (auth_stats (info ifp))).
Proof.
  intros tlvs tlv_pc tlv_ts r Hcsa Hhdr Hfrom Hbefore Hpad Hlt Hesas Hl1 Hd
         Hdlen Hin.
  pose proof (babel_esalist_derive_key_id (csalist (info ifp)) now
                keys_valid_for_accept) as Hids.
  rewrite Hesas, Forall_forall in Hids.
  specialize (Hids esa (in_elt esa l1 l2)). cbv beta in Hids.
  destruct (check_packet_run_authentic st ifp from now hdr before after
              p0 p1 t0 t1 t2 t3 l1 l2 esa d Hcsa Hhdr Hfrom Hbefore Hpad
              (proj2 (tspc_accepts_lt _ _ _ _) Hlt) Hesas Hl1 Hd Hdlen Hids Hin)
    as (Hret & Hanm & Hg & Hi).
  fold tlvs in Hret, Hanm, Hg, Hi. fold r in Hret, Hanm, Hg, Hi.
  split; [exact Hret|]. split; [|split; assumption].
  rewrite Hanm.
  destruct (babel_anm_get_lookup (anmlist st) from (if_id ifp)) as (anm & Hget).
  rewrite (babel_anm_lookup_assign _ _ _ _ _ _ anm Hget).
  eexists. split; [reflexivity|]. repeat split.
Qed.

Lemma check_packet_accepts_authentic_witness :
  let st := Example.state BABEL_TS_BASE_ZERO [] in
  let ifp := Example.iface 2 (Example.babel_if [Example.csa_alpha] true 0 0) in
  let tlvs := [Example.hello]
              ++ Tlv MESSAGE_TSPC [Byte.x00; Byte.x01; Byte.x00;
                                   Byte.x00; Byte.x00; Byte.x00]
              :: [Example.hmac_tlv 9 Example.signed_digest;
                  Example.hmac_tlv 1 Example.signed_digest_two] in
  ck_ret (@babel_auth_check_packet_run Example.env st ifp Example.addr1
            (Example.signed_header ++ encode_tlvs tlvs) 1000)
  = Some MSG_OK.
Proof.
  intros st ifp tlvs.
  destruct (@check_packet_accepts_authentic Example.env st ifp Example.addr1 1000
              Example.signed_header [Example.hello]
              [Example.hmac_tlv 9 Example.signed_digest;
               Example.hmac_tlv 1 Example.signed_digest_two]
              Byte.x00 Byte.x01 Byte.x00 Byte.x00 Byte.x00 Byte.x00
              [] [] Example.esa_alpha Example.signed_digest_two)
    as (Hret & _).
  - discriminate.
  - reflexivity.
  - reflexivity.
  - reflexivity.
  - reflexivity.
  - right. split; reflexivity.
  - reflexivity.
  - apply Nat.ltb_lt. reflexivity.
  - reflexivity.
  - reflexivity.
  - right. right. right. left. reflexivity.
  - exact Hret.
Defined.

(** * Forgetting a neighbor *)

(** X16: a neighbor whose record has expired may start over.  Once the
    housekeeping timer has run at a time when the record of (sender,
    interface) is older than the timeout, an authentic packet of the
    sender is accepted as soon as its TS/PC pair is above (0, 0),
    whatever pair the record held, and the memory holds the new pair. *)
Theorem expired_neighbor_starts_over {env : AuthEnv} (st : auth_state)
    (ifp : interface) (from : list byte) (now_h now : Z) (hdr : list byte)
    (before after : list tlv) (p0 p1 t0 t1 t2 t3 : byte)
    (l1 l2 : list babel_esa_item) (esa : babel_esa_item) (d : list byte)
    (old : babel_anm_item) :
  let tlvs := before ++ Tlv MESSAGE_TSPC [p0; p1; t0; t1; t2; t3] :: after in
  let tlv_pc := be_value [p0; p1] in
  let tlv_ts := be_value [t0; t1; t2; t3] in
  let st' := babel_auth_do_housekeeping st now_h in
  let r := babel_auth_check_packet_run st' ifp from (hdr ++ encode_tlvs tlvs) now in
  anm_unique (anmlist st) ->
  babel_anm_lookup (anmlist st) from (if_id ifp) = Some old ->
  last_recv old + anm_timeout st < now_h ->
  csalist (info ifp) <> [] -> length hdr = 4%nat ->
  length from = IPV6_MAX_BYTELEN ->
  forallb tlv_not_tspc before = true -> forallb tlv_paddable tlvs = true ->
  tspc_lt 0 0 tlv_ts tlv_pc ->
  babel_esalist_derive (csalist (info ifp)) now keys_valid_for_accept
  = l1 ++ esa :: l2 ->
  (length l1 < BABEL_MAXDIGESTSIN)%nat ->
  hash_make_hmac (hash_algo esa) (hdr ++ encode_tlvs (map (pad_tlv from) tlvs))
                 (firstn (key_len esa) (key_secret esa)) = Some d ->
  length d = hash_digest_length (hash_algo esa) ->
  In (hmac_tlv_of esa d) tlvs ->
  babel_anm_lookup (anmlist st') from (if_id ifp) = None
  /\ ck_ret r = Some MSG_OK
  /\ anm_stored (ck_state r) from ifp = (tlv_ts, tlv_pc).
Proof.
  intros tlvs tlv_pc tlv_ts st' r Hu Hold Hexp Hcsa Hhdr Hfrom Hbefore Hpad Hlt
         Hesas Hl1 Hd Hdlen Hin.
  assert (Hnone : babel_anm_lookup (anmlist st') from (if_id ifp) = None).
  { unfold st', babel_auth_do_housekeeping. cbn [anmlist set_anmlist].
    rewrite (housekeeping_loop_lookup _ _ _ _ _ Hu), Hold.
    destruct (Z.ltb_spec (last_recv old + anm_timeout st) now_h); [reflexivity|lia]. }
  split; [exact Hnone|].
  assert (Hstored : anm_stored st' from ifp = (0, 0))
    by (unfold anm_stored; now rewrite Hnone).
  pose proof (babel_esalist_derive_key_id (csalist (info ifp)) now
                keys_valid_for_accept) as Hids.
  rewrite Hesas, Forall_forall in Hids.
  specialize (Hids esa (in_elt esa l1 l2)). cbv beta in Hids.
  destruct (check_packet_run_authentic st' ifp from now hdr before after
              p0 p1 t0 t1 t2 t3 l1 l2 esa d Hcsa Hhdr Hfrom Hbefore Hpad)
    as (Hret & Hanm & _); try assumption.
  - rewrite Hstored. cbn [fst snd]. now apply tspc_accepts_lt.
  - fold tlvs in Hret, Hanm. fold r in Hret, Hanm. split; [exact Hret|].
    unfold anm_stored. rewrite Hanm.
    destruct (babel_anm_get_lookup (anmlist st') from (if_id ifp)) as (anm & Hget).
    now rewrite (babel_anm_lookup_assign _ _ _ _ _ _ anm Hget).
Qed.

Lemma expired_neighbor_starts_over_witness :
  let st := {| ts_base := BABEL_TS_BASE_ZERO; anm_timeout := 300;
               anmlist := [{| address := Example.addr1; anm_ifp := 2;
                              last_recv := 500; last_pc := 7; last_ts := 7 |}];
               stats := Example.no_stats |} in
  let ifp := Example.iface 2 (Example.babel_if [Example.csa_alpha] true 0 0) in
  let P := Example.signed_header
           ++ encode_tlvs ([Example.hello]
                           ++ Tlv MESSAGE_TSPC [Byte.x00; Byte.x01; Byte.x00;
                                                Byte.x00; Byte.x00; Byte.x00]
                           :: [Example.hmac_tlv 1 Example.signed_digest]) in
  ck_ret (@babel_auth_check_packet_run Example.env st ifp Example.addr1 P 1000)
  = Some MSG_NG
  /\ ck_ret (@babel_auth_check_packet_run Example.env
               (babel_auth_do_housekeeping st 1000) ifp Example.addr1 P 1000)
     = Some MSG_OK.
Proof.
  intros st ifp P. split; [reflexivity|].
  destruct (@expired_neighbor_starts_over Example.env st ifp Example.addr1
              1000 1000 Example.signed_header [Example.hello]
              [Example.hmac_tlv 1 Example.signed_digest]
              Byte.x00 Byte.x01 Byte.x00 Byte.x00 Byte.x00 Byte.x00
              [] [] Example.esa_alpha Example.signed_digest
              {| address := Example.addr1; anm_ifp := 2;
                 last_recv := 500; last_pc := 7; last_ts := 7 |})
    as (_ & Hret & _).
  - unfold anm_unique. repeat constructor. simpl. tauto.
  - reflexivity.
  - reflexivity.
  - discriminate.
  - reflexivity.
  - reflexivity.
  - reflexivity.
  - reflexivity.
  - right. split; reflexivity.
  - reflexivity.
  - apply Nat.ltb_lt. reflexivity.
  - reflexivity.
  - reflexivity.
  - right. right. left. reflexivity.
  - exact Hret.
Defined.

(** * Padding, again *)

Lemma pad_tlv_idempotent {env : AuthEnv} (addr6 : list byte) (t : tlv) :
  length addr6 = IPV6_MAX_BYTELEN -> tlv_paddable t = true ->
  pad_tlv addr6 (pad_tlv addr6 t) = pad_tlv addr6 t.
Proof.
  intros Haddr Hp. destruct t as [|ty v]; [reflexivity|].
  unfold tlv_paddable in Hp. apply andb_true_iff in Hp as [_ Hp].
  unfold pad_tlv. destruct (Byte.eqb ty MESSAGE_HMAC) eqn:E; rewrite E;
    [|reflexivity].
  apply Nat.leb_le in Hp. unfold IPV6_MAX_BYTELEN in *. f_equal.
  assert (L2 : length (firstn 2 v) = 2%nat) by (rewrite length_firstn; lia).
  assert (L16 : length (firstn 16 addr6) = 16%nat)
    by (rewrite length_firstn; lia).
  rewrite firstn_app, firstn_firstn, Nat.min_id, L2.
  change (2 - 2)%nat with 0%nat. rewrite firstn_O, app_nil_r. do 3 f_equal.
  rewrite !length_app, L2, L16, zero_bytes_length. lia.
Qed.

Lemma pad_tlv_same_but_digest {env : AuthEnv} (addr6 : list byte) (t1 t2 : tlv) :
  tlv_same_but_digest t1 t2 -> pad_tlv addr6 t1 = pad_tlv addr6 t2.
Proof.
  destruct t1 as [|ty1 v1], t2 as [|ty2 v2]; cbn [tlv_same_but_digest];
    try tauto.
  intros [<- H]. unfold pad_tlv.
  destruct (Byte.eqb ty1 MESSAGE_HMAC); [|now subst].
  destruct H as [-> ->]. reflexivity.
Qed.

(** X17: padding forgets the digests and is stable.  Two packets of
    well-formed TLVs that differ at most in the digest fields of their
    HMAC TLVs have the same padded copy, and padding the padded copy
    again gives the padded copy. *)
Theorem pad_packet_forgets_digests {env : AuthEnv} (hdr : list byte)
    (tlvs1 tlvs2 : list tlv) (addr6 : list byte) :
  length hdr = 4%nat -> length addr6 = IPV6_MAX_BYTELEN ->
  forallb tlv_paddable tlvs1 = true -> forallb tlv_paddable tlvs2 = true ->
  Forall2 tlv_same_but_digest tlvs1 tlvs2 ->
  exists padded,
    babel_auth_pad_packet (packet_at (hdr ++ encode_tlvs tlvs1) 0) addr6
    = Some padded
    /\ babel_auth_pad_packet (packet_at (hdr ++ encode_tlvs tlvs2) 0) addr6
       = Some padded
    /\ babel_auth_pad_packet padded addr6 = Some padded.
Proof.
  intros Hhdr Haddr Hp1 Hp2 Hsame.
  assert (Hmap : map (pad_tlv addr6) tlvs1 = map (pad_tlv addr6) tlvs2).
  { clear Hp1 Hp2. induction Hsame as [|t1 t2 l1 l2 Ht _ IH]; [reflexivity|].
    cbn [map]. now rewrite IH, (pad_tlv_same_but_digest addr6 t1 t2 Ht). }
  exists (packet_at (hdr ++ encode_tlvs (map (pad_tlv addr6) tlvs1)) 0).
  split; [now apply babel_auth_pad_packet_tlvs|].
  split; [rewrite Hmap; now apply babel_auth_pad_packet_tlvs|].
  rewrite (babel_auth_pad_packet_tlvs addr6 Haddr hdr _ 0 Hhdr).
  - do 3 f_equal. rewrite map_map. f_equal. apply map_ext_in. intros t Ht.
    apply pad_tlv_idempotent; [assumption|].
    rewrite forallb_forall in Hp1. now apply Hp1.
  - apply forallb_forall. intros t Ht. apply in_map_iff in Ht as (t0 & <- & Ht0).
    apply (pad_tlv_wf addr6 Haddr). rewrite forallb_forall in Hp1. now apply Hp1.
Qed.

Lemma pad_packet_forgets_digests_witness :
  exists padded,
    @babel_auth_pad_packet Example.env
      (packet_at (Example.signed_header
                  ++ encode_tlvs [Example.hello; Example.tspc_tlv 1 0;
                                  Example.hmac_tlv 1 Example.signed_digest]) 0)
      Example.addr1 = Some padded
    /\ @babel_auth_pad_packet Example.env
         (packet_at (Example.signed_header
                     ++ encode_tlvs [Example.hello; Example.tspc_tlv 1 0;
                                     Example.hmac_tlv 1 Example.signed_digest_two])
                    0)
         Example.addr1 = Some padded
    /\ @babel_auth_pad_packet Example.env padded Example.addr1 = Some padded.
Proof.
  apply (@pad_packet_forgets_digests Example.env).
  - reflexivity.
  - reflexivity.
  - reflexivity.
  - reflexivity.
  - repeat constructor.
Defined.

(** * The outbound builder on arbitrary input *)

Lemma mem_write_length (dst : list byte) (off : nat) (src : list byte) :
  (off + length src <= length dst)%nat ->
  length (mem_write dst off src) = length dst.
Proof.
  intros H. unfold mem_write.
  rewrite !length_app, length_firstn, length_skipn. lia.
Qed.

Lemma mem_write_firstn (dst : list byte) (off : nat) (src : list byte) :
  (off <= length dst)%nat ->
  firstn off (mem_write dst off src) = firstn off dst.
Proof.
  intros H. unfold mem_write.
  rewrite firstn_app, length_firstn, Nat.min_l by assumption.
  rewrite Nat.sub_diag, firstn_O, app_nil_r, firstn_firstn, Nat.min_id.
  reflexivity.
Qed.

Lemma stream_put_ok (s s' : stream) (src : list byte) :
  stream_ok s -> stream_put s src = Some s' ->
  stream_ok s' /\ length (s_data s') = length (s_data s)
  /\ s_endp s' = (s_endp s + length src)%nat.
Proof.
  unfold stream_ok, stream_put, STREAM_WRITEABLE. intros Hok H.
  destruct (Nat.leb_spec (length src) (length (s_data s) - s_endp s));
    [|discriminate].
  injection H as <-. cbn [s_data s_endp].
  rewrite mem_write_length by lia. lia.
Qed.

Lemma stream_put_zero_ok (s s' : stream) (size : N) :
  stream_ok s -> stream_put_zero s size = Some s' ->
  stream_ok s' /\ length (s_data s') = length (s_data s)
  /\ (s_endp s <= s_endp s')%nat.
Proof.
  unfold stream_put_zero. intros Hok H.
  destruct (size <=? N.of_nat (STREAM_WRITEABLE s))%N; [|discriminate].
  destruct (stream_put_ok s s' _ Hok H) as (H1 & H2 & H3).
  split; [assumption|]. split; [assumption|lia].
Qed.

Section BuilderBounds.
Context {env : AuthEnv}.

Lemma make_placeholders_ok (esalist : list babel_esa_item) :
  forall (s s' : stream) (addr : list byte) (hd : nat) (off off' : nat -> nat),
  stream_ok s ->
  make_placeholders esalist s addr hd off = Some (s', off') ->
  stream_ok s' /\ length (s_data s') = length (s_data s)
  /\ (s_endp s <= s_endp s')%nat.
Proof.
  induction esalist as [|esa rest IH]; intros s s' addr hd off off' Hok H;
    cbn [make_placeholders] in H.
  - injection H as <- _. auto.
  - unfold stream_putc, stream_putw in H.
    destruct (stream_put s [MESSAGE_HMAC]) as [s1|] eqn:E1; [|discriminate].
    destruct (stream_put_ok _ _ _ Hok E1) as (K1 & L1 & P1).
    destruct (stream_put s1 _) as [s2|] eqn:E2; [|discriminate].
    destruct (stream_put_ok _ _ _ K1 E2) as (K2 & L2 & P2).
    destruct (stream_put s2 _) as [s3|] eqn:E3; [|discriminate].
    destruct (stream_put_ok _ _ _ K2 E3) as (K3 & L3 & P3).
    destruct (stream_put s3 _) as [s4|] eqn:E4; [|discriminate].
    destruct (stream_put_ok _ _ _ K3 E4) as (K4 & L4 & P4).
    destruct (stream_put_zero s4 _) as [s5|] eqn:E5; [|discriminate].
    destruct (stream_put_zero_ok _ _ _ K4 E5) as (K5 & L5 & P5).
    assert (Hs5 : stream_ok s5 /\ length (s_data s5) = length (s_data s)
                  /\ (s_endp s <= s_endp s5)%nat)
      by (split; [assumption|split; [congruence|lia]]).
    destruct (S hd =? BABEL_MAXDIGESTSOUT)%nat.
    + injection H as <- _. exact Hs5.
    + destruct (IH _ _ _ _ _ _ K5 H) as (K6 & L6 & P6).
      split; [assumption|split; [congruence|lia]].
Qed.

(** The ways a call of the builder ends. *)
Lemma make_packet_cases (st : auth_state) (ifp : interface) (body : list byte)
    (body_len : nat) (now : Z) (r : make_result) :
  (body_len <= length body)%nat ->
  babel_auth_make_packet st ifp body body_len now = Some r ->
  let pools := pools_of st ifp in
  let ifp' := set_info ifp (babel_auth_bump_tspc (ts_base st) (info ifp) now) in
  let esalist :=
    babel_esalist_derive (csalist (info ifp)) now keys_valid_for_send in
  let pools' :=
    if (length esalist =? 0)%nat then bump incr_auth_sent_ng_nokeys pools
    else pools in
  (csalist (info ifp) = []
   /\ r = make_end (Z.of_nat body_len) st ifp (bump incr_plain_sent pools) body)
  \/ (csalist (info ifp) <> [] /\ babel_auth_got_source_address ifp = None
      /\ r = make_end (Z.of_nat body_len) st ifp (bump incr_internal_err pools)
                      body)
  \/ (csalist (info ifp) <> []
      /\ babel_auth_got_source_address ifp <> None
      /\ (r = make_end (Z.of_nat body_len) st ifp'
                       (bump incr_internal_err pools') body
          \/ exists n appended,
               (body_len + 8 <= n <= body_len + BABEL_MAXAUTHSPACE)%nat
               /\ r = make_end (Z.of_nat n) st ifp' (bump incr_auth_sent pools')
                               (mem_write body body_len appended))).
Proof.
  intros Hbody H pools ifp' esalist pools'.
  unfold babel_auth_make_packet in H.
  destruct (length (csalist (info ifp)) =? 0)%nat eqn:Hlen.
  { left. injection H as <-. split; [|reflexivity].
    apply Nat.eqb_eq in Hlen. now apply length_zero_iff_nil. }
  assert (Hcsa : csalist (info ifp) <> []).
  { intros E. rewrite E in Hlen. discriminate. }
  right.
  destruct (babel_auth_got_source_address ifp) as [addr|] eqn:Haddr.
  2: { left. injection H as <-. split; [assumption|]. split; reflexivity. }
  right. split; [assumption|]. split; [discriminate|].
  fold esalist in H. fold pools in H. fold pools' in H.
  unfold stream_putc, stream_putw, stream_putl in H.
  assert (K0 : stream_ok (stream_new (4 + body_len + BABEL_MAXAUTHSPACE))).
  { unfold stream_ok, stream_new. cbn [s_endp s_data]. lia. }
  assert (L0 : length (s_data (stream_new (4 + body_len + BABEL_MAXAUTHSPACE)))
               = (4 + body_len + BABEL_MAXAUTHSPACE)%nat)
    by (cbn [stream_new s_data]; apply zero_bytes_length).
  destruct (stream_put (stream_new _) [RTPROT_BABEL]) as [s1|] eqn:E1;
    [|discriminate].
  destruct (stream_put_ok _ _ _ K0 E1) as (K1 & L1 & P1).
  destruct (stream_put s1 _) as [s2|] eqn:E2; [|discriminate].
  destruct (stream_put_ok _ _ _ K1 E2) as (K2 & L2 & P2).
  destruct (stream_put s2 _) as [s3|] eqn:E3; [|discriminate].
  destruct (stream_put_ok _ _ _ K2 E3) as (K3 & L3 & P3).
  destruct (stream_put s3 _) as [s4|] eqn:E4; [|discriminate].
  destruct (stream_put_ok _ _ _ K3 E4) as (K4 & L4 & P4).
  destruct (stream_put s4 _) as [s5|] eqn:E5; [|discriminate].
  destruct (stream_put_ok _ _ _ K4 E5) as (K5 & L5 & P5).
  destruct (stream_put s5 _) as [s6|] eqn:E6; [|discriminate].
  destruct (stream_put_ok _ _ _ K5 E6) as (K6 & L6 & P6).
  destruct (stream_put s6 _) as [s7|] eqn:E7; [|discriminate].
  destruct (stream_put_ok _ _ _ K6 E7) as (K7 & L7 & P7).
  destruct (stream_put s7 _) as [s8|] eqn:E8; [|discriminate].
  destruct (stream_put_ok _ _ _ K7 E8) as (K8 & L8 & P8).
  match type of H with
  | context [make_placeholders ?a ?b ?c ?d ?e] =>
      destruct (make_placeholders a b c d e) as [[s9 off]|] eqn:E9;
        [|discriminate]
  end.
  destruct (make_placeholders_ok _ _ _ _ _ _ _ K8 E9) as (K9 & L9 & P9).
  destruct (stream_putw_at s9 2 _) as [s10|] eqn:E10; [|discriminate].
  match type of H with
  | context [make_digests ?a ?b ?c ?d ?e] =>
      destruct (make_digests a b c d e) as [s11|]
  end.
  - right. injection H as <-.
    exists (stream_get_endp s9 - 4)%nat,
           (firstn (stream_get_endp s9 - 4 - body_len)
                   (skipn (4 + body_len) (stream_get_data s11))).
    split; [|reflexivity].
    unfold stream_get_endp. unfold stream_ok in K9.
    cbn [stream_new s_endp length bytes_of_u16 bytes_of_u32] in *.
    rewrite length_firstn, Nat.min_l in P4 by assumption. lia.
  - left. injection H as <-. reflexivity.
Qed.
End BuilderBounds.

(** X18: the builder never writes into the body nor past the
    authentication space.  Whatever the call returns, the first
    [body_len] bytes of the caller's buffer are as they were and the
    returned length is between [body_len] and [body_len] +
    BABEL_MAXAUTHSPACE; either it is [body_len], the buffer is untouched
    and no packet is counted as sent with authentication, or it is at
    least [body_len] + 8 and auth_sent is incremented. *)
Theorem make_packet_keeps_body {env : AuthEnv} (st : auth_state)
    (ifp : interface) (body : list byte) (body_len : nat) (now : Z)
    (r : make_result) :
  (body_len <= length body)%nat ->
  babel_auth_make_packet st ifp body body_len now = Some r ->
  firstn body_len (mk_body r) = firstn body_len body
  /\ Z.of_nat body_len <= mk_ret r <= Z.of_nat (body_len + BABEL_MAXAUTHSPACE)
  /\ ((mk_ret r = Z.of_nat body_len /\ mk_body r = body
       /\ auth_sent (stats (mk_state r)) = auth_sent (stats st))
      \/ (Z.of_nat (body_len + 8) <= mk_ret r
          /\ auth_sent (stats (mk_state r)) = ulong_incr (auth_sent (stats st)))).
Proof.
  intros Hbody H.
  destruct (make_packet_cases st ifp body body_len now r Hbody H)
    as [[_ ->]|[(_ & _ & ->)|(_ & _ & [->|(n & appended & Hn & ->)])]];
    unfold make_end, store_pools; cbn [mk_ret mk_body mk_state fst stats
                                       set_stats bump global_stats].
  - split; [reflexivity|]. split; [lia|]. left. repeat split.
  - split; [reflexivity|]. split; [lia|]. left. repeat split.
  - split; [reflexivity|]. split; [lia|]. left. split; [reflexivity|].
    split; [reflexivity|].
    destruct (length _ =? 0)%nat; reflexivity.
  - split; [now apply mem_write_firstn|]. split; [lia|]. right.
    split; [lia|]. destruct (length _ =? 0)%nat; reflexivity.
Qed.

Lemma make_packet_keeps_body_witness :
  match @babel_auth_make_packet Example.env (Example.state BABEL_TS_BASE_ZERO [])
          (Example.iface 1 (Example.babel_if [Example.csa_alpha] true 0 0))
          Example.buffer 8 1000 with
  | Some r =>
      firstn 8 (mk_body r) = firstn 8 Example.buffer
      /\ 8 <= mk_ret r <= 560
  | None => False
  end.
Proof.
  destruct (@babel_auth_make_packet Example.env
              (Example.state BABEL_TS_BASE_ZERO [])
              (Example.iface 1 (Example.babel_if [Example.csa_alpha] true 0 0))
              Example.buffer 8 1000) as [r|] eqn:E.
  - destruct (@make_packet_keeps_body Example.env _ _ _ _ _ r
                (proj1 (Nat.leb_le 8 (length Example.buffer)) eq_refl) E)
      as (H1 & H2 & _).
    split; [exact H1|exact H2].
  - vm_compute in E. discriminate.
Defined.

(** X19: a call of the builder consumes a TS/PC value exactly when the
    interface has CSAs and a link-local address, whether the packet is
    authenticated, sent without keys or given up on a hash error;
    otherwise the send counters stay as they were.  Without a
    link-local address on an interface with CSAs the builder counts an
    internal error and hands the body back untouched.  The builder never
    touches the memory of neighbors nor the parameters. *)
Theorem make_packet_consumes_tspc {env : AuthEnv} (st : auth_state)
    (ifp : interface) (body : list byte) (body_len : nat) (now : Z)
    (r : make_result) :
  (body_len <= length body)%nat ->
  babel_auth_make_packet st ifp body body_len now = Some r ->
  let b' := babel_auth_bump_tspc (ts_base st) (info ifp) now in
  let advanced :=
    match csalist (info ifp), babel_auth_got_source_address ifp with
    | _ :: _, Some _ => true
    | _, _ => false
    end in
  (auth_timestamp (info (mk_ifp r)), auth_packetcounter (info (mk_ifp r)))
  = (if advanced then (auth_timestamp b', auth_packetcounter b')
     else (auth_timestamp (info ifp), auth_packetcounter (info ifp)))
  /\ (csalist (info ifp) <> [] -> babel_auth_got_source_address ifp = None ->
      mk_ret r = Z.of_nat body_len /\ mk_body r = body
      /\ internal_err (stats (mk_state r)) = ulong_incr (internal_err (stats st))
      /\ internal_err (auth_stats (info (mk_ifp r)))
         = ulong_incr (internal_err (auth_stats (info ifp))))
  /\ anmlist (mk_state r) = anmlist st
  /\ ts_base (mk_state r) = ts_base st
  /\ anm_timeout (mk_state r) = anm_timeout st.
Proof.
  intros Hbody H b' advanced.
  destruct (make_packet_cases st ifp body body_len now r Hbody H)
    as [[Hcsa ->]|[(Hcsa & Haddr & ->)
                  |(Hcsa & Haddr & [->|(n & appended & Hn & ->)])]];
    unfold advanced, make_end, store_pools;
    cbn [mk_ret mk_body mk_state mk_ifp fst snd stats set_stats bump
         global_stats if_stats info set_info set_auth_stats auth_timestamp
         auth_packetcounter anmlist ts_base anm_timeout].
  - rewrite Hcsa. split; [reflexivity|]. split; [congruence|]. repeat split.
  - rewrite Haddr. split; [now destruct (csalist (info ifp))|].
    split; [|repeat split]. intros _ _. repeat split.
  - destruct (csalist (info ifp)); [congruence|].
    destruct (babel_auth_got_source_address ifp); [|congruence].
    split; [reflexivity|]. split; [congruence|]. repeat split.
  - destruct (csalist (info ifp)); [congruence|].
    destruct (babel_auth_got_source_address ifp); [|congruence].
    split; [reflexivity|]. split; [congruence|]. repeat split.
Qed.

Lemma make_packet_consumes_tspc_witness :
  let ifp := {| if_id := 1; if_connected := [];
                info := Example.babel_if [Example.csa_alpha] true 5 9 |} in
  match @babel_auth_make_packet Example.env (Example.state BABEL_TS_BASE_ZERO [])
          ifp Example.buffer 8 1000 with
  | Some r =>
      (auth_timestamp (info (mk_ifp r)), auth_packetcounter (info (mk_ifp r)))
      = (5, 9)
      /\ mk_ret r = 8 /\ internal_err (stats (mk_state r)) = 1
  | None => False
  end.
Proof.
  intros ifp.
  destruct (@babel_auth_make_packet Example.env
              (Example.state BABEL_TS_BASE_ZERO []) ifp Example.buffer 8 1000)
    as [r|] eqn:E.
  - destruct (@make_packet_consumes_tspc Example.env _ _ _ _ _ r
                (proj1 (Nat.leb_le 8 (length Example.buffer)) eq_refl) E)
      as (H1 & H2 & _).
    split; [exact H1|].
    destruct H2 as (R1 & _ & R3 & _); [discriminate|reflexivity|].
    split; [exact R1|exact R3].
  - vm_compute in E. discriminate.
Defined.

(** X20: what an authenticated send appends.  On an interface with CSAs
    and a 16-byte link-local address, when the digests fit and the
    primitive computes them, the builder appends to the body exactly one
    TS/PC TLV carrying the advanced send counters and one HMAC TLV for
    each of the first BABEL_MAXDIGESTSOUT ESAs of the send list, in the
    order of the list, each holding the digest of the padded packet under
    the key of its ESA; it returns the length of body and TLVs, stores
    the advanced counters in the interface and increments auth_sent. *)
Theorem make_packet_appends_auth_tlvs {env : AuthEnv} (st : auth_state)
    (ifp : interface) (buffer : list byte) (body_len : nat) (now : Z)
    (addr6 : list byte) :
  let b' := babel_auth_bump_tspc (ts_base st) (info ifp) now in
  let esalist :=
    babel_esalist_derive (csalist (info ifp)) now keys_valid_for_send in
  let sent := esas_sent 0 esalist in
  let M := padded_image (firstn body_len buffer) b' addr6 sent in
  csalist (info ifp) <> [] ->
  babel_auth_got_source_address ifp = Some addr6 ->
  length addr6 = IPV6_MAX_BYTELEN ->
  (0 < BABEL_MAXDIGESTSOUT)%nat ->
  (body_len <= length buffer)%nat ->
  forallb esa_digest_fits sent = true ->
  (8 + hmac_tlvs_space sent <= BABEL_MAXAUTHSPACE)%nat ->
  Forall (esa_digest_ok M) sent ->
  exists r,
    babel_auth_make_packet st ifp buffer body_len now = Some r
    /\ mk_ret r = Z.of_nat (body_len + 8 + hmac_tlvs_space sent)
    /\ firstn (Z.to_nat (mk_ret r)) (mk_body r)
       = firstn body_len buffer
         ++ encode_tlvs
              (tspc_tlv_of b'
               :: map (fun esa => hmac_tlv_of esa (esa_digest M esa)) sent)
    /\ sent = firstn BABEL_MAXDIGESTSOUT esalist
    /\ auth_timestamp (info (mk_ifp r)) = auth_timestamp b'
    /\ auth_packetcounter (info (mk_ifp r)) = auth_packetcounter b'
    /\ auth_sent (stats (mk_state r)) = ulong_incr (auth_sent (stats st))
    /\ auth_sent (auth_stats (info (mk_ifp r)))
       = ulong_incr (auth_sent (auth_stats (info ifp))).
Proof.
  intros b' esalist sent M Hcsa Hsrc Haddr Hout Hbody Hfit Hspace Hok.
  pose proof (make_packet_authenticated st ifp buffer body_len now addr6
                Hcsa Hsrc Hbody (or_intror (conj Haddr Hout)) Hfit Hspace Hok)
    as Hmake.
  fold b' esalist in Hmake. fold sent in Hmake. fold M in Hmake.
  eexists. split; [exact Hmake|].
  assert (Ltail : length (encode_tlvs (auth_tlvs b' M sent))
                  = (8 + hmac_tlvs_space sent)%nat).
  { unfold auth_tlvs.
    change (length (encode_tlv (tspc_tlv_of b')
                    ++ encode_tlvs (map (fun esa =>
                         hmac_tlv_of esa (esa_digest M esa)) sent))
            = (8 + hmac_tlvs_space sent)%nat).
    rewrite length_app, (hmac_tlvs_space_filled M sent Hok). reflexivity. }
  split; [reflexivity|]. split.
  - pose proof (wire_packet_make_end st
                  (set_info ifp b')
                  (bump incr_auth_sent
                     (if (length esalist =? 0)%nat
                      then bump incr_auth_sent_ng_nokeys (pools_of st ifp)
                      else pools_of st ifp))
                  buffer body_len (encode_tlvs (auth_tlvs b' M sent)) Hbody)
      as Hwire.
    rewrite Ltail in Hwire. unfold wire_packet in Hwire.
    apply app_inv_head in Hwire.
    replace (body_len + 8 + hmac_tlvs_space sent)%nat
      with (body_len + (8 + hmac_tlvs_space sent))%nat by lia.
    exact Hwire.
  - split; [unfold sent, esas_sent; now rewrite Nat.sub_0_r|].
    unfold make_end, store_pools.
    cbn [mk_ifp mk_state fst snd info set_info set_auth_stats auth_timestamp
         auth_packetcounter stats set_stats auth_stats bump global_stats if_stats
         incr_auth_sent auth_sent].
    do 2 (split; [reflexivity|]).
    destruct (length esalist =? 0)%nat; split; reflexivity.
Qed.

Lemma make_packet_appends_auth_tlvs_witness :
  let st := Example.state BABEL_TS_BASE_UNIX [] in
  let ifp := Example.iface 1 (Example.babel_if [Example.csa_beta] true 0 0) in
  exists r,
    @babel_auth_make_packet Example.env st ifp Example.buffer 8 1000 = Some r
    /\ mk_ret r = 56.
Proof.
  intros st ifp.
  destruct (@make_packet_appends_auth_tlvs Example.env st ifp Example.buffer 8
              1000 Example.addr1) as (r & Hr & Hret & _).
  - discriminate.
  - reflexivity.
  - reflexivity.
  - apply Nat.ltb_lt. reflexivity.
  - apply Nat.leb_le. reflexivity.
  - reflexivity.
  - apply Nat.leb_le. reflexivity.
  - repeat constructor; eexists; split; reflexivity.
  - exists r. split; [exact Hr|exact Hret].
Defined.

(** * Parameters *)

Section ConfigWrite.
Import String.StringSyntax.
Local Open Scope string_scope.

(** X21: the configuration writer and the commands agree.  The writer
    writes the line " anm-timeout " with the timeout exactly when the
    timeout is not the default of [babel_auth_init], then the line
    " ts-base " with the keyword of the timestamp base exactly when the
    base is not the default of [babel_auth_init], nothing else, and
    returns the number of lines written: nothing is written for the
    state after [babel_auth_init], nor after the commands
    [no anm-timeout] and [no ts-base].  The keyword written is one the
    ts-base command knows, and that command, given the keyword in any
    state, sets the timestamp base the line was written for and leaves
    the timeout and the memory alone. *)
Theorem config_write_agrees_with_commands (st st0 : auth_state) :
  let out := fst (babel_auth_config_write st) in
  let timeout_line := vty_out_u " anm-timeout " (anm_timeout st) in
  let keyword := ts_base_cli_str (ts_base st) in
  let base_line := vty_out_s " ts-base " keyword in
  out = List.app
          (if anm_timeout st =? anm_timeout babel_auth_init
           then [] else [timeout_line])
          (if ts_base_eqb (ts_base st) (ts_base babel_auth_init)
           then [] else [base_line])
  /\ snd (babel_auth_config_write st) = Z.of_nat (length out)
  /\ (In timeout_line out <-> anm_timeout st <> anm_timeout babel_auth_init)
  /\ (In base_line out <-> ts_base st <> ts_base babel_auth_init)
  /\ (keyword = "zero" \/ keyword = "unixtime")
  /\ ts_base (ts_base_val st0 keyword) = ts_base st
  /\ anm_timeout (ts_base_val st0 keyword) = anm_timeout st0
  /\ anmlist (ts_base_val st0 keyword) = anmlist st0
  /\ babel_auth_config_write babel_auth_init = ([], 0)
  /\ babel_auth_config_write (no_ts_base (no_anm_timeout_val st)) = ([], 0).
Proof.
  intros out timeout_line keyword base_line.
  subst out timeout_line keyword base_line.
  unfold babel_auth_config_write at 1 2 3 4 5.
  cbn [babel_auth_init anm_timeout ts_base].
  destruct (Z.eqb_spec (anm_timeout st) BABEL_DEFAULT_ANM_TIMEOUT) as [E|E];
    destruct (ts_base st) eqn:B;
    cbn [negb ts_base_eqb BABEL_DEFAULT_TS_BASE fst snd List.app length
         ts_base_cli_str In];
    (split; [reflexivity|]); (split; [reflexivity|]).
  - split; [split; [intros [H|[]]; discriminate|intros H; contradiction]|].
    split; [split; [discriminate|intros _; now left]|].
    split; [now left|]. repeat split.
  - split; [split; [intros []|intros H; contradiction]|].
    split; [split; [intros []|intros H; now contradiction H]|].
    split; [now right|]. repeat split.
  - split; [split; [intros _; exact E|intros _; now left]|].
    split; [split; [discriminate|intros _; right; now left]|].
    split; [now left|]. repeat split.
  - split; [split; [intros _; exact E|intros _; now left]|].
    split; [split; [intros [H|[]]; discriminate|intros H; now contradiction H]|].
    split; [now right|]. repeat split.
Qed.
End ConfigWrite.

(** * Packets of one sender, one after the other *)

Lemma babel_auth_bump_tspc_csalist (base : ts_base_t) (b : babel_interface)
    (now : Z) :
  csalist (babel_auth_bump_tspc base b now) = csalist b.
Proof.
  unfold babel_auth_bump_tspc.
  destruct base; repeat match goal with
                        | |- context [if ?c then _ else _] => destruct c
                        end; reflexivity.
Qed.

Section Session.
Context {env : AuthEnv}.
Hypothesis Hpad1 : MESSAGE_HMAC <> MESSAGE_PAD1.
Hypothesis Htspc : MESSAGE_HMAC <> MESSAGE_TSPC.

(** What the builder puts on the wire. *)
Lemma make_packet_authentic_wire (st : auth_state) (ifp : interface)
    (buffer : list byte) (body_len : nat) (now : Z) (addr6 : list byte) :
  let b' := babel_auth_bump_tspc (ts_base st) (info ifp) now in
  let sent :=
    esas_sent 0 (babel_esalist_derive (csalist (info ifp)) now
                                      keys_valid_for_send) in
  let M := padded_image (firstn body_len buffer) b' addr6 sent in
  csalist (info ifp) <> [] -> (0 < BABEL_MAXDIGESTSOUT)%nat ->
  can_send st ifp buffer body_len now addr6 ->
  exists r,
    babel_auth_make_packet st ifp buffer body_len now = Some r
    /\ auth_timestamp (info (mk_ifp r)) = auth_timestamp b'
    /\ auth_packetcounter (info (mk_ifp r)) = auth_packetcounter b'
    /\ csalist (info (mk_ifp r)) = csalist (info ifp)
    /\ authentic_wire (wire_packet r) addr6 (auth_timestamp b')
                      (auth_packetcounter b') M sent.
Proof.
  intros b' sent M Hcsa Hout
    (Hsrc & Haddr & Hbody & (body_tlvs & Ebody & Hplain) & Hrange & Hfit
     & Hspace & Hok).
  fold b' in Hok. fold sent in Hfit, Hspace, Hok. fold M in Hok.
  pose proof (make_packet_authenticated st ifp buffer body_len now addr6
                Hcsa Hsrc Hbody (or_intror (conj Haddr Hout)) Hfit Hspace Hok)
    as Hmake.
  fold b' in Hmake. fold sent in Hmake. fold M in Hmake.
  eexists. split; [exact Hmake|].
  do 2 (split; [reflexivity|]).
  split; [apply babel_auth_bump_tspc_csalist|].
  assert (Ltail : length (encode_tlvs (auth_tlvs b' M sent))
                  = (8 + hmac_tlvs_space sent)%nat).
  { unfold auth_tlvs.
    change (length (encode_tlv (tspc_tlv_of b')
                    ++ encode_tlvs (map (fun esa =>
                         hmac_tlv_of esa (esa_digest M esa)) sent))
            = (8 + hmac_tlvs_space sent)%nat).
    rewrite length_app, (hmac_tlvs_space_filled M sent Hok). reflexivity. }
  set (hm := map (fun esa => hmac_tlv_of esa (esa_digest M esa)) sent).
  replace (body_len + 8 + hmac_tlvs_space sent)%nat
    with (body_len + length (encode_tlvs (auth_tlvs b' M sent)))%nat by lia.
  rewrite wire_packet_make_end by assumption.
  rewrite Ltail, Ebody, <- encode_tlvs_app. unfold auth_tlvs. fold hm.
  set (hdr := packet_header (Z.of_nat (body_len + (8 + hmac_tlvs_space sent)))).
  destruct (tlvs_plain_spec addr6 body_tlvs Hplain) as (Hnot & Hpbody & Epbody).
  destruct (auth_tlvs_paddable addr6 M sent Hpad1 Hfit Hok) as [Hphm Ephm].
  fold hm in Hphm, Ephm.
  exists hdr, body_tlvs, hm. cbv zeta. fold (tspc_tlv_of b').
  split; [reflexivity|]. split; [reflexivity|]. split; [exact Hnot|].
  split; [|split].
  - rewrite forallb_app, Hpbody. cbn [forallb andb].
    now rewrite (tspc_tlv_of_paddable b' Htspc).
  - rewrite map_app. cbn [map].
    rewrite Epbody, Ephm, (tspc_tlv_of_pad addr6 b' Htspc).
    unfold M, padded_image, hdr. rewrite Ebody.
    assert (Lb : length (encode_tlvs body_tlvs) = body_len)
      by (rewrite <- Ebody, length_firstn; lia).
    rewrite Lb, encode_tlvs_app. cbn [encode_tlvs flat_map].
    do 2 f_equal. lia.
  - intros esa Hin. apply in_or_app. right. right. unfold hm.
    apply in_map_iff. exists esa. split; [reflexivity|exact Hin].
Qed.

(** An authentic packet with a pair above the stored one is accepted
    and its pair stored. *)
Lemma authentic_wire_accepted (st : auth_state) (ifp : interface)
    (from packet : list byte) (now ts pc : Z) (msg : list byte)
    (sent l1 l2 : list babel_esa_item) (esa_s esa_r : babel_esa_item) :
  let c := babel_auth_check_packet_run st ifp from packet now in
  authentic_wire packet from ts pc msg sent ->
  0 <= ts < 4294967296 -> 0 <= pc < 65536 ->
  length from = IPV6_MAX_BYTELEN ->
  Forall (esa_digest_ok msg) sent ->
  babel_esalist_derive (csalist (info ifp)) now keys_valid_for_accept
  = l1 ++ esa_r :: l2 ->
  (length l1 < BABEL_MAXDIGESTSIN)%nat ->
  In esa_s sent -> esa_same_key esa_s esa_r ->
  tspc_lt (fst (anm_stored st from ifp)) (snd (anm_stored st from ifp)) ts pc ->
  ck_ret c = Some MSG_OK
  /\ anm_stored (ck_state c) from (ck_ifp c) = (ts, pc).
Proof.
  intros c (hdr & before & after & Hw) Hts Hpc Hfrom Hok Hesas Hl1 Hin
         (Halgo & Hkid & Hkey) Hlt.
  cbv zeta in Hw. destruct Hw as (-> & Hhdr & Hbefore & Hpad & Hmsg & Hall).
  assert (Hcsa : csalist (info ifp) <> []).
  { intros E. rewrite E in Hesas. unfold babel_esalist_derive in Hesas.
    cbn [esalist_derive_csas] in Hesas. now destruct l1. }
  rewrite Forall_forall in Hok. destruct (Hok esa_s Hin) as (d & Hd & Hdlen).
  assert (Ed : esa_digest msg esa_s = d) by (unfold esa_digest; now rewrite Hd).
  pose proof (babel_esalist_derive_key_id (csalist (info ifp)) now
                keys_valid_for_accept) as Hids.
  rewrite Hesas, Forall_forall in Hids.
  specialize (Hids esa_r (in_elt esa_r l1 l2)). cbv beta in Hids.
  destruct (check_packet_run_authentic st ifp from now hdr before after
              (byte.of_Z (Z.shiftr pc 8)) (byte.of_Z pc)
              (byte.of_Z (Z.shiftr ts 24)) (byte.of_Z (Z.shiftr ts 16))
              (byte.of_Z (Z.shiftr ts 8)) (byte.of_Z ts)
              l1 l2 esa_r d) as (Hret & Hanm & _); try assumption.
  - change (be_value [_; _]) with (be_value (bytes_of_u16 pc)).
    change (be_value [_; _; _; _]) with (be_value (bytes_of_u32 ts)).
    rewrite be_value_u16, be_value_u32 by assumption.
    now apply tspc_accepts_lt.
  - rewrite <- Halgo, <- Hkey.
    change (Tlv MESSAGE_TSPC [_; _; _; _; _; _])
      with (Tlv MESSAGE_TSPC (bytes_of_u16 pc ++ bytes_of_u32 ts)).
    rewrite Hmsg. exact Hd.
  - now rewrite <- Halgo.
  - specialize (Hall esa_s Hin). unfold hmac_tlv_of in *.
    rewrite Ed, Hkid in Hall. exact Hall.
  - split; [exact Hret|].
    change (be_value [_; _]) with (be_value (bytes_of_u16 pc)) in Hanm.
    change (be_value [_; _; _; _]) with (be_value (bytes_of_u32 ts)) in Hanm.
    rewrite be_value_u16, be_value_u32 in Hanm by assumption.
    apply (anm_stored_after_accept st ifp from pc ts now); [exact Hanm|].
    apply check_packet_run_ifp.
Qed.

(** An authentic packet with a pair that is not above the stored one is
    turned down on its TS/PC TLV. *)
Lemma authentic_wire_stale (st : auth_state) (ifp : interface)
    (from packet : list byte) (now ts pc : Z) (msg : list byte)
    (sent : list babel_esa_item) :
  authentic_wire packet from ts pc msg sent ->
  0 <= ts < 4294967296 -> 0 <= pc < 65536 ->
  csalist (info ifp) <> [] ->
  ~ tspc_lt (fst (anm_stored st from ifp)) (snd (anm_stored st from ifp)) ts pc ->
  babel_auth_check_packet_run st ifp from packet now
  = check_end (Some (if authrxreq (info ifp) then MSG_NG else MSG_OK)) st ifp
              (bump incr_auth_recv_ng_tspc (pools_of st ifp)) 0 0.
Proof.
  intros (hdr & before & after & Hw) Hts Hpc Hcsa Hnlt.
  cbv zeta in Hw. destruct Hw as (-> & Hhdr & Hbefore & _).
  rewrite encode_tlvs_app.
  apply (check_packet_run_tspc_reject st ifp from now hdr before
           (byte.of_Z (Z.of_nat 6))
           (byte.of_Z (Z.shiftr pc 8)) (byte.of_Z pc)
           (byte.of_Z (Z.shiftr ts 24)) (byte.of_Z (Z.shiftr ts 16))
           (byte.of_Z (Z.shiftr ts 8)) (byte.of_Z ts)
           (encode_tlvs after) Hcsa Hhdr Hbefore).
  change (be_value [_; _]) with (be_value (bytes_of_u16 pc)).
  change (be_value [_; _; _; _]) with (be_value (bytes_of_u32 ts)).
  rewrite be_value_u16, be_value_u32 by assumption.
  destruct (tspc_accepts _ _ _ _) eqn:E; [|reflexivity].
  apply tspc_accepts_lt in E. contradiction.
Qed.
End Session.

Lemma tspc_lt_trans (ts1 pc1 ts2 pc2 ts3 pc3 : Z) :
  tspc_lt ts1 pc1 ts2 pc2 -> tspc_lt ts2 pc2 ts3 pc3 -> tspc_lt ts1 pc1 ts3 pc3.
Proof. unfold tspc_lt. lia. Qed.

Lemma keys_shared_sender {env : AuthEnv} (csas_s csas_r : list babel_csa_item)
    (now_s now_r : Z) :
  keys_shared csas_s now_s csas_r now_r ->
  csas_s <> [] /\ (0 < BABEL_MAXDIGESTSOUT)%nat /\ csas_r <> [].
Proof.
  intros (l1 & l2 & esa_r & esa_s & Hesas & _ & Hin & _). split; [|split].
  - intros E. rewrite E in Hin.
    unfold esas_sent, babel_esalist_derive in Hin. cbn [esalist_derive_csas] in Hin.
    now rewrite firstn_nil in Hin.
  - destruct BABEL_MAXDIGESTSOUT eqn:E; [|lia].
    unfold esas_sent in Hin. now rewrite E in Hin.
  - intros E. rewrite E in Hesas. unfold babel_esalist_derive in Hesas.
    cbn [esalist_derive_csas] in Hesas. now destruct l1.
Qed.

(** X22: packets of one sender are accepted in the order they were
    built, and in that order only.  When a sender authenticates two
    bodies one after the other (the send counters not at their last
    value in between) and a receiver sharing a key with it holds a pair
    below the first packet's, the receiver accepts the first packet and
    then the second; had the second arrived first, it would be accepted
    and the first would then be turned down on its TS/PC TLV, leaving
    the memory as it was. *)
Theorem consecutive_packets_in_order {env : AuthEnv}
    (st_s : auth_state) (ifp_s : interface) (buf1 buf2 : list byte)
    (len1 len2 : nat) (now1 now2 : Z) (addr6 : list byte)
    (r1 r2 : make_result)
    (st_r : auth_state) (ifp_r : interface) (t1 t2 : Z) :
  MESSAGE_HMAC <> MESSAGE_PAD1 -> MESSAGE_HMAC <> MESSAGE_TSPC ->
  babel_auth_make_packet st_s ifp_s buf1 len1 now1 = Some r1 ->
  babel_auth_make_packet (mk_state r1) (mk_ifp r1) buf2 len2 now2 = Some r2 ->
  can_send st_s ifp_s buf1 len1 now1 addr6 ->
  can_send (mk_state r1) (mk_ifp r1) buf2 len2 now2 addr6 ->
  now2 < 4294967296 -> tspc_exhausted (info (mk_ifp r1)) = false ->
  keys_shared (csalist (info ifp_s)) now1 (csalist (info ifp_r)) t1 ->
  keys_shared (csalist (info ifp_s)) now2 (csalist (info ifp_r)) t2 ->
  tspc_lt (fst (anm_stored st_r addr6 ifp_r)) (snd (anm_stored st_r addr6 ifp_r))
          (auth_timestamp (info (mk_ifp r1)))
          (auth_packetcounter (info (mk_ifp r1))) ->
  let c1 := babel_auth_check_packet_run st_r ifp_r addr6 (wire_packet r1) t1 in
  let c2 := babel_auth_check_packet_run (ck_state c1) (ck_ifp c1) addr6
              (wire_packet r2) t2 in
  let d2 := babel_auth_check_packet_run st_r ifp_r addr6 (wire_packet r2) t2 in
  let d1 := babel_auth_check_packet_run (ck_state d2) (ck_ifp d2) addr6
              (wire_packet r1) t2 in
  ck_ret c1 = Some MSG_OK /\ ck_ret c2 = Some MSG_OK
  /\ ck_ret d2 = Some MSG_OK
  /\ ck_ret d1 = Some (if authrxreq (info ifp_r) then MSG_NG else MSG_OK)
  /\ anmlist (ck_state d1) = anmlist (ck_state d2).
Proof.
  intros Hpad1 Htspc Hmake1 Hmake2 Hsend1 Hsend2 Hnow2 Hroom Hkeys1 Hkeys2 Hlt
         c1 c2 d2 d1.
  destruct (keys_shared_sender _ _ _ _ Hkeys1) as (Hcsa_s & Hout & Hcsa_r).
  (* the first packet *)
  destruct (make_packet_authentic_wire Hpad1 Htspc st_s ifp_s buf1 len1 now1 addr6
              Hcsa_s Hout Hsend1) as (r & Hr & Hts1 & Hpc1 & Hcsl1 & Hw1).
  rewrite Hmake1 in Hr. injection Hr as <-.
  rewrite <- Hts1, <- Hpc1 in Hw1.
  (* the second packet *)
  assert (Hcsa_s1 : csalist (info (mk_ifp r1)) <> []) by (now rewrite Hcsl1).
  destruct (make_packet_authentic_wire Hpad1 Htspc (mk_state r1) (mk_ifp r1)
              buf2 len2 now2 addr6 Hcsa_s1 Hout Hsend2)
    as (r & Hr & Hts2 & Hpc2 & Hcsl2 & Hw2).
  rewrite Hmake2 in Hr. injection Hr as <-.
  rewrite <- Hts2, <- Hpc2 in Hw2.
  (* ranges and order of the pairs *)
  destruct Hsend1 as (_ & Haddr & _ & _ & _ & _ & _ & Hok1).
  destruct Hsend2 as (_ & _ & _ & _ & Hrange1 & _ & _ & Hok2).
  pose proof (babel_auth_bump_tspc_in_range (ts_base (mk_state r1))
                (info (mk_ifp r1)) now2 Hrange1) as Hrange2.
  pose proof (babel_auth_bump_tspc_lt (ts_base (mk_state r1))
                (info (mk_ifp r1)) now2 Hrange1 Hnow2 Hroom) as Hlt12.
  unfold send_tspc_lt in Hlt12. unfold tspc_in_range in Hrange1, Hrange2.
  rewrite <- Hts2, <- Hpc2 in Hlt12, Hrange2.
  destruct Hrange1 as [Rts1 Rpc1]. destruct Hrange2 as [Rts2 Rpc2].
  destruct Hkeys1 as (l1 & l2 & esa_r & esa_s & Hesas & Hl1 & Hin & Hsame).
  destruct Hkeys2 as (k1 & k2 & esb_r & esb_s & Hesbs & Hk1 & Hinb & Hsameb).
  rewrite <- Hcsl1 in Hinb.
  (* in order *)
  destruct (authentic_wire_accepted st_r ifp_r addr6 (wire_packet r1) t1 _ _ _ _
              l1 l2 esa_s esa_r Hw1 Rts1 Rpc1 Haddr Hok1 Hesas Hl1 Hin Hsame Hlt)
    as [Hc1 Hst1].
  fold c1 in Hc1, Hst1.
  destruct (check_packet_run_ifp st_r ifp_r addr6 t1 (wire_packet r1))
    as (Hid1 & Hcs1 & _).
  fold c1 in Hid1, Hcs1.
  assert (Hesbs1 :
    babel_esalist_derive (csalist (info (ck_ifp c1))) t2 keys_valid_for_accept
    = k1 ++ esb_r :: k2) by (now rewrite Hcs1).
  destruct (authentic_wire_accepted (ck_state c1) (ck_ifp c1) addr6
              (wire_packet r2) t2 _ _ _ _ k1 k2 esb_s esb_r Hw2 Rts2 Rpc2 Haddr
              Hok2 Hesbs1 Hk1 Hinb Hsameb) as [Hc2 _].
  { rewrite Hst1. exact Hlt12. }
  fold c2 in Hc2.
  (* out of order *)
  destruct (authentic_wire_accepted st_r ifp_r addr6 (wire_packet r2) t2 _ _ _ _
              k1 k2 esb_s esb_r Hw2 Rts2 Rpc2 Haddr Hok2 Hesbs Hk1 Hinb Hsameb)
    as [Hd2 Hst2].
  { exact (tspc_lt_trans _ _ _ _ _ _ Hlt Hlt12). }
  fold d2 in Hd2, Hst2.
  destruct (check_packet_run_ifp st_r ifp_r addr6 t2 (wire_packet r2))
    as (_ & Hcs2 & Hrx2).
  fold d2 in Hcs2, Hrx2.
  assert (Hstale :
    d1 = check_end (Some (if authrxreq (info (ck_ifp d2)) then MSG_NG else MSG_OK))
           (ck_state d2) (ck_ifp d2)
           (bump incr_auth_recv_ng_tspc (pools_of (ck_state d2) (ck_ifp d2))) 0 0).
  { apply (authentic_wire_stale (ck_state d2) (ck_ifp d2) addr6 (wire_packet r1)
             t2 _ _ _ _ Hw1 Rts1 Rpc1).
    - now rewrite Hcs2.
    - rewrite Hst2. cbn [fst snd]. unfold tspc_lt in *. lia. }
  split; [exact Hc1|]. split; [exact Hc2|]. split; [exact Hd2|].
  rewrite Hstale, Hrx2. split; reflexivity.
Qed.

Lemma consecutive_packets_in_order_witness :
  let st := Example.state BABEL_TS_BASE_ZERO [] in
  let sender := Example.iface 1 (Example.babel_if [Example.csa_alpha] true 0 0) in
  let receiver := Example.iface 2 (Example.babel_if [Example.csa_alpha] true 0 0) in
  match @babel_auth_make_packet Example.env st sender Example.buffer 8 1000 with
  | Some r1 =>
      match @babel_auth_make_packet Example.env (mk_state r1) (mk_ifp r1)
              Example.buffer 8 1001 with
      | Some r2 =>
          let c1 := @babel_auth_check_packet_run Example.env st receiver
                      Example.addr1 (@wire_packet Example.env r1) 1000 in
          let c2 := @babel_auth_check_packet_run Example.env (ck_state c1)
                      (ck_ifp c1) Example.addr1 (@wire_packet Example.env r2) 1001 in
          let d2 := @babel_auth_check_packet_run Example.env st receiver
                      Example.addr1 (@wire_packet Example.env r2) 1001 in
          let d1 := @babel_auth_check_packet_run Example.env (ck_state d2)
                      (ck_ifp d2) Example.addr1 (@wire_packet Example.env r1) 1001 in
          ck_ret c1 = Some MSG_OK /\ ck_ret c2 = Some MSG_OK
          /\ ck_ret d2 = Some MSG_OK
          /\ ck_ret d1 = Some (if authrxreq (info receiver) then MSG_NG else MSG_OK)
          /\ anmlist (ck_state d1) = anmlist (ck_state d2)
      | None => False
      end
  | None => False
  end.
Proof.
  intros st sender receiver.
  destruct (@babel_auth_make_packet Example.env st sender Example.buffer 8 1000)
    as [r1|] eqn:E1; [|vm_compute in E1; discriminate].
  pose proof E1 as E1c. vm_compute in E1c. injection E1c as <-.
  match goal with
  | |- match ?m with Some _ => _ | None => _ end =>
      destruct m as [r2|] eqn:E2; [|vm_compute in E2; discriminate]
  end.
  assert (Hkeys : forall now,
    @keys_shared Example.env [Example.csa_alpha] now [Example.csa_alpha] now).
  { intros now. exists [], [], Example.esa_alpha, Example.esa_alpha.
    split; [reflexivity|]. split; [apply Nat.ltb_lt; reflexivity|].
    split; [left; reflexivity|]. repeat split. }
  apply (@consecutive_packets_in_order Example.env st sender Example.buffer
           Example.buffer 8 8 1000 1001 Example.addr1 _ r2 st receiver
           1000 1001).
  - discriminate.
  - discriminate.
  - exact E1.
  - exact E2.
  - split; [reflexivity|]. split; [reflexivity|].
    split; [apply Nat.leb_le; reflexivity|].
    split; [exists [Example.hello]; split; reflexivity|].
    split; [unfold tspc_in_range; simpl; lia|].
    split; [reflexivity|]. split; [apply Nat.leb_le; reflexivity|].
    constructor; [|constructor]. eexists. split; reflexivity.
  - split; [reflexivity|]. split; [reflexivity|].
    split; [apply Nat.leb_le; reflexivity|].
    split; [exists [Example.hello]; split; reflexivity|].
    split; [unfold tspc_in_range; simpl; lia|].
    split; [reflexivity|]. split; [apply Nat.leb_le; reflexivity|].
    constructor; [|constructor]. eexists. split; reflexivity.
  - reflexivity.
  - reflexivity.
  - apply Hkeys.
  - apply Hkeys.
  - right. split; reflexivity.
Defined.
